(** * PCILeechFWGenerator: the advanced SystemVerilog generator

    A shallow embedding of [src/advanced_sv_main.py] (class
    [AdvancedSVGenerator]) together with a small semantics of the
    SystemVerilog fragments it emits.

    The development has four layers:
    - [Py]: the pieces of the Python runtime the generator relies on
      ([int(s, base)], [format(n, "08X")], [str(n)], binary64 floats,
      exceptions);
    - [SV]: an abstract syntax for the emitted SystemVerilog (declarations,
      [always_ff] blocks, the read [case]), its printer, and a cycle
      semantics (two-state values, non-blocking assignments);
    - [Gen]: the generator itself, transcribed method by method: every
      method builds the same list of lines as the Python source, raises
      where the source raises, and draws from the random generator where
      the source does;
    - [Tree]: the syntax trees of the fragments.

    The theorems first show that the lines built by the generator are the
    printed form of the trees, and then reason on the semantics of those
    trees.  The perturbation of the reset values is computed on binary64
    floats; it is bounded through the real values of the floats, from the
    specification of the primitive operations ([FloatAxioms]). *)

From Stdlib Require Import ZArith List String Ascii Bool Lia.
From Stdlib Require Import Reals Lra.
From Stdlib Require Import PrimFloat SpecFloat FloatOps FloatAxioms.
From Stdlib Require Uint63.
Import ListNotations.

Open Scope string_scope.
Open Scope list_scope.
Open Scope Z_scope.

Set Warnings "-inexact-float".

(** String concatenation gets its own infix, so that [++] stays the list
    append. *)
Infix "+s+" := String.append (right associativity, at level 60).

(* ================================================================== *)
(** ** Python runtime                                                  *)
(* ================================================================== *)

Module Py.

(** The exceptions the generator can raise on the inputs modelled here. *)
Inductive exn : Type :=
| ValueError
| OverflowError.

Inductive result (A : Type) : Type :=
| Ok (a : A)
| Raise (e : exn).
Arguments Ok {A} a.
Arguments Raise {A} e.

Definition bind {A B} (m : result A) (k : A -> result B) : result B :=
  match m with
  | Ok a => k a
  | Raise e => Raise e
  end.

(** [str.join]: [sep.join(parts)]. *)
Fixpoint join (sep : string) (parts : list string) : string :=
  match parts with
  | [] => ""
  | [p] => p
  | p :: rest => p +s+ sep +s+ join sep rest
  end.

(** The line feed, and the double quote (written by its code so that no
    literal of this file has to escape it). *)
Definition nl : string := String (ascii_of_nat 10) "".
Definition dquote : string := String (ascii_of_nat 34) "".

(** [str.startswith]. *)
Definition startswith (s pre : string) : bool := String.prefix pre s.

(** *** [int(s, base)] for ASCII strings

    Follows [PyLong_FromString]: leading white space ([Py_ISSPACE]: the
    space and the characters 9 to 13), an optional sign, for base 16 an
    optional [0x]/[0X] prefix (one underscore may follow it), then digits
    separated by single underscores, then trailing white space.  In a
    base that is not a power of two, a literal of more than
    [max_str_digits] digits is refused, leading zeros included.

    A [str] with characters outside ASCII is first transliterated by the
    interpreter (Unicode blanks and decimal digits become ASCII ones);
    that step is not modelled, and what is stated on the texts that
    [int] accepts is stated for ASCII text. *)

(** [sys.int_info.default_max_str_digits]. *)
Definition max_str_digits : Z := 4300.

Definition is_space (c : ascii) : bool :=
  let n := nat_of_ascii c in
  (Nat.eqb n 32 || (Nat.leb 9 n && Nat.leb n 13))%bool.

Definition digit_value (c : ascii) : option Z :=
  let n := Z.of_nat (nat_of_ascii c) in
  if (48 <=? n) && (n <=? 57) then Some (n - 48)
  else if (97 <=? n) && (n <=? 122) then Some (n - 97 + 10)
  else if (65 <=? n) && (n <=? 90) then Some (n - 65 + 10)
  else None.

Fixpoint lstrip (s : string) : string :=
  match s with
  | String c r => if is_space c then lstrip r else s
  | EmptyString => s
  end.

Definition is_underscore (c : ascii) : bool := Ascii.eqb c "_".

(** The digit loop: [prev_us] tells whether the previous character was an
    underscore, [n] counts digits, [acc] is the value so far.  Returns
    the value, the digit count and the unread rest. *)
Fixpoint scan_digits (base : Z) (s : string) (prev_us : bool) (n : nat)
         (acc : Z) : option (Z * nat * string) :=
  match s with
  | String c r =>
      if is_underscore c then
        if prev_us then None else scan_digits base r true n acc
      else
        match digit_value c with
        | Some d =>
            if d <? base then scan_digits base r false (S n) (acc * base + d)
            else if prev_us then None else Some (acc, n, s)
        | None => if prev_us then None else Some (acc, n, s)
        end
  | EmptyString => if prev_us then None else Some (acc, n, s)
  end.

Definition strip_sign (s : string) : bool * string :=
  match s with
  | String c r =>
      if Ascii.eqb c "+" then (false, r)
      else if Ascii.eqb c "-" then (true, r)
      else (false, s)
  | EmptyString => (false, s)
  end.

Definition strip_hex_prefix (s : string) : string :=
  match s with
  | String c0 (String c1 r) =>
      if Ascii.eqb c0 "0" && (Ascii.eqb c1 "x" || Ascii.eqb c1 "X") then
        match r with
        | String c2 r' => if is_underscore c2 then r' else r
        | EmptyString => r
        end
      else s
  | _ => s
  end.

(** [(base & (base - 1)) == 0]: the bases without a limit on the number
    of digits. *)
Definition power_of_two (base : Z) : bool := Z.land base (base - 1) =? 0.

Definition int_of_str (base : Z) (s : string) : result Z :=
  let (neg, s1) := strip_sign (lstrip s) in
  let s2 := if base =? 16 then strip_hex_prefix s1 else s1 in
  match s2 with
  | String c _ =>
      if is_underscore c then Raise ValueError
      else
        match scan_digits base s2 false O 0 with
        | Some (v, S k, rest) =>
            if negb (power_of_two base) && (max_str_digits <? Z.of_nat (S k))
            then Raise ValueError
            else
              match lstrip rest with
              | EmptyString => Ok (if neg then - v else v)
              | String _ _ => Raise ValueError
              end
        | _ => Raise ValueError
        end
  | EmptyString => Raise ValueError
  end.

(** *** Number formatting *)

Definition digit_char (d : Z) : ascii :=
  if d <? 10 then ascii_of_nat (Z.to_nat (48 + d))
  else ascii_of_nat (Z.to_nat (65 + d - 10)).

Fixpoint digits_loop (base : Z) (fuel : nat) (z : Z) (acc : string) : string :=
  match fuel with
  | O => acc
  | S f =>
      let acc' := String (digit_char (z mod base)) acc in
      if z / base =? 0 then acc' else digits_loop base f (z / base) acc'
  end.

(** The digits of a natural number [z] in [base] (upper-case letters). *)
Definition digits (base : Z) (z : Z) : string :=
  digits_loop base (S (Z.to_nat (Z.log2 z))) z "".

Fixpoint zeros (n : nat) : string :=
  match n with
  | O => ""
  | S k => String "0" (zeros k)
  end.

(** Zero-fill on the left up to [width] characters. *)
Definition zfill (width : nat) (s : string) : string :=
  zeros (width - String.length s) +s+ s.

(** [format(z, "0<width>X")] and the like: sign-aware zero padding, the
    sign counts in the width. *)
Definition format_int (base : Z) (width : nat) (z : Z) : string :=
  if z <? 0 then "-" +s+ zfill (width - 1) (digits base (- z))
  else zfill width (digits base z).

(** [f"{z:08X}"]. *)
Definition format_08X (z : Z) : string := format_int 16 8 z.

(** The decimal text of an integer. *)
Definition decimal (z : Z) : string := format_int 10 0 z.

(** [str(z)], and the interpolation of an [int] in an f-string: the
    decimal text, refused with [ValueError] when it has more than
    [max_str_digits] digits (the sign does not count). *)
Definition str (z : Z) : result string :=
  if max_str_digits <? Z.of_nat (String.length (digits 10 (Z.abs z)))
  then Raise ValueError
  else Ok (decimal z).

(** *** Floats: binary64, round to nearest even *)

(** [float(z)] as done by [int * float] and [float / int]: correctly
    rounded, [OverflowError] when the integer is too large. *)
Definition float_of_int (z : Z) : result float :=
  match binary_normalize prec emax z 0 false with
  | S754_infinity _ => Raise OverflowError
  | sf => Ok (SF2Prim sf)
  end.

(** [int(x)]: truncation toward zero; [ValueError] on NaN,
    [OverflowError] on an infinity. *)
Definition int_of_float (x : float) : result Z :=
  match Prim2SF x with
  | S754_zero _ => Ok 0
  | S754_finite s m e =>
      let a := match e with
               | Z0 => Zpos m
               | Zpos p => Zpos m * 2 ^ Zpos p
               | Zneg p => Zpos m / 2 ^ Zpos p
               end in
      Ok (if s then - a else a)
  | S754_infinity _ => Raise OverflowError
  | S754_nan => Raise ValueError
  end.

(** [z * x] for an [int] [z] and a [float] [x]. *)
Definition int_mul_float (z : Z) (x : float) : result float :=
  bind (float_of_int z) (fun fz => Ok (fz * x)%float).

(** [x / z] for a [float] [x] and a non-zero [int] [z]. *)
Definition float_div_int (x : float) (z : Z) : result float :=
  bind (float_of_int z) (fun fz => Ok (x / fz)%float).

End Py.

Import Py.

(* ================================================================== *)
(** ** The emitted SystemVerilog: syntax, printer, semantics           *)
(* ================================================================== *)

Module SV.

(** *** Expressions *)

Inductive radix : Type := Hex | Dec | Bin.

Definition radix_base (r : radix) : Z :=
  match r with Hex => 16 | Dec => 10 | Bin => 2 end.

Definition radix_char (r : radix) : string :=
  match r with Hex => "h" | Dec => "d" | Bin => "b" end.

(** [ELit w r pad v] is the sized literal [w'r<digits of v>], its digits
    zero-filled to [pad] characters; [ENum v] is an unsized decimal. *)
Inductive expr : Type :=
| EVar (x : string)
| ELit (w : Z) (r : radix) (pad : nat) (v : Z)
| ENum (v : Z)
| ESlice (x : string) (hi lo : Z)
| ENot (a : expr)
| EAdd (a b : expr)
| ESub (a b : expr)
| EGt (a b : expr)
| EEq (a b : expr)
| EAnd (a b : expr)
| EOr (a b : expr).

Definition paren (b : bool) (s : string) : string :=
  if b then "(" +s+ s +s+ ")" else s.

(** Printer with the operator precedences of SystemVerilog ([!] binds
    tightest, then [+ -], [>], [==], [&&], [||]); [ctx] is the level of the
    enclosing operator. *)
Fixpoint pe (ctx : nat) (e : expr) : string :=
  let bin (lvl : nat) (op : string) (a b : expr) :=
      paren (Nat.ltb lvl ctx) (pe lvl a +s+ op +s+ pe (S lvl) b) in
  match e with
  | EVar x => x
  | ELit w r pad v =>
      decimal w +s+ "'" +s+ radix_char r +s+ format_int (radix_base r) pad v
  | ENum v => decimal v
  | ESlice x hi lo => x +s+ "[" +s+ decimal hi +s+ ":" +s+ decimal lo +s+ "]"
  | ENot a => "!" +s+ pe 6 a
  | EAdd a b => bin 5%nat " + " a b
  | ESub a b => bin 5%nat " - " a b
  | EGt a b => bin 4%nat " > " a b
  | EEq a b => bin 3%nat " == " a b
  | EAnd a b => bin 2%nat " && " a b
  | EOr a b => bin 1%nat " || " a b
  end.

(** A valuation of the signals.  Two-state: every signal has a value. *)
Definition env : Type := string -> Z.

Definition upd (x : string) (v : Z) (rho : env) : env :=
  fun y => if String.eqb x y then v else rho y.

Definition truth (z : Z) : bool := negb (z =? 0).
Definition of_bool (b : bool) : Z := if b then 1 else 0.

(** Values are unsigned integers; the truncation to the width of the
    target happens at the assignment. *)
Fixpoint eval (rho : env) (e : expr) : Z :=
  match e with
  | EVar x => rho x
  | ELit w _ _ v => v mod 2 ^ w
  | ENum v => v
  | ESlice x hi lo => (rho x / 2 ^ lo) mod 2 ^ (hi - lo + 1)
  | ENot a => of_bool (negb (truth (eval rho a)))
  | EAdd a b => eval rho a + eval rho b
  | ESub a b => eval rho a - eval rho b
  | EGt a b => of_bool (eval rho b <? eval rho a)
  | EEq a b => of_bool (eval rho a =? eval rho b)
  | EAnd a b => of_bool (truth (eval rho a) && truth (eval rho b))
  | EOr a b => of_bool (truth (eval rho a) || truth (eval rho b))
  end.

(** *** Statements of an [always_ff] body *)

(** [SText] is a comment or a blank line; [SAssign x e trail] is the
    non-blocking [x <= e;] followed by [trail] (a trailing comment). *)
Inductive stmt : Type :=
| SSkip
| SText (t : string)
| SAssign (x : string) (e : expr) (trail : string)
| SSeq (a b : stmt)
| SIf (c : expr) (t e : stmt).

Fixpoint indent (n : nat) : string :=
  match n with
  | O => ""
  | S k => "    " +s+ indent k
  end.

Definition else_block (els : bool) (ind : nat) (body : list string)
  : list string :=
  if els
  then (indent ind +s+ "end else begin") :: body ++ [indent ind +s+ "end"]
  else body.

(** [pp false ind s] prints [s] at indentation [ind]; [pp true ind s]
    prints [s] as the else part of an [if] opened at indentation [ind],
    closing that [if]. *)
Fixpoint pp (els : bool) (ind : nat) (s : stmt) : list string :=
  let inner := if els then S ind else ind in
  match s with
  | SSkip => if els then [indent ind +s+ "end"] else []
  | SText t => else_block els ind [indent inner +s+ t]
  | SAssign x e trail =>
      else_block els ind [indent inner +s+ x +s+ " <= " +s+ pe 0 e +s+ ";" +s+ trail]
  | SSeq a b => else_block els ind (pp false inner a ++ pp false inner b)
  | SIf c t e =>
      ((indent ind +s+ (if els then "end else if (" else "if (")
          +s+ pe 0 c +s+ ") begin")
         :: pp false (S ind) t)
        ++ pp true ind e
  end.

(** One clock edge of a body: every right-hand side reads the valuation
    [cur] before the edge, the assignments build [nxt]; a later assignment
    to the same signal wins.  [W] gives the declared widths. *)
Fixpoint exec (W : string -> Z) (s : stmt) (cur nxt : env) : env :=
  match s with
  | SSkip => nxt
  | SText _ => nxt
  | SAssign x e _ => upd x (eval cur e mod 2 ^ W x) nxt
  | SSeq a b => exec W b cur (exec W a cur nxt)
  | SIf c t e =>
      if truth (eval cur c) then exec W t cur nxt else exec W e cur nxt
  end.

(** *** Module items *)

(** Right-hand side of a read-case entry: a signal; a sized hexadecimal
    literal, given by its width and the characters that follow ['h]; or
    a concatenation, whose text this model does not interpret. *)
Inductive rhs : Type :=
| RSig (x : string)
| RHex (w : Z) (digits : string)
| ROpaque (text : string).

Inductive case_entry : Type :=
| CText (t : string)
| CItem (label : Z) (r : rhs) (trail : string).

Inductive item : Type :=
| IText (t : string)
| IDecl (w : Z) (x : string) (init : expr)
| IAlwaysFF (body : stmt)
| IAssign (x : string) (e : expr)
| IReadCase (entries : list case_entry).

Definition print_rhs (r : rhs) : string :=
  match r with
  | RSig x => x
  | RHex w ds => decimal w +s+ "'h" +s+ ds
  | ROpaque t => t
  end.

Definition print_entry (c : case_entry) : string :=
  match c with
  | CText t => t
  | CItem label r trail =>
      indent 3 +s+ "32'h" +s+ format_08X label +s+ ": bar_rd_data = "
        +s+ print_rhs r +s+ ";" +s+ trail
  end.

Definition print_item (i : item) : list string :=
  match i with
  | IText t => [t]
  | IDecl w x init =>
      [indent 1 +s+ "logic "
         +s+ (if w =? 1 then "" else "[" +s+ decimal (w - 1) +s+ ":0] ")
         +s+ x +s+ " = " +s+ pe 0 init +s+ ";"]
  | IAlwaysFF body =>
      (indent 1 +s+ "always_ff @(posedge clk or negedge reset_n) begin")
        :: pp false 2 body ++ [indent 1 +s+ "end"]
  | IAssign x e => [indent 1 +s+ "assign " +s+ x +s+ " = " +s+ pe 0 e +s+ ";"]
  | IReadCase entries =>
      [ indent 1 +s+ "always_comb begin";
        indent 2 +s+ "bar_rd_data = 32'h0;";
        indent 2;
        indent 2 +s+ "unique case(bar_addr)" ]
        ++ map print_entry entries
        ++ [ indent 3 +s+ "default: bar_rd_data = 32'h0;";
             indent 2 +s+ "endcase";
             indent 1 +s+ "end" ]
  end.

Definition print_items (items : list item) : list string :=
  List.concat (map print_item items).

(** Declared width of a signal (32 when the fragment does not declare it). *)
Fixpoint width_of (items : list item) (x : string) : Z :=
  match items with
  | IDecl w y _ :: rest => if String.eqb y x then w else width_of rest x
  | _ :: rest => width_of rest x
  | [] => 32
  end.

Fixpoint declared (items : list item) (x : string) : bool :=
  match items with
  | IDecl _ y _ :: rest => String.eqb y x || declared rest x
  | _ :: rest => declared rest x
  | [] => false
  end.

(** The valuation given by the initialisers of the declarations. *)
Fixpoint init_state (items : list item) (rho : env) : env :=
  match items with
  | IDecl w x init :: rest =>
      init_state rest (upd x (eval rho init mod 2 ^ w) rho)
  | _ :: rest => init_state rest rho
  | [] => rho
  end.

(** One clock edge of all the [always_ff] blocks of a fragment. *)
Fixpoint ff_edge (W : string -> Z) (items : list item) (cur nxt : env) : env :=
  match items with
  | IAlwaysFF body :: rest => ff_edge W rest cur (exec W body cur nxt)
  | _ :: rest => ff_edge W rest cur nxt
  | [] => nxt
  end.

(** The valuation seen at an edge: the signals the fragment declares keep
    their stored value [st], all the others are driven from outside
    ([ins]). *)
Definition sample (items : list item) (ins st : env) : env :=
  fun x => if declared items x then st x else ins x.

Definition cycle (items : list item) (ins st : env) : env :=
  let cur := sample items ins st in
  ff_edge (width_of items) items cur cur.

(** [run items ins n st]: the state after the edges [0 .. n-1], the
    outside signals at edge [k] being [ins k]. *)
Fixpoint run (items : list item) (ins : nat -> env) (n : nat) (st : env) : env :=
  match n with
  | O => st
  | S k => cycle items (ins k) (run items ins k st)
  end.

(** *** The read case *)

(** A digit of a hexadecimal literal: [0-9], [a-f], [A-F], or one of the
    unknown and high-impedance digits [x X z Z ?]. *)
Definition hex_digit (c : ascii) : bool :=
  match digit_value c with
  | Some d => d <? 16
  | None => false
  end
  || Ascii.eqb c "x" || Ascii.eqb c "X" || Ascii.eqb c "z"
  || Ascii.eqb c "Z" || Ascii.eqb c "?".

Fixpoint hex_tail (s : string) : bool :=
  match s with
  | String c r => (hex_digit c || is_underscore c) && hex_tail r
  | EmptyString => true
  end.

(** The characters after ['h] form a hexadecimal number: a digit, then
    digits and underscores. *)
Definition hex_number (s : string) : bool :=
  match s with
  | String c r => hex_digit c && hex_tail r
  | EmptyString => false
  end.

(** The value of a hexadecimal number; [None] with an unknown or
    high-impedance digit. *)
Fixpoint hex_value (s : string) (acc : Z) : option Z :=
  match s with
  | String c r =>
      if is_underscore c then hex_value r acc
      else
        match digit_value c with
        | Some d => if d <? 16 then hex_value r (acc * 16 + d) else None
        | None => None
        end
  | EmptyString => Some acc
  end.

Definition rhs_ok (r : rhs) : bool :=
  match r with
  | RSig _ | ROpaque _ => true
  | RHex w ds => (0 <? w) && hex_number ds
  end.

(** A label is printed by [format(_, "08X")]: it is a number when it is
    not negative. *)
Definition entry_ok (c : case_entry) : bool :=
  match c with
  | CText _ => true
  | CItem label r _ => (0 <=? label) && rhs_ok r
  end.

(** The case can be elaborated: every label and every literal in it is a
    number of SystemVerilog. *)
Definition elaborates (entries : list case_entry) : bool :=
  forallb entry_ok entries.

(** The right-hand sides whose label is the address. *)
Fixpoint selected (entries : list case_entry) (rho : env) : list rhs :=
  match entries with
  | CItem label r _ :: rest =>
      if rho "bar_addr" =? label mod 2 ^ 32
      then r :: selected rest rho
      else selected rest rho
  | CText _ :: rest => selected rest rho
  | [] => []
  end.

Definition rhs_value (r : rhs) (rho : env) : option Z :=
  match r with
  | RSig x => Some (rho x mod 2 ^ 32)
  | RHex w ds =>
      match hex_value ds 0 with
      | Some v => Some ((v mod 2 ^ w) mod 2 ^ 32)
      | None => None
      end
  | ROpaque _ => None
  end.

(** The read [unique case]: the value of [bar_rd_data].  A case that
    cannot be elaborated gives no value.  Otherwise the entry whose
    label is the address gives the value, the default branch gives zero
    when there is none, and two entries with the label of the address
    break the [unique] qualifier: no value is defined.  The value of a
    concatenation is not modelled. *)
Definition read_case (entries : list case_entry) (rho : env) : option Z :=
  if elaborates entries then
    match selected entries rho with
    | [] => Some 0
    | [r] => rhs_value r rho
    | _ :: _ :: _ => None
    end
  else None.

(** The value read on [bar_rd_data] from a fragment. *)
Fixpoint read_data (items : list item) (rho : env) : option Z :=
  match items with
  | IReadCase entries :: _ => read_case entries rho
  | _ :: rest => read_data rest rho
  | [] => None
  end.

(** The labels of the entries of a read case, in order. *)
Fixpoint case_labels (entries : list case_entry) : list Z :=
  match entries with
  | CItem label _ _ :: rest => label :: case_labels rest
  | CText _ :: rest => case_labels rest
  | [] => []
  end.

End SV.

Import SV.

(* ================================================================== *)
(** ** The generator: [AdvancedSVGenerator]                            *)
(* ================================================================== *)

Module Gen.

(** Modelled from the spec: the enumerations [DeviceType] (module
    [advanced_sv_perf]) and [DeviceClass] (module
    [manufacturing_variance]) are imported by the source but their modules
    are not at hand; the spec lists their members. *)
Inductive DeviceType : Type :=
| GENERIC
| NETWORK_CONTROLLER
| STORAGE_CONTROLLER
| GRAPHICS_CONTROLLER.

Inductive DeviceClass : Type :=
| CONSUMER
| ENTERPRISE
| INDUSTRIAL
| AUTOMOTIVE.

(** The dataclass [DeviceSpecificLogic]. *)
Record DeviceSpecificLogic : Type := {
  device_type : DeviceType;
  device_class : DeviceClass;
  max_payload_size : Z;
  max_read_request_size : Z;
  msi_vectors : Z;
  msix_vectors : Z;
  enable_dma : bool;
  enable_interrupt_coalescing : bool;
  enable_virtualization : bool;
  enable_sr_iov : bool;
  tx_queue_depth : Z;
  rx_queue_depth : Z;
  command_queue_depth : Z;
  tx_buffer_size_kb : Z;
  rx_buffer_size_kb : Z;
  base_frequency_mhz : float;
  memory_frequency_mhz : float
}.

(** Modelled from the spec: [VarianceModel] (module
    [manufacturing_variance], not at hand) "holds a timing-jitter magnitude
    (nanoseconds) and is otherwise opaque to the core".  The generator reads
    its attribute [register_timing_jitter_ns] and divides it by [10], so
    it is a number; it is taken as a binary64 float (an integer jitter is
    the float of the same value). *)
Record VarianceModel : Type := {
  register_timing_jitter_ns : float
}.

(** A value that is a [str] or an [int], as [reg["offset"]] may be. *)
Inductive str_or_int : Type :=
| PStr (s : string)
| PInt (z : Z).

(** One element of [regs]: a dict with the keys [name], [value] (a string
    given to [int(_, 16)]), [offset] and [rw]. *)
Record Reg : Type := {
  reg_name : string;
  reg_value : string;
  reg_offset : str_or_int;
  reg_rw : string
}.

(** The generator object.  Modelled from the spec: the power, error and
    performance sub-generators (modules [advanced_sv_power],
    [advanced_sv_error], [advanced_sv_perf], not at hand) each "expose one
    operation returning a complete, self-contained text fragment" that the
    core "treats as opaque text"; the three fields below are those texts. *)
Record AdvancedSVGenerator : Type := {
  device_config : DeviceSpecificLogic;
  counter_width_bits : Z;
  power_management : string;
  error_handling : string;
  performance_counters : string
}.

(** *** Effects: exceptions and the global random generator

    [rng] is the sequence of the values that the coming calls of
    [random.random()] return; a computation consumes a prefix of it. *)
Definition rng : Type := nat -> float.

Definition M (A : Type) : Type := rng -> result (A * rng).

Definition ret {A} (a : A) : M A := fun g => Ok (a, g).

Definition bindM {A B} (m : M A) (k : A -> M B) : M B :=
  fun g =>
    match m g with
    | Ok (a, g') => k a g'
    | Raise e => Raise e
    end.

Definition lift {A} (r : result A) : M A :=
  fun g =>
    match r with
    | Ok a => Ok (a, g)
    | Raise e => Raise e
    end.

(** [random.random()]. *)
Definition random : M float := fun g => Ok (g O, fun n => g (S n)).

Notation "x <- m ;; k" := (bindM m (fun x => k))
  (at level 61, m at next level, right associativity).
Notation "x <-- r ;; k" := (Py.bind r (fun x => k))
  (at level 61, r at next level, right associativity).

(** A [for] loop whose body appends lines. *)
Fixpoint for_each {A} (body : A -> M (list string)) (l : list A)
  : M (list string) :=
  match l with
  | [] => ret []
  | x :: rest =>
      ls <- body x ;;
      ls' <- for_each body rest ;;
      ret (ls ++ ls')
  end.

(** *** [generate_module_header] *)

(** The text assigned to [header], line by line.  It is a plain string
    literal: the braces are part of the text. *)
Definition module_header_lines : list string :=
  [ "//==============================================================================";
    "// Advanced PCIe Device Controller with Comprehensive Features";
    "// Generated by AdvancedSVGenerator - Advanced SystemVerilog Generation Feature";
    "//";
    "// Features:";
    "// - Advanced power management (D0-D3, L0-L3 states)";
    "// - Comprehensive error handling and recovery";
    "// - Hardware performance counters";
    "// - Multiple clock domain support";
    "// - Device-specific optimizations ({self.device_config.device_type.value})";
    "// - Manufacturing variance integration";
    "//==============================================================================";
    "";
    "// State machine definitions";
    "`define S_SHADOW_CFGSPACE_IDLE  2'b00";
    "`define S_SHADOW_CFGSPACE_TLP   2'b01";
    "`define S_SHADOW_CFGSPACE_USB   2'b10";
    "";
    "module advanced_pcileech_controller #(";
    "    parameter DEVICE_TYPE = " +s+ dquote +s+ "{self.device_config.device_type.value}" +s+ dquote +s+ ",";
    "    parameter DEVICE_CLASS = " +s+ dquote +s+ "{self.device_config.device_class.value}" +s+ dquote +s+ ",";
    "    parameter MAX_PAYLOAD_SIZE = {self.device_config.max_payload_size},";
    "    parameter MSI_VECTORS = {self.device_config.msi_vectors},";
    "    parameter COUNTER_WIDTH = {self.perf_config.counter_width_bits}";
    ") (";
    "    // Clock and reset";
    "    input logic clk,";
    "    input logic reset_n,";
    "";
    "    // Additional clock domains";
    "    input logic mem_clk,";
    "    input logic aux_clk,";
    "";
    "    // PCIe interface";
    "    input logic [31:0] bar_addr,";
    "    input logic [31:0] bar_wr_data,";
    "    input logic bar_wr_en,";
    "    input logic bar_rd_en,";
    "    output logic [31:0] bar_rd_data,";
    "";
    "    // Power management interface";
    "    input logic [1:0] power_state_req,";
    "    output logic [1:0] power_state_ack,";
    "    input logic [1:0] link_state_req,";
    "    output logic [1:0] link_state_ack,";
    "";
    "    // Interrupt interface";
    "    output logic msi_request,";
    "    input logic msi_ack,";
    "    output logic [7:0] msi_vector,";
    "    input logic cfg_interrupt_msi_enable,";
    "    output logic cfg_interrupt,";
    "    input logic cfg_interrupt_ready,";
    "";
    "    // Error reporting interface";
    "    output logic correctable_error,";
    "    output logic uncorrectable_error,";
    "    output logic [7:0] error_code,";
    "";
    "    // Performance monitoring interface";
    "    output logic [COUNTER_WIDTH-1:0] perf_counter_0,";
    "    output logic [COUNTER_WIDTH-1:0] perf_counter_1,";
    "    output logic [COUNTER_WIDTH-1:0] perf_counter_2,";
    "    output logic [COUNTER_WIDTH-1:0] perf_counter_3,";
    "";
    "    // Device-specific interfaces";
    "    {self._generate_device_specific_ports()}";
    ");" ].

Definition generate_module_header (self : AdvancedSVGenerator) : string :=
  join nl module_header_lines.

(** *** [_generate_device_specific_ports] *)

(** Port blocks of [_generate_device_specific_ports]. *)
Definition network_ports : list string :=
  [ "// Network controller ports";
    "    output logic link_up,";
    "    output logic [1:0] link_speed,";
    "    input logic [7:0] phy_data,";
    "    output logic [7:0] mac_data" ].

(** Storage controller. *)
Definition storage_ports : list string :=
  [ "// Storage controller ports";
    "    output logic storage_ready,";
    "    output logic [7:0] queue_depth,";
    "    input logic [31:0] sector_addr,";
    "    output logic [31:0] data_out" ].

(** Graphics controller. *)
Definition graphics_ports : list string :=
  [ "// Graphics controller ports";
    "    output logic display_active,";
    "    output logic [7:0] gpu_utilization,";
    "    input logic [23:0] pixel_data,";
    "    output logic vsync, hsync" ].

(** Any other device type. *)
Definition generic_ports : list string :=
  [ "// Generic device ports";
    "    output logic device_ready,";
    "    input logic [31:0] generic_input,";
    "    output logic [31:0] generic_output" ].

Definition _generate_device_specific_ports (self : AdvancedSVGenerator)
  : string :=
  match device_type (device_config self) with
  | NETWORK_CONTROLLER => join nl network_ports
  | STORAGE_CONTROLLER => join nl storage_ports
  | GRAPHICS_CONTROLLER => join nl graphics_ports
  | GENERIC => join nl generic_ports
  end.

(** *** [generate_register_logic] *)

(** The lines [generate_register_logic] appends before the declaration loop. *)
Definition register_logic_head : list string :=
  [ "    // Advanced Register Access Logic";
    "    logic [31:0] register_access_timer = 32'h0;";
    "    logic register_write_pending = 1'b0;";
    "";
    "    // Register Declarations" ].

(** The lines appended between the two loops: a blank line and the global
    register access timing block. *)
Definition global_timing_lines : list string :=
  [ "";
    "    // Global register access timing";
    "    always_ff @(posedge clk or negedge reset_n) begin";
    "        if (!reset_n) begin";
    "            register_access_timer <= 32'h0;";
    "            register_write_pending <= 1'b0;";
    "        end else begin";
    "            register_access_timer <= register_access_timer + 1;";
    "            ";
    "            if (bar_wr_en && !register_write_pending) begin";
    "                register_write_pending <= 1'b1;";
    "            end else if (register_write_pending && register_access_timer[3:0] == 4'hF) begin";
    "                register_write_pending <= 1'b0;";
    "            end";
    "        end";
    "    end";
    "" ].

Definition shadow_status : string :=
  "pcileech_tlps128_cfgspace_shadow_status".

(** [variance_factor = 1.0 + (random.random() - 0.5) * 0.01]. *)
Definition variance_factor (r : float) : float :=
  (1.0 + (r - 0.5) * 0.01)%float.

(** [varied_value = int(initial_value * variance_factor) & 0xFFFFFFFF]. *)
Definition varied_value (initial_value : Z) (r : float) : result Z :=
  x <-- int_mul_float initial_value (variance_factor r) ;;
  n <-- int_of_float x ;;
  Ok (Z.land n 0xFFFFFFFF).

(** Body of the first loop: the declarations of one register. *)
Definition declare_register (variance_model : option VarianceModel)
           (reg : Reg) : M (list string) :=
  let name := reg_name reg in
  initial_value <- lift (int_of_str 16 (reg_value reg)) ;;
  first <-
    (if String.eqb name shadow_status then
       ret ["    logic [31:0] " +s+ name +s+ "_reg = 32'h1;"]
     else
       match variance_model with
       | Some _ =>
           r <- random ;;
           varied <- lift (varied_value initial_value r) ;;
           ret ["    logic [31:0] " +s+ name +s+ "_reg = 32'h"
                  +s+ format_08X varied +s+ ";"]
       | None =>
           ret ["    logic [31:0] " +s+ name +s+ "_reg = 32'h"
                  +s+ format_08X initial_value +s+ ";"]
       end) ;;
  ret (first
         ++ [ "    logic " +s+ name +s+ "_access_pending = 1'b0;";
              "    logic [7:0] " +s+ name +s+ "_timing_counter = 8'h0;" ]).

(** [int(reg["offset"], 16) if isinstance(reg["offset"], str) and
    reg["offset"].startswith("0x") else int(reg["offset"])]. *)
Definition parse_offset (reg : Reg) : result Z :=
  match reg_offset reg with
  | PStr s => if startswith s "0x" then int_of_str 16 s else int_of_str 10 s
  | PInt z => Ok z
  end.

(** [base_delay = max(1, int(timing_variance / 10))]. *)
Definition base_delay (variance_model : VarianceModel) : result Z :=
  n <-- int_of_float (register_timing_jitter_ns variance_model / 10)%float ;;
  Ok (Z.max 1 n).

(** Body of the second loop: the write logic of one register.  The
    f-string interpolates [base_delay], an [int] taken from a float, of
    at most 309 digits: its decimal conversion is never refused. *)
Definition write_logic (variance_model : option VarianceModel) (reg : Reg)
  : result (list string) :=
  let name := reg_name reg in
  offset <-- parse_offset reg ;;
  if String.eqb (reg_rw reg) "rw" || String.eqb (reg_rw reg) "wo" then
    reset_value <-- int_of_str 16 (reg_value reg) ;;
    body <--
      match variance_model with
      | Some vm =>
          delay <-- base_delay vm ;;
          Ok [ "            " +s+ name +s+ "_access_pending <= 1'b1;";
               "            " +s+ name +s+ "_timing_counter <= 8'd"
                 +s+ decimal delay +s+ ";";
               "        end else if (" +s+ name +s+ "_access_pending) begin";
               "            if (" +s+ name +s+ "_timing_counter > 0) begin";
               "                " +s+ name +s+ "_timing_counter <= "
                 +s+ name +s+ "_timing_counter - 1;";
               "            end else begin";
               "                " +s+ name +s+ "_reg <= bar_wr_data;";
               "                " +s+ name +s+ "_access_pending <= 1'b0;";
               "            end" ]
      | None =>
          Ok [ "            " +s+ name +s+ "_reg <= bar_wr_data;" ]
      end ;;
    Ok ([ "    // Write logic for " +s+ name;
          "    always_ff @(posedge clk or negedge reset_n) begin";
          "        if (!reset_n) begin";
          "            " +s+ name +s+ "_reg <= 32'h"
            +s+ format_08X reset_value +s+ ";";
          "            " +s+ name +s+ "_timing_counter <= 8'h0;";
          "            " +s+ name +s+ "_access_pending <= 1'b0;";
          "        end else if (bar_wr_en && bar_addr == 32'h"
            +s+ format_08X offset +s+ ") begin" ]
          ++ body
          ++ [ "        end";
               "    end";
               "" ])
  else Ok [].

(** The list [register_logic] at the end of the method. *)
Definition register_logic_lines (regs : list Reg)
           (variance_model : option VarianceModel) : M (list string) :=
  decls <- for_each (declare_register variance_model) regs ;;
  writes <- for_each (fun reg => lift (write_logic variance_model reg)) regs ;;
  ret (register_logic_head ++ decls ++ global_timing_lines ++ writes).

Definition generate_register_logic (regs : list Reg)
           (variance_model : option VarianceModel) : M string :=
  ls <- register_logic_lines regs variance_model ;;
  ret (join nl ls).

(** *** [generate_read_logic] *)

(** The lines [generate_read_logic] appends before its loop: the frame of
    the [case] and the fixed status registers. *)
Definition read_logic_head : list string :=
  [ "    // Main read logic with advanced features";
    "    always_comb begin";
    "        bar_rd_data = 32'h0;";
    "        ";
    "        unique case(bar_addr)";
    "            // Power management registers";
    "            32'h00000000: bar_rd_data = {30'b0, current_power_state};";
    "            32'h00000004: bar_rd_data = {30'b0, current_link_state};";
    "            ";
    "            // Error status registers";
    "            32'h00000008: bar_rd_data = {24'b0, error_status};";
    "            32'h0000000C: bar_rd_data = {24'b0, error_code};";
    "            ";
    "            // Performance counter registers";
    "            32'h00000010: bar_rd_data = perf_counter_0;";
    "            32'h00000014: bar_rd_data = perf_counter_1;";
    "            32'h00000018: bar_rd_data = perf_counter_2;";
    "            32'h0000001C: bar_rd_data = perf_counter_3;";
    "            ";
    "            // Device identification";
    "            32'h00000020: bar_rd_data = 32'hADVANCED;  // Advanced controller signature";
    "            32'h00000024: bar_rd_data = {16'h0, DEVICE_TYPE[15:0]};";
    "            ";
    "            // Advanced status registers";
    "            32'h00000028: bar_rd_data = {24'b0, performance_grade};";
    "            32'h0000002C: bar_rd_data = {29'b0, high_bandwidth_detected, high_latency_detected, high_error_rate_detected};";
    "            " ].

(** The lines appended after the loop. *)
Definition read_logic_tail : list string :=
  [ "            ";
    "            default: bar_rd_data = 32'h0;";
    "        endcase";
    "    end";
    "" ].

(** Body of the loop: the read case of one register. *)
Definition read_entry (reg : Reg) : result string :=
  let name := reg_name reg in
  offset <-- parse_offset reg ;;
  Ok ("            32'h" +s+ format_08X offset +s+ ": bar_rd_data = "
        +s+ name +s+ "_reg;").

Fixpoint read_entries (regs : list Reg) : result (list string) :=
  match regs with
  | [] => Ok []
  | reg :: rest =>
      l <-- read_entry reg ;;
      ls <-- read_entries rest ;;
      Ok (l :: ls)
  end.

(** The list [read_logic] at the end of the method. *)
Definition read_logic_lines (regs : list Reg) : result (list string) :=
  es <-- read_entries regs ;;
  Ok (read_logic_head ++ es ++ read_logic_tail).

Definition generate_read_logic (regs : list Reg) : result string :=
  ls <-- read_logic_lines regs ;;
  Ok (join nl ls).

(** *** [generate_interrupt_logic] *)

(** The lines appended by [generate_interrupt_logic], in order. *)
Definition interrupt_lines : list string :=
  [ "    // Advanced Interrupt Handling";
    "    logic interrupt_pending = 1'b0;";
    "    logic [7:0] interrupt_vector = 8'h0;";
    "    logic [3:0] interrupt_priority = 4'h0;";
    "";
    "    // Interrupt generation logic";
    "    always_ff @(posedge clk or negedge reset_n) begin";
    "        if (!reset_n) begin";
    "            interrupt_pending <= 1'b0;";
    "            interrupt_vector <= 8'h0;";
    "            interrupt_priority <= 4'h0;";
    "        end else begin";
    "            // Priority-based interrupt handling";
    "            if (uncorrectable_error) begin";
    "                interrupt_pending <= 1'b1;";
    "                interrupt_vector <= 8'h02;  // High priority";
    "                interrupt_priority <= 4'hF;";
    "            end else if (correctable_error) begin";
    "                interrupt_pending <= 1'b1;";
    "                interrupt_vector <= 8'h01;  // Medium priority";
    "                interrupt_priority <= 4'h8;";
    "            end else if (bar_wr_en || bar_rd_en) begin";
    "                interrupt_pending <= 1'b1;";
    "                interrupt_vector <= 8'h00;  // Low priority";
    "                interrupt_priority <= 4'h4;";
    "            end else if (msi_ack) begin";
    "                interrupt_pending <= 1'b0;";
    "                interrupt_vector <= 8'h0;";
    "                interrupt_priority <= 4'h0;";
    "            end";
    "        end";
    "    end";
    "";
    "    // Interrupt output assignments";
    "    assign msi_request = interrupt_pending && cfg_interrupt_msi_enable;";
    "    assign msi_vector = interrupt_vector;";
    "    assign cfg_interrupt = interrupt_pending && !cfg_interrupt_msi_enable;";
    "" ].

Definition generate_interrupt_logic (self : AdvancedSVGenerator) : string :=
  join nl interrupt_lines.

(** *** [generate_clock_domain_logic] *)

(** The lines appended by [generate_clock_domain_logic], in order. *)
Definition clock_lines : list string :=
  [ "    // Clock Domain Management";
    "    logic [15:0] clk_monitor_counter = 16'h0;";
    "    logic [15:0] mem_clk_monitor_counter = 16'h0;";
    "    logic [15:0] aux_clk_monitor_counter = 16'h0;";
    "    logic [2:0] clock_domain_status = 3'b111;";
    "    logic mem_clk_valid = 1'b1;";
    "    logic aux_clk_valid = 1'b1;";
    "";
    "    // Clock domain monitoring";
    "    always_ff @(posedge clk or negedge reset_n) begin";
    "        if (!reset_n) begin";
    "            clk_monitor_counter <= 16'h0;";
    "        end else begin";
    "            clk_monitor_counter <= clk_monitor_counter + 1;";
    "        end";
    "    end";
    "";
    "    // Clock domain status";
    "    assign clock_domain_status = {aux_clk_valid, mem_clk_valid, 1'b1};";
    "" ].

Definition generate_clock_domain_logic (self : AdvancedSVGenerator)
           (variance_model : option VarianceModel) : string :=
  join nl clock_lines.

(** *** [generate_advanced_systemverilog] *)

(** The text assigned to [module_content], line by line (a plain string
    literal again; its last line is empty because the literal ends with a
    line feed). *)
Definition module_content_lines : list string :=
  [ "{module_header}";
    "";
    "{power_management}";
    "";
    "{error_handling}";
    "";
    "{performance_counters}";
    "";
    "{clock_domains}";
    "";
    "{interrupt_handling}";
    "";
    "{register_logic}";
    "";
    "{read_logic}";
    "";
    "endmodule";
    "";
    "//==============================================================================";
    "// Advanced Clock Domain Crossing Module";
    "//==============================================================================";
    "module advanced_clock_crossing #(";
    "    parameter DATA_WIDTH = 32,";
    "    parameter SYNC_STAGES = 3";
    ") (";
    "    input logic src_clk,";
    "    input logic dst_clk,";
    "    input logic reset_n,";
    "    input logic [DATA_WIDTH-1:0] src_data,";
    "    input logic src_valid,";
    "    output logic src_ready,";
    "    output logic [DATA_WIDTH-1:0] dst_data,";
    "    output logic dst_valid,";
    "    input logic dst_ready";
    ");";
    "";
    "    // Implementation of advanced clock domain crossing with variance compensation";
    "    logic [SYNC_STAGES-1:0] sync_reg;";
    "    logic [DATA_WIDTH-1:0] data_reg;";
    "    logic valid_reg;";
    "";
    "    // Source domain logic";
    "    always_ff @(posedge src_clk or negedge reset_n) begin";
    "        if (!reset_n) begin";
    "            data_reg <= '0;";
    "            valid_reg <= 1'b0;";
    "        end else if (src_valid && src_ready) begin";
    "            data_reg <= src_data;";
    "            valid_reg <= 1'b1;";
    "        end else if (sync_reg[SYNC_STAGES-1]) begin";
    "            valid_reg <= 1'b0;";
    "        end";
    "    end";
    "";
    "    // Destination domain synchronizer";
    "    always_ff @(posedge dst_clk or negedge reset_n) begin";
    "        if (!reset_n) begin";
    "            sync_reg <= '0;";
    "        end else begin";
    "            sync_reg <= {{sync_reg[SYNC_STAGES-2:0], valid_reg}};";
    "        end";
    "    end";
    "";
    "    assign src_ready = !valid_reg || sync_reg[SYNC_STAGES-1];";
    "    assign dst_data = data_reg;";
    "    assign dst_valid = sync_reg[SYNC_STAGES-1] && dst_ready;";
    "";
    "endmodule";
    "" ].

Definition module_content : string := join nl module_content_lines.

(** The method computes every component, drops each result, and returns
    the string literal [module_content]. *)
Definition generate_advanced_systemverilog (self : AdvancedSVGenerator)
           (regs : list Reg) (variance_model : option VarianceModel)
  : M string :=
  _ <- ret (generate_module_header self) ;;
  _ <- ret (power_management self) ;;
  _ <- ret (error_handling self) ;;
  _ <- ret (performance_counters self) ;;
  _ <- ret (generate_clock_domain_logic self variance_model) ;;
  _ <- ret (generate_interrupt_logic self) ;;
  _ <- generate_register_logic regs variance_model ;;
  _ <- lift (generate_read_logic regs) ;;
  ret module_content.

End Gen.

Import Gen.

(* ================================================================== *)
(** ** The fragments as syntax trees                                   *)
(* ================================================================== *)

Module Tree.

Definition b0 : expr := ELit 1 Bin 1 0.
Definition b1 : expr := ELit 1 Bin 1 1.

(** Signal names derived from a register name. *)
Definition sig_reg (name : string) : string := name +s+ "_reg".
Definition sig_pending (name : string) : string := name +s+ "_access_pending".
Definition sig_counter (name : string) : string := name +s+ "_timing_counter".

(** The global register access timing block. *)
Definition global_timing_block : stmt :=
  SIf (ENot (EVar "reset_n"))
      (SSeq (SAssign "register_access_timer" (ELit 32 Hex 1 0) "")
            (SAssign "register_write_pending" b0 ""))
      (SSeq (SAssign "register_access_timer"
                     (EAdd (EVar "register_access_timer") (ENum 1)) "")
      (SSeq (SText "")
            (SIf (EAnd (EVar "bar_wr_en") (ENot (EVar "register_write_pending")))
                 (SAssign "register_write_pending" b1 "")
                 (SIf (EAnd (EVar "register_write_pending")
                            (EEq (ESlice "register_access_timer" 3 0)
                                 (ELit 4 Hex 1 15)))
                      (SAssign "register_write_pending" b0 "")
                      SSkip)))).

Definition global_decl_items : list item :=
  [ IText "    // Advanced Register Access Logic";
    IDecl 32 "register_access_timer" (ELit 32 Hex 1 0);
    IDecl 1 "register_write_pending" b0;
    IText "";
    IText "    // Register Declarations" ].

Definition global_timing_items : list item :=
  [ IText "";
    IText "    // Global register access timing";
    IAlwaysFF global_timing_block;
    IText "" ].

(** The three declarations of a register, [init] being the initialiser of
    its value. *)
Definition decl_items (name : string) (init : expr) : list item :=
  [ IDecl 32 (sig_reg name) init;
    IDecl 1 (sig_pending name) b0;
    IDecl 8 (sig_counter name) (ELit 8 Hex 1 0) ].

(** The write block of a register; [delay] is [Some base_delay] with a
    variance model and [None] without. *)
Definition write_block (name : string) (reset_value offset : Z)
           (delay : option Z) : stmt :=
  SIf (ENot (EVar "reset_n"))
      (SSeq (SAssign (sig_reg name) (ELit 32 Hex 8 reset_value) "")
      (SSeq (SAssign (sig_counter name) (ELit 8 Hex 1 0) "")
            (SAssign (sig_pending name) b0 "")))
      (SIf (EAnd (EVar "bar_wr_en")
                 (EEq (EVar "bar_addr") (ELit 32 Hex 8 offset)))
           match delay with
           | Some d =>
               SSeq (SAssign (sig_pending name) b1 "")
                    (SAssign (sig_counter name) (ELit 8 Dec 0 d) "")
           | None => SAssign (sig_reg name) (EVar "bar_wr_data") ""
           end
           match delay with
           | Some _ =>
               SIf (EVar (sig_pending name))
                   (SIf (EGt (EVar (sig_counter name)) (ENum 0))
                        (SAssign (sig_counter name)
                                 (ESub (EVar (sig_counter name)) (ENum 1)) "")
                        (SSeq (SAssign (sig_reg name) (EVar "bar_wr_data") "")
                              (SAssign (sig_pending name) b0 "")))
                   SSkip
           | None => SSkip
           end).

Definition write_items (name : string) (reset_value offset : Z)
           (delay : option Z) : list item :=
  [ IText ("    // Write logic for " +s+ name);
    IAlwaysFF (write_block name reset_value offset delay);
    IText "" ].

(** The interrupt fragment. *)
Definition interrupt_block : stmt :=
  SIf (ENot (EVar "reset_n"))
      (SSeq (SAssign "interrupt_pending" b0 "")
      (SSeq (SAssign "interrupt_vector" (ELit 8 Hex 1 0) "")
            (SAssign "interrupt_priority" (ELit 4 Hex 1 0) "")))
      (SSeq (SText "// Priority-based interrupt handling")
      (SIf (EVar "uncorrectable_error")
           (SSeq (SAssign "interrupt_pending" b1 "")
           (SSeq (SAssign "interrupt_vector" (ELit 8 Hex 2 2) "  // High priority")
                 (SAssign "interrupt_priority" (ELit 4 Hex 1 15) "")))
      (SIf (EVar "correctable_error")
           (SSeq (SAssign "interrupt_pending" b1 "")
           (SSeq (SAssign "interrupt_vector" (ELit 8 Hex 2 1) "  // Medium priority")
                 (SAssign "interrupt_priority" (ELit 4 Hex 1 8) "")))
      (SIf (EOr (EVar "bar_wr_en") (EVar "bar_rd_en"))
           (SSeq (SAssign "interrupt_pending" b1 "")
           (SSeq (SAssign "interrupt_vector" (ELit 8 Hex 2 0) "  // Low priority")
                 (SAssign "interrupt_priority" (ELit 4 Hex 1 4) "")))
      (SIf (EVar "msi_ack")
           (SSeq (SAssign "interrupt_pending" b0 "")
           (SSeq (SAssign "interrupt_vector" (ELit 8 Hex 1 0) "")
                 (SAssign "interrupt_priority" (ELit 4 Hex 1 0) "")))
           SSkip))))).

Definition interrupt_items : list item :=
  [ IText "    // Advanced Interrupt Handling";
    IDecl 1 "interrupt_pending" b0;
    IDecl 8 "interrupt_vector" (ELit 8 Hex 1 0);
    IDecl 4 "interrupt_priority" (ELit 4 Hex 1 0);
    IText "";
    IText "    // Interrupt generation logic";
    IAlwaysFF interrupt_block;
    IText "";
    IText "    // Interrupt output assignments";
    IAssign "msi_request"
            (EAnd (EVar "interrupt_pending") (EVar "cfg_interrupt_msi_enable"));
    IAssign "msi_vector" (EVar "interrupt_vector");
    IAssign "cfg_interrupt"
            (EAnd (EVar "interrupt_pending")
                  (ENot (EVar "cfg_interrupt_msi_enable")));
    IText "" ].

(** The fixed status registers of the read case, with the comments and
    blank lines between them. *)
Definition fixed_entries : list case_entry :=
  [ CText "            // Power management registers";
    CItem 0x00 (ROpaque "{30'b0, current_power_state}") "";
    CItem 0x04 (ROpaque "{30'b0, current_link_state}") "";
    CText "            ";
    CText "            // Error status registers";
    CItem 0x08 (ROpaque "{24'b0, error_status}") "";
    CItem 0x0C (ROpaque "{24'b0, error_code}") "";
    CText "            ";
    CText "            // Performance counter registers";
    CItem 0x10 (RSig "perf_counter_0") "";
    CItem 0x14 (RSig "perf_counter_1") "";
    CItem 0x18 (RSig "perf_counter_2") "";
    CItem 0x1C (RSig "perf_counter_3") "";
    CText "            ";
    CText "            // Device identification";
    CItem 0x20 (RHex 32 "ADVANCED") "  // Advanced controller signature";
    CItem 0x24 (ROpaque "{16'h0, DEVICE_TYPE[15:0]}") "";
    CText "            ";
    CText "            // Advanced status registers";
    CItem 0x28 (ROpaque "{24'b0, performance_grade}") "";
    CItem 0x2C (ROpaque "{29'b0, high_bandwidth_detected, high_latency_detected, high_error_rate_detected}") "";
    CText "            " ].

(** The addresses of the fixed status registers, in the order of the
    table. *)
Definition fixed_addresses : list Z :=
  [0x00; 0x04; 0x08; 0x0C; 0x10; 0x14; 0x18; 0x1C; 0x20; 0x24; 0x28; 0x2C].

(** The entry of a register at [offset]. *)
Definition reg_entry (name : string) (offset : Z) : case_entry :=
  CItem offset (RSig (sig_reg name)) "".

(** The read fragment for registers given by name and offset. *)
Definition read_items (regs : list (string * Z)) : list item :=
  [ IText "    // Main read logic with advanced features";
    IReadCase (fixed_entries
                 ++ map (fun r => reg_entry (fst r) (snd r)) regs
                 ++ [CText "            "]);
    IText "" ].

End Tree.

Import Tree.

(* ================================================================== *)
(** ** Inputs used by the examples                                     *)
(* ================================================================== *)

(** The register of the spec's scenario. *)
Definition ctrl : Reg :=
  {| reg_name := "ctrl"; reg_value := "0x00000000";
     reg_offset := PStr "0x00000030"; reg_rw := "rw" |}.

(** A variance model with a jitter of 25 ns. *)
Definition vm25 : VarianceModel := {| register_timing_jitter_ns := 25 |}.

(** A random generator whose every draw is [r]. *)
Definition const_rng (r : float) : rng := fun _ => r.

(* ================================================================== *)
(** ** Notions used in the statements                                  *)
(* ================================================================== *)

(** [reg["rw"] in ["rw", "wo"]]. *)
Definition writable (reg : Reg) : bool :=
  String.eqb (reg_rw reg) "rw" || String.eqb (reg_rw reg) "wo".

(** The registers with their offsets parsed, in order. *)
Fixpoint resolve (regs : list Reg) : result (list (string * Z)) :=
  match regs with
  | [] => Ok []
  | reg :: rest =>
      o <-- parse_offset reg ;;
      rs <-- resolve rest ;;
      Ok ((reg_name reg, o) :: rs)
  end.

(** The delay written into the write block: [base_delay] with a variance
    model, none without. *)
Definition delay_of (variance_model : option VarianceModel)
  : result (option Z) :=
  match variance_model with
  | Some vm => d <-- base_delay vm ;; Ok (Some d)
  | None => Ok None
  end.

(** The fields of a descriptor parse: its value is a hexadecimal literal
    and its offset an integer or an integer literal. *)
Definition well_formed (reg : Reg) : Prop :=
  (exists v, int_of_str 16 (reg_value reg) = Ok v)
  /\ (exists o, parse_offset reg = Ok o).

(** A write strobe to the address [o]: the condition of the second branch
    of a write block. *)
Definition strobe (o : Z) (rho : env) : bool :=
  truth (rho "bar_wr_en") && (rho "bar_addr" =? o mod 2 ^ 32).

(** The fragment of one register: its declarations and its write block. *)
Definition reg_fragment (name : string) (init : expr) (reset_value offset : Z)
           (delay : option Z) : list item :=
  decl_items name init ++ write_items name reset_value offset delay.

(** Along the trace [ins] from [st], the signal [x] keeps its value until
    edge [n], and edge [n] stores the write data of that cycle. *)
Definition commits_at (items : list item) (ins : nat -> env) (st : env)
           (x : string) (n : nat) : Prop :=
  (forall k, (k <= n)%nat -> run items ins k st x = st x)
  /\ run items ins (S n) st x = ins n "bar_wr_data" mod 2 ^ 32.

(** [sub in text]. *)
Fixpoint contains (text sub : string) : bool :=
  String.prefix sub text
  || match text with
     | String _ rest => contains rest sub
     | EmptyString => false
     end.

(** [text.split("\n")]. *)
Fixpoint lines_from (cur : string) (text : string) : list string :=
  match text with
  | EmptyString => [cur]
  | String c rest =>
      if Ascii.eqb c (ascii_of_nat 10) then cur :: lines_from "" rest
      else lines_from (cur +s+ String c "") rest
  end.

Definition lines_of (text : string) : list string := lines_from "" text.

Fixpoint lstrip_blanks (s : string) : string :=
  match s with
  | String c r => if Ascii.eqb c " " then lstrip_blanks r else s
  | EmptyString => s
  end.

(** The lines of a text that are entries of the address decode: a sized
    hexadecimal label followed by an assignment of [bar_rd_data]. *)
Definition is_decode_entry (line : string) : bool :=
  String.prefix "32'h" (lstrip_blanks line)
  && contains line ": bar_rd_data = ".

Definition decode_entries (text : string) : list string :=
  filter is_decode_entry (lines_of text).

(** [s] ends with [suf]. *)
Fixpoint ends_with (suf s : string) : bool :=
  String.eqb s suf
  || match s with
     | String _ r => ends_with suf r
     | EmptyString => false
     end.

(** The dataclass defaults, and a generator whose sub-generators return
    empty fragments. *)
Definition default_device_config : DeviceSpecificLogic :=
  {| device_type := GENERIC;
     device_class := CONSUMER;
     max_payload_size := 256;
     max_read_request_size := 512;
     msi_vectors := 1;
     msix_vectors := 0;
     enable_dma := false;
     enable_interrupt_coalescing := false;
     enable_virtualization := false;
     enable_sr_iov := false;
     tx_queue_depth := 256;
     rx_queue_depth := 256;
     command_queue_depth := 64;
     tx_buffer_size_kb := 64;
     rx_buffer_size_kb := 64;
     base_frequency_mhz := 100;
     memory_frequency_mhz := 200 |}.

Definition default_generator : AdvancedSVGenerator :=
  {| device_config := default_device_config;
     counter_width_bits := 32;
     power_management := "";
     error_handling := "";
     performance_counters := "" |}.

(** No reset and no strobe to the address [o] at the edges [0 .. n]. *)
Definition quiet (o : Z) (ins : nat -> env) (n : nat) : Prop :=
  forall k, (k <= n)%nat ->
            truth (ins k "reset_n") = true /\ strobe o (ins k) = false.

(** The bus at an edge: reset released, the given write enable, address
    and write data; every other signal is zero. *)
Definition bus (wr_en addr data : Z) : env :=
  fun x =>
    if String.eqb x "reset_n" then 1
    else if String.eqb x "bar_wr_en" then wr_en
    else if String.eqb x "bar_addr" then addr
    else if String.eqb x "bar_wr_data" then data
    else 0.

(** A single write: the strobe at edge [0] only, address and data held on
    the bus afterwards. *)
Definition single_write (addr data : Z) : nat -> env :=
  fun k => bus (if Nat.eqb k 0 then 1 else 0) addr data.

(** The valuation with every signal at zero. *)
Definition all_zero : env := fun _ => 0.

(** The fragment of [ctrl] with a delay of two cycles. *)
Definition ctrl_delayed : list item :=
  reg_fragment "ctrl" (ELit 32 Hex 8 0) 0 0x30 (Some 2).

(** The same bus with another value on [bar_wr_data]. *)
Definition with_data (data : Z) (rho : env) : env :=
  fun x => if String.eqb x "bar_wr_data" then data else rho x.

(** A write whose data changes after the strobe: [d0] on the bus at the
    strobe edge, [d1] afterwards. *)
Definition changing_write (addr d0 d1 : Z) : nat -> env :=
  fun k => if Nat.eqb k 0 then bus 1 addr d0 else bus 0 addr d1.

(** An edge of the interrupt logic: reset released and the given
    uncorrectable-error, correctable-error, write-enable, read-enable and
    acknowledge inputs. *)
Definition irq_inputs (unc cor wr rd ack : Z) : env :=
  fun x =>
    if String.eqb x "reset_n" then 1
    else if String.eqb x "uncorrectable_error" then unc
    else if String.eqb x "correctable_error" then cor
    else if String.eqb x "bar_wr_en" then wr
    else if String.eqb x "bar_rd_en" then rd
    else if String.eqb x "msi_ack" then ack
    else 0.

(** A pending low-priority interrupt. *)
Definition irq_pending_low : env :=
  fun x =>
    if String.eqb x "interrupt_pending" then 1
    else if String.eqb x "interrupt_priority" then 4
    else 0.

(** The global part of the register logic: the access timer, the
    write-pending indicator and their block. *)
Definition timing_fragment : list item :=
  global_decl_items ++ global_timing_items.

(** After the asserting edge [0] the indicator is high for exactly [len]
    cycles: high after the edges [0 .. len-1], low after edge [len]. *)
Definition high_exactly (ins : nat -> env) (st : env) (len : nat) : Prop :=
  (forall k, (1 <= k <= len)%nat ->
             run timing_fragment ins k st "register_write_pending" = 1)
  /\ run timing_fragment ins (S len) st "register_write_pending" = 0.

(** No write until edge 14, the write enable held from then on. *)
Definition late_strobe : nat -> env :=
  fun k => bus (if Nat.leb 14 k then 1 else 0) 0x30 0.

(** The register logic and the read logic generated for [ctrl] alone,
    without a variance model. *)
Definition ctrl_register_items : list item :=
  global_decl_items
    ++ decl_items "ctrl" (ELit 32 Hex 8 0)
    ++ global_timing_items
    ++ write_items "ctrl" 0 0x30 None.

Definition ctrl_read_items : list item := read_items [("ctrl", 0x30)].

(** What a run returns, the state of the random generator dropped. *)
Definition outcome {A} (r : result (A * rng)) : result A :=
  match r with
  | Ok (a, _) => Ok a
  | Raise e => Raise e
  end.

(** A computation that neither reads nor advances the random generator. *)
Definition det {A} (m : M A) : Prop :=
  exists r : result A, forall g, m g = lift r g.

(** The emitted constant is within 0.5% of the configured value. *)
Definition within_half_percent (configured emitted : Z) : Prop :=
  200 * Z.abs (emitted - configured) <= Z.abs configured.

(** Registers used in the examples. *)
Definition reg_one : Reg :=
  {| reg_name := "scratch"; reg_value := "0x00000001";
     reg_offset := PStr "0x00000040"; reg_rw := "rw" |}.

Definition reg_max : Reg :=
  {| reg_name := "mask"; reg_value := "0xFFFFFFFF";
     reg_offset := PStr "0x00000044"; reg_rw := "rw" |}.

Definition shadow_reg : Reg :=
  {| reg_name := shadow_status; reg_value := "0x00000000";
     reg_offset := PStr "0x00000048"; reg_rw := "ro" |}.

(** A second register at the offset of [ctrl], and one on the fixed
    power-state address. *)
Definition ctrl_twin : Reg :=
  {| reg_name := "ctrl2"; reg_value := "0x00000000";
     reg_offset := PStr "0x00000030"; reg_rw := "rw" |}.

Definition low_reg : Reg :=
  {| reg_name := "low"; reg_value := "0x00000000";
     reg_offset := PInt 0; reg_rw := "ro" |}.

(** *** Real values of binary64 floats

    The arithmetic on reset values is done on binary64 floats; its
    results are bounded through their values as real numbers. *)

(** [2^e] as a real number. *)
Definition bpow (e : Z) : R := powerRZ 2 e.

(** The real value of a finite float, 0 for a zero (and for an infinity
    and NaN, which [finite_SF] excludes). *)
Definition SF2R (x : spec_float) : R :=
  match x with
  | S754_finite s m e =>
      ((if s then - IZR (Zpos m) else IZR (Zpos m)) * bpow e)%R
  | _ => 0%R
  end.

Definition finite_SF (x : spec_float) : bool :=
  match x with
  | S754_finite _ _ _ | S754_zero _ => true
  | _ => false
  end.

Definition F2R (x : float) : R := SF2R (Prim2SF x).

Definition finite (x : float) : bool := finite_SF (Prim2SF x).

(** [|a| <= b]. *)
Definition abs_le (a b : R) : Prop := (- b <= a <= b)%R.

Definition sgn (s : bool) : R := if s then (-1)%R else 1%R.

(** The error allowed on a correctly rounded result of magnitude at most
    [B]: three units in the last place, or three times the smallest
    subnormal. *)
Definition err (B : R) : R := (3 * (B * bpow (-52) + bpow (-1074)))%R.

(** What [binary_round_aux] returns for a rounded mantissa [m] and
    exponent [e] below the overflow threshold. *)
Definition of_shr (sx : bool) (m e : Z) : spec_float :=
  match m with
  | Z0 => S754_zero sx
  | Zpos p => S754_finite sx p e
  | Zneg _ => S754_nan
  end.

(** *** The register logic as a syntax tree

    [generate_register_logic] once more, building items instead of lines:
    the same parses, in the same order, the same random draws. *)

(** The initialiser of the value of a register, as chosen by the first
    loop of [generate_register_logic]. *)
Definition init_of (variance_model : option VarianceModel) (reg : Reg)
  : M expr :=
  initial_value <- lift (int_of_str 16 (reg_value reg)) ;;
  if String.eqb (reg_name reg) shadow_status then ret (ELit 32 Hex 1 1)
  else
    match variance_model with
    | Some _ =>
        r <- random ;;
        varied <- lift (varied_value initial_value r) ;;
        ret (ELit 32 Hex 8 varied)
    | None => ret (ELit 32 Hex 8 initial_value)
    end.

Definition declare_tree (variance_model : option VarianceModel) (reg : Reg)
  : M (list item) :=
  init <- init_of variance_model reg ;;
  ret (decl_items (reg_name reg) init).

(** The write block of a register, as built by the second loop; nothing
    for a register that is not writable. *)
Definition write_tree (variance_model : option VarianceModel) (reg : Reg)
  : result (list item) :=
  offset <-- parse_offset reg ;;
  if writable reg then
    reset_value <-- int_of_str 16 (reg_value reg) ;;
    delay <-- delay_of variance_model ;;
    Ok (write_items (reg_name reg) reset_value offset delay)
  else Ok [].

Fixpoint for_each_item {A} (body : A -> M (list item)) (l : list A)
  : M (list item) :=
  match l with
  | [] => ret []
  | x :: rest =>
      xs <- body x ;;
      xs' <- for_each_item body rest ;;
      ret (xs ++ xs')
  end.

Definition register_tree (regs : list Reg)
           (variance_model : option VarianceModel) : M (list item) :=
  decls <- for_each_item (declare_tree variance_model) regs ;;
  writes <- for_each_item (fun reg => lift (write_tree variance_model reg))
                          regs ;;
  ret (global_decl_items ++ decls ++ global_timing_items ++ writes).

(** One register of a generated design: its name, the initialiser of its
    declaration, its reset value, its offset, and whether it has a write
    block. *)
Record slot : Type := {
  slot_name : string;
  slot_init : expr;
  slot_reset : Z;
  slot_offset : Z;
  slot_writable : bool
}.

Definition slot_decls (s : slot) : list item :=
  decl_items (slot_name s) (slot_init s).

Definition slot_writes (delay : option Z) (s : slot) : list item :=
  if slot_writable s
  then write_items (slot_name s) (slot_reset s) (slot_offset s) delay
  else [].

(** The register logic of a list of registers. *)
Definition design (slots : list slot) (delay : option Z) : list item :=
  global_decl_items
    ++ flat_map slot_decls slots
    ++ global_timing_items
    ++ flat_map (slot_writes delay) slots.

(** The read logic generated along with it. *)
Definition design_reads (slots : list slot) : list item :=
  read_items (map (fun s => (slot_name s, slot_offset s)) slots).

(** The slot [s] stands for the descriptor [reg] in the logic generated
    with the variance model [vmo]: the fields of [reg] parse to those of
    [s], and the initialiser is the literal 1 for the shadow-status
    register, the reset value without a variance model, and some 32-bit
    value with one. *)
Definition describes (vmo : option VarianceModel) (reg : Reg) (s : slot)
  : Prop :=
  slot_name s = reg_name reg
  /\ int_of_str 16 (reg_value reg) = Ok (slot_reset s)
  /\ parse_offset reg = Ok (slot_offset s)
  /\ slot_writable s = writable reg
  /\ (if String.eqb (reg_name reg) shadow_status
      then slot_init s = ELit 32 Hex 1 1
      else match vmo with
           | None => slot_init s = ELit 32 Hex 8 (slot_reset s)
           | Some _ => exists n, 0 <= n < 2 ^ 32
                                 /\ slot_init s = ELit 32 Hex 8 n
           end).

(** The texts of the descriptor are ASCII: every character of its value,
    and of its offset when that is a string, is below 128. *)
Definition ascii_text (s : string) : bool :=
  forallb (fun c => Nat.ltb (nat_of_ascii c) 128) (list_ascii_of_string s).

Definition ascii_descriptor (reg : Reg) : bool :=
  ascii_text (reg_value reg)
  && match reg_offset reg with
     | PStr s => ascii_text s
     | PInt _ => true
     end.

(** The three signals of the register [name]. *)
Definition owns (name x : string) : Prop :=
  x = sig_reg name \/ x = sig_pending name \/ x = sig_counter name.

(** The endings of the names of these signals. *)
Definition suffixes : list string :=
  ["_reg"; "_access_pending"; "_timing_counter"].

(** *** Signals read and assigned *)

Fixpoint expr_vars (e : expr) : list string :=
  match e with
  | EVar x => [x]
  | ELit _ _ _ _ | ENum _ => []
  | ESlice x _ _ => [x]
  | ENot a => expr_vars a
  | EAdd a b | ESub a b | EGt a b | EEq a b | EAnd a b | EOr a b =>
      expr_vars a ++ expr_vars b
  end.

(** The signals whose value before the edge a body looks at. *)
Fixpoint reads (s : stmt) : list string :=
  match s with
  | SSkip | SText _ => []
  | SAssign _ e _ => expr_vars e
  | SSeq a b => reads a ++ reads b
  | SIf c t e => expr_vars c ++ reads t ++ reads e
  end.

(** The signals a body can assign. *)
Fixpoint assigned (s : stmt) : list string :=
  match s with
  | SSkip | SText _ => []
  | SAssign x _ _ => [x]
  | SSeq a b => assigned a ++ assigned b
  | SIf _ t e => assigned t ++ assigned e
  end.

(** The number of draws of the random generator that the declarations
    of [regs] make under a variance model. *)
Definition draws (regs : list Reg) : nat :=
  List.length
    (filter (fun reg => negb (String.eqb (reg_name reg) shadow_status)) regs).

(** The lines of a computed tree. *)
Definition printed (r : result (list item * rng))
  : result (list string * rng) :=
  match r with
  | Ok (items, g) => Ok (print_items items, g)
  | Raise e => Raise e
  end.

(** The names of a list are pairwise different. *)
Fixpoint distinct (l : list string) : bool :=
  match l with
  | [] => true
  | x :: rest => negb (existsb (String.eqb x) rest) && distinct rest
  end.

(** *** Further inputs used by the examples *)

(** A generator whose first draw is 0.25 and whose later draws are 0.75. *)
Definition two_draws : rng :=
  fun k => if Nat.eqb k 0 then 0.25%float else 0.75%float.

(** The slots of [ctrl], [shadow_reg], [reg_max] and [low_reg], with the
    initialisers given without a variance model. *)
Definition ctrl_slot : slot :=
  {| slot_name := "ctrl"; slot_init := ELit 32 Hex 8 0; slot_reset := 0;
     slot_offset := 0x30; slot_writable := true |}.

Definition shadow_slot : slot :=
  {| slot_name := shadow_status; slot_init := ELit 32 Hex 1 1;
     slot_reset := 0; slot_offset := 0x48; slot_writable := false |}.

Definition mask_slot (init : Z) : slot :=
  {| slot_name := "mask"; slot_init := ELit 32 Hex 8 init;
     slot_reset := 0xFFFFFFFF; slot_offset := 0x44;
     slot_writable := true |}.

Definition low_slot : slot :=
  {| slot_name := "low"; slot_init := ELit 32 Hex 8 0; slot_reset := 0;
     slot_offset := 0; slot_writable := false |}.

(** *** The clock-domain fragment *)

Definition clock_block : stmt :=
  SIf (ENot (EVar "reset_n"))
      (SAssign "clk_monitor_counter" (ELit 16 Hex 1 0) "")
      (SAssign "clk_monitor_counter"
               (EAdd (EVar "clk_monitor_counter") (ENum 1)) "").

(** The tree of [generate_clock_domain_logic].  The continuous assignment
    of [clock_domain_status] is a concatenation, which the expressions of
    this model do not have: it is kept as text, and nothing is stated
    about that signal. *)
Definition clock_items : list item :=
  [ IText "    // Clock Domain Management";
    IDecl 16 "clk_monitor_counter" (ELit 16 Hex 1 0);
    IDecl 16 "mem_clk_monitor_counter" (ELit 16 Hex 1 0);
    IDecl 16 "aux_clk_monitor_counter" (ELit 16 Hex 1 0);
    IDecl 3 "clock_domain_status" (ELit 3 Bin 3 7);
    IDecl 1 "mem_clk_valid" b1;
    IDecl 1 "aux_clk_valid" b1;
    IText "";
    IText "    // Clock domain monitoring";
    IAlwaysFF clock_block;
    IText "";
    IText "    // Clock domain status";
    IText "    assign clock_domain_status = {aux_clk_valid, mem_clk_valid, 1'b1};";
    IText "" ].

(** *** Continuous assignments *)

(** The expression that drives [x], when the fragment has a continuous
    assignment to [x]. *)
Fixpoint assign_of (items : list item) (x : string) : option expr :=
  match items with
  | IAssign y e :: rest => if String.eqb y x then Some e else assign_of rest x
  | _ :: rest => assign_of rest x
  | [] => None
  end.

(** The value of the wire [x] under the valuation [rho]. *)
Definition wire (items : list item) (rho : env) (x : string) : option Z :=
  match assign_of items x with
  | Some e => Some (eval rho e)
  | None => None
  end.

(** The states of the interrupt logic: idle, and pending at one of the
    three levels (pending flag, vector, priority). *)
Definition irq_states : list (Z * Z * Z) :=
  [ (0, 0, 0); (1, 2, 15); (1, 1, 8); (1, 0, 4) ].

Definition irq_state (st : env) : Z * Z * Z :=
  (st "interrupt_pending", st "interrupt_vector", st "interrupt_priority").

(** One of the inputs that the interrupt logic reacts to is active: reset,
    an error, a bus access or the acknowledgment. *)
Definition irq_event (ins : env) : bool :=
  negb (truth (ins "reset_n"))
  || truth (ins "uncorrectable_error") || truth (ins "correctable_error")
  || truth (ins "bar_wr_en") || truth (ins "bar_rd_en")
  || truth (ins "msi_ack").

(* ================================================================== *)
(** ** Sanity checks of the runtime model                              *)
(* ================================================================== *)

Example int16_0x30 : int_of_str 16 "0x30" = Ok 48. Proof. reflexivity. Qed.
Example int16_DEAD : int_of_str 16 "dead_BEEF " = Ok 3735928559. Proof. reflexivity. Qed.
Example int16_bad : int_of_str 16 "0x" = Raise ValueError. Proof. reflexivity. Qed.
Example int16_bad2 : int_of_str 16 "1__0" = Raise ValueError. Proof. reflexivity. Qed.
Example int16_neg : int_of_str 16 " -0X_1f" = Ok (-31). Proof. reflexivity. Qed.
Example int10_bad : int_of_str 10 "0x30" = Raise ValueError. Proof. reflexivity. Qed.
Example fmt1 : format_08X 48 = "00000030". Proof. reflexivity. Qed.
Example fmt2 : format_08X (-48) = "-0000030". Proof. reflexivity. Qed.
Example fmt3 : format_08X 3735928559 = "DEADBEEF". Proof. reflexivity. Qed.
Example fmt4 : format_08X 0 = "00000000". Proof. reflexivity. Qed.
Example fmt5 : format_08X (2^32+5) = "100000005". Proof. reflexivity. Qed.
Example str1 : str 0 = Ok "0". Proof. reflexivity. Qed.
Example str2 : str 256 = Ok "256". Proof. reflexivity. Qed.
Example str3 : str (-7) = Ok "-7". Proof. reflexivity. Qed.
Example int16_fs :
  int_of_str 16 (String (ascii_of_nat 28) "30") = Raise ValueError.
Proof. reflexivity. Qed.
Example int16_tab :
  int_of_str 16 (String (ascii_of_nat 9) "30") = Ok 48.
Proof. reflexivity. Qed.
Example case_signal :
  read_case [ CItem 0x20 (RHex 32 "AD5A_CED0") "";
              CItem 0x30 (RSig "ctrl_reg") "" ]
            (upd "ctrl_reg" 7 (bus 0 0x30 0)) = Some 7.
Proof. reflexivity. Qed.
Example case_literal :
  read_case [ CItem 0x20 (RHex 32 "AD5A_CED0") "";
              CItem 0x30 (RSig "ctrl_reg") "" ]
            (bus 0 0x20 0) = Some 0xAD5ACED0.
Proof. reflexivity. Qed.
Example case_default :
  read_case [ CItem 0x30 (RSig "ctrl_reg") "" ] (bus 0 0x34 0) = Some 0.
Proof. reflexivity. Qed.
Example case_not_unique :
  read_case [ CItem 0x30 (RSig "ctrl_reg") "";
              CItem 0x30 (RSig "ctrl2_reg") "" ]
            (bus 0 0x30 0) = None.
Proof. reflexivity. Qed.
Example case_not_a_number :
  read_case [ CItem 0x20 (RHex 32 "ADVANCED") "";
              CItem 0x30 (RSig "ctrl_reg") "" ]
            (bus 0 0x30 0) = None.
Proof. reflexivity. Qed.
Example int_float_trunc : int_of_float 2.5%float = Ok 2. Proof. reflexivity. Qed.
Example int_float_neg : int_of_float (-2.5)%float = Ok (-2). Proof. reflexivity. Qed.
Example int_float_inf : int_of_float infinity = Raise OverflowError. Proof. reflexivity. Qed.
Example int_float_nan : int_of_float nan = Raise ValueError. Proof. reflexivity. Qed.
Example float_int_big : float_of_int (2 ^ 1024) = Raise OverflowError. Proof. reflexivity. Qed.
Example float_int_even : float_of_int (2 ^ 53 + 1) = Ok 9007199254740992%float. Proof. reflexivity. Qed.
Example factor_low : variance_factor 0 = 0.995%float. Proof. reflexivity. Qed.
Example factor_mid : variance_factor 0.5 = 1%float. Proof. reflexivity. Qed.
Example delay_25 : base_delay vm25 = Ok 2. Proof. reflexivity. Qed.
Example delay_0 : base_delay {| register_timing_jitter_ns := 0 |} = Ok 1. Proof. reflexivity. Qed.
Example delay_nan : base_delay {| register_timing_jitter_ns := nan |} = Raise ValueError. Proof. reflexivity. Qed.
Example ports_generic :
  _generate_device_specific_ports default_generator = join nl generic_ports.
Proof. reflexivity. Qed.

(* ================================================================== *)
(** ** Strings                                                         *)
(* ================================================================== *)

Lemma append_assoc (a b c : string) : (a +s+ b) +s+ c = a +s+ (b +s+ c).
Proof.
  induction a as [|ch a IH]; simpl.
  - reflexivity.
  - now rewrite IH.
Qed.

Lemma append_nil_r (a : string) : a +s+ "" = a.
Proof.
  induction a as [|ch a IH]; simpl; [reflexivity | now rewrite IH].
Qed.

Lemma append_inj_l (a b c : string) : a +s+ b = a +s+ c -> b = c.
Proof.
  induction a as [|ch a IH]; simpl; intros H.
  - assumption.
  - injection H as H. now apply IH.
Qed.

(** Normalisation of the strings built by the generator and by the
    printer: both become right-nested appends of literals and of the
    renderings of the open numbers. *)
Ltac norm_strings :=
  unfold sig_reg, sig_pending, sig_counter, b0, b1;
  cbn [print_items print_item print_entry print_rhs map List.concat app
       pp else_block pe paren Nat.ltb Nat.leb radix_char radix_base indent
       sig_reg sig_pending sig_counter b0 b1 Z.eqb Pos.eqb fst snd];
  change (decimal 32) with "32"; change (decimal 8) with "8";
  change (decimal 4) with "4"; change (decimal 1) with "1";
  change (decimal 0) with "0"; change (decimal (32 - 1)) with "31";
  change (decimal (8 - 1)) with "7"; change (decimal (4 - 1)) with "3";
  change (format_int 16 1 0) with "0"; change (format_int 2 1 0) with "0";
  change (format_int 2 1 1) with "1"; change (format_int 16 1 1) with "1";
  change (format_int 16 1 15) with "F"; change (format_int 16 1 8) with "8";
  change (format_int 16 1 4) with "4"; change (format_int 16 2 0) with "00";
  change (format_int 16 2 1) with "01"; change (format_int 16 2 2) with "02";
  unfold format_08X, decimal;
  repeat rewrite append_assoc;
  repeat rewrite append_nil_r;
  cbn [String.append].


(* ================================================================== *)
(** ** The generator's lines are printed syntax trees                  *)
(* ================================================================== *)

Lemma interrupt_tree : interrupt_lines = print_items interrupt_items.
Proof. reflexivity. Qed.

Lemma global_decl_tree : register_logic_head = print_items global_decl_items.
Proof. reflexivity. Qed.

Lemma global_timing_tree : global_timing_lines = print_items global_timing_items.
Proof. reflexivity. Qed.

Lemma write_logic_tree (vm : option VarianceModel) (reg : Reg)
      (o v : Z) (d : option Z) :
  parse_offset reg = Ok o ->
  int_of_str 16 (reg_value reg) = Ok v ->
  delay_of vm = Ok d ->
  writable reg = true ->
  write_logic vm reg = Ok (print_items (write_items (reg_name reg) v o d)).
Proof.
  intros Ho Hv Hd Hw. unfold write_logic, writable in *.
  rewrite Ho. cbn [Py.bind]. rewrite Hw, Hv. cbn [Py.bind].
  destruct vm as [m|]; cbn [delay_of] in Hd.
  - destruct (base_delay m) as [dl|e]; cbn [Py.bind] in *; [|discriminate].
    injection Hd as <-. f_equal.
    unfold write_items, write_block. norm_strings. reflexivity.
  - injection Hd as <-. cbn [Py.bind]. f_equal.
    unfold write_items, write_block. norm_strings. reflexivity.
Qed.

Lemma write_logic_read_only (vm : option VarianceModel) (reg : Reg) (o : Z) :
  parse_offset reg = Ok o ->
  writable reg = false ->
  write_logic vm reg = Ok [].
Proof.
  intros Ho Hw. unfold write_logic, writable in *.
  rewrite Ho. cbn [Py.bind]. now rewrite Hw.
Qed.

Lemma declare_shadow_tree (vm : option VarianceModel) (reg : Reg) (v : Z)
      (g : rng) :
  reg_name reg = shadow_status ->
  int_of_str 16 (reg_value reg) = Ok v ->
  declare_register vm reg g
  = Ok (print_items (decl_items shadow_status (ELit 32 Hex 1 1)), g).
Proof.
  intros Hn Hv. unfold declare_register, bindM, lift, ret.
  rewrite Hv, Hn, String.eqb_refl. reflexivity.
Qed.

Lemma declare_plain_tree (reg : Reg) (v : Z) (g : rng) :
  reg_name reg <> shadow_status ->
  int_of_str 16 (reg_value reg) = Ok v ->
  declare_register None reg g
  = Ok (print_items (decl_items (reg_name reg) (ELit 32 Hex 8 v)), g).
Proof.
  intros Hn Hv. unfold declare_register, bindM, lift, ret.
  rewrite Hv. apply String.eqb_neq in Hn. rewrite Hn.
  do 2 f_equal. unfold decl_items. norm_strings. reflexivity.
Qed.

Lemma declare_varied_tree (vm : VarianceModel) (reg : Reg) (v n : Z)
      (g : rng) :
  reg_name reg <> shadow_status ->
  int_of_str 16 (reg_value reg) = Ok v ->
  varied_value v (g O) = Ok n ->
  declare_register (Some vm) reg g
  = Ok (print_items (decl_items (reg_name reg) (ELit 32 Hex 8 n)),
        fun k => g (S k)).
Proof.
  intros Hn Hv Hr. unfold declare_register, bindM, lift, ret, random.
  rewrite Hv. apply String.eqb_neq in Hn. rewrite Hn, Hr.
  do 2 f_equal. unfold decl_items. norm_strings. reflexivity.
Qed.

Lemma read_entries_tree (regs : list Reg) :
  read_entries regs
  = (rs <-- resolve regs ;;
     Ok (map print_entry (map (fun r => reg_entry (fst r) (snd r)) rs))).
Proof.
  induction regs as [|reg rest IH]; cbn [read_entries resolve Py.bind].
  - reflexivity.
  - unfold read_entry. destruct (parse_offset reg) as [o|e]; cbn [Py.bind];
      [|reflexivity].
    rewrite IH. destruct (resolve rest) as [rs|e]; cbn [Py.bind map];
      [|reflexivity].
    do 2 f_equal. unfold reg_entry. norm_strings. reflexivity.
Qed.

Lemma read_logic_tree (regs : list Reg) :
  read_logic_lines regs
  = (rs <-- resolve regs ;; Ok (print_items (read_items rs))).
Proof.
  unfold read_logic_lines. rewrite read_entries_tree.
  destruct (resolve regs) as [rs|e]; cbn [Py.bind]; [|reflexivity].
  f_equal. unfold read_items, print_items.
  cbn [map List.concat print_item app].
  rewrite !map_app.
  generalize (map print_entry
                (map (fun r : string * Z => reg_entry (fst r) (snd r)) rs)).
  intros mid.
  replace read_logic_head
    with (firstn 5 read_logic_head ++ map print_entry fixed_entries)
    by reflexivity.
  rewrite <- !app_assoc. reflexivity.
Qed.

(* ================================================================== *)
(** ** Signal names                                                    *)
(* ================================================================== *)

Lemma ends_with_append (suf name : string) :
  ends_with suf (name +s+ suf) = true.
Proof.
  induction name as [|c name IH]; cbn [String.append].
  - destruct suf; cbn [ends_with]; now rewrite String.eqb_refl.
  - cbn [ends_with]. rewrite IH. apply orb_true_r.
Qed.

Lemma sig_neq_const (name suf c : string) :
  ends_with suf c = false -> String.eqb (name +s+ suf) c = false.
Proof.
  intros H. apply String.eqb_neq. intros E.
  rewrite <- E, ends_with_append in H. discriminate.
Qed.

Lemma sig_neq_suffix (name s1 s2 : string) :
  s1 <> s2 -> String.eqb (name +s+ s1) (name +s+ s2) = false.
Proof.
  intros H. apply String.eqb_neq. intros E. now apply append_inj_l in E.
Qed.

(** Decides the comparisons of signal names that the semantics meets. *)
Ltac sig_eqb :=
  unfold sig_reg, sig_pending, sig_counter;
  repeat match goal with
    | |- context [String.eqb ?a ?a] => rewrite (String.eqb_refl a)
    | |- context [String.eqb (?n +s+ ?s1) (?n +s+ ?s2)] =>
        rewrite (sig_neq_suffix n s1 s2) by discriminate
    | |- context [String.eqb (?n +s+ ?s) ?c] =>
        rewrite (sig_neq_const n s c) by reflexivity
    end;
  cbn [orb andb].

Lemma truth_of_bool (b : bool) : truth (of_bool b) = b.
Proof. now destruct b. Qed.

Lemma run_shift (items : list item) (ins : nat -> env) (n : nat) (st : env) :
  run items ins (S n) st
  = run items (fun k => ins (S k)) n (cycle items (ins O) st).
Proof.
  induction n as [|n IH].
  - reflexivity.
  - cbn [run] in *. now rewrite IH.
Qed.

(* ================================================================== *)
(** ** One edge of a write block                                       *)
(* ================================================================== *)

Section WriteBlock.

Variables (name : string) (init : expr) (v o : Z).

Local Abbreviation R := (sig_reg name).
Local Abbreviation P := (sig_pending name).
Local Abbreviation C := (sig_counter name).

Lemma fragment_sample_input (delay : option Z) (ins st : env) (c : string) :
  ends_with "_reg" c = false ->
  ends_with "_access_pending" c = false ->
  ends_with "_timing_counter" c = false ->
  sample (reg_fragment name init v o delay) ins st c = ins c.
Proof.
  intros H1 H2 H3. unfold sample, reg_fragment, decl_items, write_items.
  cbn [app declared]. unfold sig_reg, sig_pending, sig_counter.
  now rewrite !sig_neq_const by assumption.
Qed.

Lemma fragment_sample_stored (delay : option Z) (ins st : env) :
  sample (reg_fragment name init v o delay) ins st R = st R
  /\ sample (reg_fragment name init v o delay) ins st P = st P
  /\ sample (reg_fragment name init v o delay) ins st C = st C.
Proof.
  unfold sample, reg_fragment, decl_items, write_items.
  cbn [app declared]. repeat split; sig_eqb; reflexivity.
Qed.

Lemma fragment_widths (delay : option Z) :
  width_of (reg_fragment name init v o delay) R = 32
  /\ width_of (reg_fragment name init v o delay) P = 1
  /\ width_of (reg_fragment name init v o delay) C = 8.
Proof.
  unfold reg_fragment, decl_items, write_items.
  cbn [app width_of]. repeat split; sig_eqb; reflexivity.
Qed.

Lemma fragment_declared (delay : option Z) (x : string) :
  declared (reg_fragment name init v o delay) x = true ->
  x = R \/ x = P \/ x = C.
Proof.
  unfold reg_fragment, decl_items, write_items. cbn [app declared].
  destruct (String.eqb_spec R x) as [E|_]; [now left|].
  destruct (String.eqb_spec P x) as [E|_]; [now right; left|].
  destruct (String.eqb_spec C x) as [E|_]; [now right; right|].
  discriminate.
Qed.

Lemma fragment_cycle (delay : option Z) (ins st : env) :
  cycle (reg_fragment name init v o delay) ins st
  = exec (width_of (reg_fragment name init v o delay))
         (write_block name v o delay)
         (sample (reg_fragment name init v o delay) ins st)
         (sample (reg_fragment name init v o delay) ins st).
Proof. reflexivity. Qed.

(** The next values of the three signals of a register with a variance
    delay [d], by cases on the valuation at the edge. *)
Lemma write_cycle_variance (d : Z) (ins st : env) :
  let st' := cycle (reg_fragment name init v o (Some d)) ins st in
  (st' R, st' P, st' C)
  = if negb (truth (ins "reset_n")) then (v mod 2 ^ 32, 0, 0)
    else if strobe o ins then (st R, 1, d mod 2 ^ 8)
    else if truth (st P) then
           if 0 <? st C then (st R, st P, (st C - 1) mod 2 ^ 8)
           else (ins "bar_wr_data" mod 2 ^ 32, 0, st C)
    else (st R, st P, st C).
Proof.
  cbn zeta.
  destruct (fragment_widths (Some d)) as (WR & WP & WC).
  destruct (fragment_sample_stored (Some d) ins st) as (SR & SP & SC).
  pose proof (fragment_sample_input (Some d) ins st "reset_n"
                eq_refl eq_refl eq_refl) as Srst.
  pose proof (fragment_sample_input (Some d) ins st "bar_wr_en"
                eq_refl eq_refl eq_refl) as Sen.
  pose proof (fragment_sample_input (Some d) ins st "bar_addr"
                eq_refl eq_refl eq_refl) as Saddr.
  pose proof (fragment_sample_input (Some d) ins st "bar_wr_data"
                eq_refl eq_refl eq_refl) as Sdata.
  rewrite fragment_cycle.
  set (frag := reg_fragment name init v o (Some d)) in *.
  set (cur := sample frag ins st) in *.
  unfold write_block, b0, b1, sig_reg, sig_pending, sig_counter in *.
  cbn [exec eval]. rewrite !truth_of_bool.
  rewrite ?Srst, ?Sen, ?Saddr, ?Sdata, ?WR, ?WP, ?WC, ?SR, ?SP, ?SC.
  fold (strobe o ins). unfold upd.
  destruct (truth (ins "reset_n")); cbn [negb].
  2:{ sig_eqb. rewrite !Z.mod_mod by lia. reflexivity. }
  destruct (strobe o ins).
  { sig_eqb. rewrite ?SR, ?Z.mod_mod by lia. reflexivity. }
  destruct (truth (st (name +s+ "_access_pending"))).
  2:{ now rewrite SR, SP, SC. }
  destruct (0 <? st (name +s+ "_timing_counter"));
    sig_eqb; rewrite ?SR, ?SP, ?SC; reflexivity.
Qed.

(** The same without a variance model. *)
Lemma write_cycle_plain (ins st : env) :
  let st' := cycle (reg_fragment name init v o None) ins st in
  (st' R, st' P, st' C)
  = if negb (truth (ins "reset_n")) then (v mod 2 ^ 32, 0, 0)
    else if strobe o ins then (ins "bar_wr_data" mod 2 ^ 32, st P, st C)
    else (st R, st P, st C).
Proof.
  cbn zeta.
  destruct (fragment_widths None) as (WR & WP & WC).
  destruct (fragment_sample_stored None ins st) as (SR & SP & SC).
  pose proof (fragment_sample_input None ins st "reset_n"
                eq_refl eq_refl eq_refl) as Srst.
  pose proof (fragment_sample_input None ins st "bar_wr_en"
                eq_refl eq_refl eq_refl) as Sen.
  pose proof (fragment_sample_input None ins st "bar_addr"
                eq_refl eq_refl eq_refl) as Saddr.
  pose proof (fragment_sample_input None ins st "bar_wr_data"
                eq_refl eq_refl eq_refl) as Sdata.
  rewrite fragment_cycle.
  set (frag := reg_fragment name init v o None) in *.
  set (cur := sample frag ins st) in *.
  unfold write_block, b0, b1, sig_reg, sig_pending, sig_counter in *.
  cbn [exec eval]. rewrite !truth_of_bool.
  rewrite ?Srst, ?Sen, ?Saddr, ?Sdata, ?WR, ?WP, ?WC, ?SR, ?SP, ?SC.
  fold (strobe o ins). unfold upd.
  destruct (truth (ins "reset_n")); cbn [negb].
  2:{ sig_eqb. rewrite !Z.mod_mod by lia. reflexivity. }
  destruct (strobe o ins).
  { sig_eqb. rewrite ?SP, ?SC. reflexivity. }
  now rewrite SR, SP, SC.
Qed.

End WriteBlock.

(* ================================================================== *)
(** ** Traces of a write block with a variance delay                   *)
(* ================================================================== *)

Section WriteTrace.

Variables (name : string) (init : expr) (v o d : Z).

Local Abbreviation R := (sig_reg name).
Local Abbreviation P := (sig_pending name).
Local Abbreviation C := (sig_counter name).
Local Abbreviation frag := (reg_fragment name init v o (Some d)).

Lemma strobe_edge (ins st : env) :
  truth (ins "reset_n") = true ->
  strobe o ins = true ->
  let st' := cycle frag ins st in
  st' R = st R /\ st' P = 1 /\ st' C = d mod 2 ^ 8.
Proof.
  intros Hr Hs. pose proof (write_cycle_variance name init v o d ins st) as H.
  cbn zeta in *. rewrite Hr, Hs in H. cbn [negb] in H.
  injection H as -> -> ->. auto.
Qed.

Lemma countdown_invariant (ins : nat -> env) (st : env) (c : nat) :
  truth (st P) = true ->
  st C = Z.of_nat c ->
  Z.of_nat c < 2 ^ 8 ->
  quiet o ins c ->
  forall k, (k <= c)%nat ->
    run frag ins k st R = st R
    /\ run frag ins k st P = st P
    /\ run frag ins k st C = Z.of_nat c - Z.of_nat k.
Proof.
  intros HP HC Hc Hq k. induction k as [|k IH]; intros Hk.
  - cbn [run]. repeat split; lia.
  - destruct IH as (IR & IP & IC); [lia|].
    destruct (Hq k) as (Hr & Hs); [lia|].
    cbn [run].
    pose proof (write_cycle_variance name init v o d (ins k)
                  (run frag ins k st)) as H.
    cbn zeta in H. rewrite Hr, Hs, IP, HP, IC in H. cbn [negb] in H.
    replace (0 <? Z.of_nat c - Z.of_nat k) with true in H
      by (symmetry; apply Z.ltb_lt; lia).
    injection H as -> -> ->. rewrite IR.
    repeat split. rewrite Z.mod_small; lia.
Qed.

Lemma countdown_commit (ins : nat -> env) (st : env) (c : nat) :
  truth (st P) = true ->
  st C = Z.of_nat c ->
  Z.of_nat c < 2 ^ 8 ->
  quiet o ins c ->
  run frag ins (S c) st R = ins c "bar_wr_data" mod 2 ^ 32
  /\ run frag ins (S c) st P = 0.
Proof.
  intros HP HC Hc Hq.
  destruct (countdown_invariant ins st c HP HC Hc Hq c (le_n c))
    as (IR & IP & IC).
  destruct (Hq c (le_n c)) as (Hr & Hs).
  cbn [run].
  pose proof (write_cycle_variance name init v o d (ins c)
                (run frag ins c st)) as H.
  cbn zeta in H. rewrite Hr, Hs, IP, HP, IC in H. cbn [negb] in H.
  replace (0 <? Z.of_nat c - Z.of_nat c) with false in H
    by (symmetry; apply Z.ltb_ge; lia).
  injection H as -> -> _. auto.
Qed.

(** After a strobe at edge [0] and quiet edges afterwards, the register
    keeps its value through the [delay] edges that count down and takes
    the bus data at the edge after them, [delay] being the 8-bit value of
    the seed. *)
Lemma strobe_then_commit (ins : nat -> env) (st : env) :
  truth (ins O "reset_n") = true ->
  strobe o (ins O) = true ->
  quiet o (fun k => ins (S k)) (Z.to_nat (d mod 2 ^ 8)) ->
  commits_at frag ins st R (S (Z.to_nat (d mod 2 ^ 8))).
Proof.
  intros Hr Hs Hq.
  destruct (strobe_edge (ins O) st Hr Hs) as (ER & EP & EC).
  set (c := Z.to_nat (d mod 2 ^ 8)) in *.
  assert (Hc : Z.of_nat c = d mod 2 ^ 8).
  { unfold c. rewrite Z2Nat.id; [reflexivity|].
    apply Z.mod_pos_bound. lia. }
  assert (Hlt : Z.of_nat c < 2 ^ 8).
  { rewrite Hc. apply Z.mod_pos_bound. lia. }
  assert (HP : truth (cycle frag (ins O) st P) = true) by now rewrite EP.
  assert (HC : cycle frag (ins O) st C = Z.of_nat c) by now rewrite EC, Hc.
  split.
  - intros [|k] Hk; [reflexivity|].
    rewrite run_shift.
    destruct (countdown_invariant (fun k => ins (S k)) _ c HP HC Hlt Hq k)
      as (IR & _); [lia|].
    now rewrite IR, ER.
  - rewrite run_shift.
    now destruct (countdown_commit (fun k => ins (S k)) _ c HP HC Hlt Hq).
Qed.

End WriteTrace.

(* ================================================================== *)
(** ** Write delay under a variance model                              *)
(* ================================================================== *)

Lemma base_delay_spec (vm : VarianceModel) (d : Z) :
  base_delay vm = Ok d ->
  exists n, int_of_float (register_timing_jitter_ns vm / 10)%float = Ok n
            /\ d = Z.max 1 n.
Proof.
  unfold base_delay. intros H.
  destruct (int_of_float _) as [n|e]; cbn [Py.bind] in H; [|discriminate].
  injection H as <-. now exists n.
Qed.

Lemma delay_of_some (vm : VarianceModel) (d : Z) :
  base_delay vm = Ok d -> delay_of (Some vm) = Ok (Some d).
Proof. intros H. cbn [delay_of]. now rewrite H. Qed.

(** C3, as stated, fails: with a jitter of 25 ns the seed is 2, but two
    edges after the strobe edge the register of the scenario still holds
    its old value; neither edge 1 nor edge 2 stores the write data. *)
Lemma C3_counterexample :
  base_delay vm25 = Ok 2
  /\ write_logic (Some vm25) ctrl
     = Ok (print_items (write_items "ctrl" 0 0x30 (Some 2)))
  /\ run ctrl_delayed (single_write 0x30 0xDEADBEEF) 3 all_zero "ctrl_reg" = 0
  /\ ~ commits_at ctrl_delayed (single_write 0x30 0xDEADBEEF) all_zero
       "ctrl_reg" 2
  /\ ~ commits_at ctrl_delayed (single_write 0x30 0xDEADBEEF) all_zero
       "ctrl_reg" 1.
Proof.
  split; [reflexivity|]. split; [vm_compute; reflexivity|].
  split; [vm_compute; reflexivity|].
  split; intros [_ H]; vm_compute in H; discriminate.
Qed.

(** C3, amended: for every writable register generated with a variance
    model, the write block is the printed tree with the seed
    [max(1, int(jitter / 10))]; a strobe loads the 8-bit counter with the
    seed and sets the pending flag, and, absent a reset or a further
    strobe to the register, the stored value is unchanged through the
    edges that count the seed down and takes the write data at the edge
    after them: seed + 1 edges after the strobe edge, not earlier. *)
Theorem C3_write_delay (reg : Reg) (vm : VarianceModel) (init : expr)
        (o v d : Z) (ins : nat -> env) (st : env) :
  writable reg = true ->
  parse_offset reg = Ok o ->
  int_of_str 16 (reg_value reg) = Ok v ->
  base_delay vm = Ok d ->
  truth (ins O "reset_n") = true ->
  strobe o (ins O) = true ->
  quiet o (fun k => ins (S k)) (Z.to_nat (d mod 2 ^ 8)) ->
  let name := reg_name reg in
  let frag := reg_fragment name init v o (Some d) in
  write_logic (Some vm) reg
  = Ok (print_items (write_items name v o (Some d)))
  /\ (exists n,
         int_of_float (register_timing_jitter_ns vm / 10)%float = Ok n
         /\ d = Z.max 1 n)
  /\ cycle frag (ins O) st (sig_pending name) = 1
  /\ cycle frag (ins O) st (sig_counter name) = d mod 2 ^ 8
  /\ commits_at frag ins st (sig_reg name) (S (Z.to_nat (d mod 2 ^ 8))).
Proof.
  intros Hw Ho Hv Hd Hr Hs Hq name frag.
  split.
  { apply write_logic_tree; auto using delay_of_some. }
  split; [now apply base_delay_spec|].
  destruct (strobe_edge name init v o d (ins O) st Hr Hs) as (_ & EP & EC).
  repeat split; try assumption;
    now apply (strobe_then_commit name init v o d ins st).
Qed.

Lemma C3_write_delay_witness :
  write_logic (Some vm25) ctrl
  = Ok (print_items (write_items "ctrl" 0 0x30 (Some 2)))
  /\ (exists n,
         int_of_float (register_timing_jitter_ns vm25 / 10)%float = Ok n
         /\ 2 = Z.max 1 n)
  /\ cycle ctrl_delayed (single_write 0x30 0xDEADBEEF O) all_zero
           "ctrl_access_pending" = 1
  /\ cycle ctrl_delayed (single_write 0x30 0xDEADBEEF O) all_zero
           "ctrl_timing_counter" = 2
  /\ commits_at ctrl_delayed (single_write 0x30 0xDEADBEEF) all_zero
                "ctrl_reg" 3.
Proof.
  apply (C3_write_delay ctrl vm25 (ELit 32 Hex 8 0) 0x30 0 2
           (single_write 0x30 0xDEADBEEF) all_zero).
  - reflexivity.
  - reflexivity.
  - reflexivity.
  - reflexivity.
  - reflexivity.
  - reflexivity.
  - intros k _. split; reflexivity.
Defined.

(* ================================================================== *)
(** ** Which data a delayed write commits                              *)
(* ================================================================== *)

Lemma strobe_with_data (o data : Z) (rho : env) :
  strobe o (with_data data rho) = strobe o rho.
Proof. reflexivity. Qed.

(** C10: in the write logic emitted with a variance model, the strobe
    edge sets the pending flag and seeds the counter without storing the
    write data in any signal of the register (its three next values do
    not depend on [bar_wr_data], and it declares no other signal); a strobe
    during PENDING reseeds the
    counter and leaves the value alone; and the edge at which the counter
    has expired stores the [bar_wr_data] of that very cycle. *)
Theorem C10_commit_uses_current_bus (reg : Reg) (vm : VarianceModel)
        (init : expr) (o v d : Z) :
  writable reg = true ->
  parse_offset reg = Ok o ->
  int_of_str 16 (reg_value reg) = Ok v ->
  base_delay vm = Ok d ->
  let name := reg_name reg in
  let frag := reg_fragment name init v o (Some d) in
  write_logic (Some vm) reg
  = Ok (print_items (write_items name v o (Some d)))
  /\ (forall (rho st : env) (d1 d2 : Z) (x : string),
         truth (rho "reset_n") = true ->
         strobe o rho = true ->
         declared frag x = true ->
         cycle frag (with_data d1 rho) st x
         = cycle frag (with_data d2 rho) st x)
  /\ (forall (rho st : env),
         truth (rho "reset_n") = true ->
         strobe o rho = true ->
         truth (st (sig_pending name)) = true ->
         let s := cycle frag rho st in
         s (sig_reg name) = st (sig_reg name)
         /\ s (sig_pending name) = 1
         /\ s (sig_counter name) = d mod 2 ^ 8)
  /\ (forall (rho st : env),
         truth (rho "reset_n") = true ->
         strobe o rho = false ->
         truth (st (sig_pending name)) = true ->
         st (sig_counter name) <= 0 ->
         let s := cycle frag rho st in
         s (sig_reg name) = rho "bar_wr_data" mod 2 ^ 32
         /\ s (sig_pending name) = 0)
  /\ (forall (ins : nat -> env) (st : env),
         truth (ins O "reset_n") = true ->
         strobe o (ins O) = true ->
         quiet o (fun k => ins (S k)) (Z.to_nat (d mod 2 ^ 8)) ->
         let n := S (Z.to_nat (d mod 2 ^ 8)) in
         run frag ins (S n) st (sig_reg name)
         = ins n "bar_wr_data" mod 2 ^ 32).
Proof.
  intros Hw Ho Hv Hd. cbn zeta.
  split.
  { apply write_logic_tree; auto using delay_of_some. }
  split.
  { intros rho st d1 d2 x Hr Hs Hx.
    destruct (strobe_edge (reg_name reg) init v o d (with_data d1 rho) st)
      as (R1 & P1 & C1); [exact Hr | now rewrite strobe_with_data |].
    destruct (strobe_edge (reg_name reg) init v o d (with_data d2 rho) st)
      as (R2 & P2 & C2); [exact Hr | now rewrite strobe_with_data |].
    destruct (fragment_declared _ _ _ _ _ _ Hx) as [->|[->| ->]]; congruence. }
  split.
  { intros rho st Hr Hs _. now apply strobe_edge. }
  split.
  { intros rho st Hr Hs HP HC.
    pose proof (write_cycle_variance (reg_name reg) init v o d rho st) as H.
    cbn zeta in H. rewrite Hr, Hs, HP in H. cbn [negb] in H.
    replace (0 <? st (sig_counter (reg_name reg))) with false in H
      by (symmetry; apply Z.ltb_ge; exact HC).
    injection H as HR HPn _. split; assumption. }
  intros ins st Hr Hs Hq.
  now destruct (strobe_then_commit (reg_name reg) init v o d ins st Hr Hs Hq).
Qed.

Lemma C10_commit_uses_current_bus_witness :
  run ctrl_delayed (changing_write 0x30 0x11111111 0x22222222) 4 all_zero
      "ctrl_reg"
  = 0x22222222.
Proof.
  pose proof (C10_commit_uses_current_bus ctrl vm25 (ELit 32 Hex 8 0)
                0x30 0 2 eq_refl eq_refl eq_refl eq_refl) as H.
  cbn zeta in H. destruct H as (_ & _ & _ & _ & H).
  specialize (H (changing_write 0x30 0x11111111 0x22222222) all_zero
                eq_refl eq_refl).
  apply H. intros k _. destruct k; cbn; auto.
Defined.

(* ================================================================== *)
(** ** Interrupt arbitration                                           *)
(* ================================================================== *)

(** The next pending flag, vector and priority, by cases on the inputs at
    the edge. *)
Lemma interrupt_cycle (ins st : env) :
  let st' := cycle interrupt_items ins st in
  (st' "interrupt_pending", st' "interrupt_vector", st' "interrupt_priority")
  = if negb (truth (ins "reset_n")) then (0, 0, 0)
    else if truth (ins "uncorrectable_error") then (1, 2, 15)
    else if truth (ins "correctable_error") then (1, 1, 8)
    else if truth (ins "bar_wr_en") || truth (ins "bar_rd_en") then (1, 0, 4)
    else if truth (ins "msi_ack") then (0, 0, 0)
    else (st "interrupt_pending", st "interrupt_vector",
          st "interrupt_priority").
Proof.
  cbn zeta. unfold cycle.
  assert (Srst : sample interrupt_items ins st "reset_n" = ins "reset_n")
    by reflexivity.
  assert (Sunc : sample interrupt_items ins st "uncorrectable_error"
                 = ins "uncorrectable_error") by reflexivity.
  assert (Scor : sample interrupt_items ins st "correctable_error"
                 = ins "correctable_error") by reflexivity.
  assert (Swr : sample interrupt_items ins st "bar_wr_en" = ins "bar_wr_en")
    by reflexivity.
  assert (Srd : sample interrupt_items ins st "bar_rd_en" = ins "bar_rd_en")
    by reflexivity.
  assert (Sack : sample interrupt_items ins st "msi_ack" = ins "msi_ack")
    by reflexivity.
  assert (SP : sample interrupt_items ins st "interrupt_pending"
               = st "interrupt_pending") by reflexivity.
  assert (SV : sample interrupt_items ins st "interrupt_vector"
               = st "interrupt_vector") by reflexivity.
  assert (SQ : sample interrupt_items ins st "interrupt_priority"
               = st "interrupt_priority") by reflexivity.
  assert (WP : width_of interrupt_items "interrupt_pending" = 1)
    by reflexivity.
  assert (WV : width_of interrupt_items "interrupt_vector" = 8)
    by reflexivity.
  assert (WQ : width_of interrupt_items "interrupt_priority" = 4)
    by reflexivity.
  set (cur := sample interrupt_items ins st) in *.
  set (W := width_of interrupt_items) in *.
  change (ff_edge W interrupt_items cur cur)
    with (exec W interrupt_block cur cur).
  unfold interrupt_block, b0, b1.
  cbn [exec eval]. rewrite !truth_of_bool, Srst, Sunc, Scor, Swr, Srd, Sack.
  destruct (truth (ins "reset_n")); cbn [negb];
    [destruct (truth (ins "uncorrectable_error"));
     [|destruct (truth (ins "correctable_error"));
       [|destruct (truth (ins "bar_wr_en") || truth (ins "bar_rd_en"));
         [|destruct (truth (ins "msi_ack"))]]]|];
    cbn [exec eval]; unfold upd; cbn; rewrite ?WP, ?WV, ?WQ, ?SP, ?SV, ?SQ;
    reflexivity.
Qed.

(** C5: the text of [generate_interrupt_logic] is the printed interrupt
    tree, and at an edge out of reset: an uncorrectable error gives
    pending with vector 0x02 and priority 0xF, also when a correctable
    error is raised in the same cycle; any of the three triggers leaves the
    logic pending whatever the acknowledgment; the acknowledgment clears
    pending, vector and priority when none of the triggers is raised; and
    a pending interrupt that is cleared at the edge saw no trigger. *)
Theorem C5_interrupt_priority (self : AdvancedSVGenerator) (ins st : env) :
  truth (ins "reset_n") = true ->
  let st' := cycle interrupt_items ins st in
  let trigger :=
      truth (ins "uncorrectable_error") || truth (ins "correctable_error")
      || (truth (ins "bar_wr_en") || truth (ins "bar_rd_en")) in
  generate_interrupt_logic self = join nl (print_items interrupt_items)
  /\ (truth (ins "uncorrectable_error") = true ->
      truth (ins "correctable_error") = true ->
      st' "interrupt_pending" = 1 /\ st' "interrupt_vector" = 0x02
      /\ st' "interrupt_priority" = 0xF)
  /\ (trigger = true -> st' "interrupt_pending" = 1)
  /\ (trigger = false -> truth (ins "msi_ack") = true ->
      st' "interrupt_pending" = 0 /\ st' "interrupt_vector" = 0
      /\ st' "interrupt_priority" = 0)
  /\ (truth (st "interrupt_pending") = true ->
      st' "interrupt_pending" = 0 ->
      trigger = false /\ truth (ins "msi_ack") = true).
Proof.
  intros Hr. pose proof (interrupt_cycle ins st) as H.
  cbn zeta in *. rewrite Hr in H. cbn [negb] in H.
  split; [reflexivity|].
  destruct (truth (ins "uncorrectable_error"));
    destruct (truth (ins "correctable_error"));
    destruct (truth (ins "bar_wr_en"));
    destruct (truth (ins "bar_rd_en"));
    destruct (truth (ins "msi_ack"));
    cbn [orb] in *; injection H as -> -> ->;
    repeat split; intros; try discriminate; try reflexivity;
    try (exfalso;
         match goal with
         | A : truth ?x = true, B : ?x = 0 |- _ =>
             rewrite B in A; discriminate
         end).
Qed.

Lemma C5_interrupt_priority_witness :
  let st' := cycle interrupt_items (irq_inputs 1 1 0 0 1) irq_pending_low in
  st' "interrupt_pending" = 1 /\ st' "interrupt_vector" = 0x02
  /\ st' "interrupt_priority" = 0xF.
Proof.
  pose proof (C5_interrupt_priority default_generator
                (irq_inputs 1 1 0 0 1) irq_pending_low eq_refl) as H.
  cbn zeta in H. destruct H as (_ & H & _).
  apply H; reflexivity.
Defined.

(* ================================================================== *)
(** ** The global write-pending indicator                              *)
(* ================================================================== *)

(** The next timer and indicator, by cases on the valuation at the edge. *)
Lemma timing_cycle (ins st : env) :
  let st' := cycle timing_fragment ins st in
  (st' "register_access_timer", st' "register_write_pending")
  = if negb (truth (ins "reset_n")) then (0, 0)
    else ((st "register_access_timer" + 1) mod 2 ^ 32,
          if truth (ins "bar_wr_en")
             && negb (truth (st "register_write_pending"))
          then 1
          else if truth (st "register_write_pending")
                  && (st "register_access_timer" mod 16 =? 15)
               then 0
               else st "register_write_pending").
Proof.
  cbn zeta. unfold cycle.
  assert (Srst : sample timing_fragment ins st "reset_n" = ins "reset_n")
    by reflexivity.
  assert (Sen : sample timing_fragment ins st "bar_wr_en" = ins "bar_wr_en")
    by reflexivity.
  assert (SP : sample timing_fragment ins st "register_write_pending"
               = st "register_write_pending") by reflexivity.
  assert (ST : sample timing_fragment ins st "register_access_timer"
               = st "register_access_timer") by reflexivity.
  assert (WP : width_of timing_fragment "register_write_pending" = 1)
    by reflexivity.
  assert (WT : width_of timing_fragment "register_access_timer" = 32)
    by reflexivity.
  set (cur := sample timing_fragment ins st) in *.
  set (W := width_of timing_fragment) in *.
  change (ff_edge W timing_fragment cur cur)
    with (exec W global_timing_block cur cur).
  unfold global_timing_block, b0, b1.
  cbn [exec eval]. rewrite !truth_of_bool, Srst, Sen, SP, ST.
  change (2 ^ 0) with 1. change (2 ^ (3 - 0 + 1)) with 16.
  change (15 mod 2 ^ 4) with 15. rewrite Z.div_1_r.
  destruct (truth (ins "reset_n")); cbn [negb].
  2:{ unfold upd. cbn. rewrite ?WP, ?WT. reflexivity. }
  destruct (truth (ins "bar_wr_en"));
    destruct (truth (st "register_write_pending")); cbn [andb negb];
    try destruct (st "register_access_timer" mod 16 =? 15);
    cbn [exec eval]; unfold upd; cbn; rewrite ?WP, ?WT, ?SP; reflexivity.
Qed.

Lemma mod16_of_mod32 (a : Z) : (a mod 2 ^ 32) mod 16 = a mod 16.
Proof.
  change (2 ^ 32) with (16 * 2 ^ 28).
  rewrite Z.rem_mul_r by lia.
  rewrite Z.mul_comm, Z.mod_add by lia. apply Z.mod_mod. lia.
Qed.

(** While the indicator is high it stays high until the edge at which the
    low nibble of the timer is [0xF], whatever the write enable does. *)
Lemma indicator_holds (ins : nat -> env) (st : env) (n : nat) :
  truth (st "register_write_pending") = true ->
  Z.of_nat n = 15 - st "register_access_timer" mod 16 ->
  (forall k, (k <= n)%nat -> truth (ins k "reset_n") = true) ->
  forall k, (k <= n)%nat ->
    run timing_fragment ins k st "register_write_pending"
    = st "register_write_pending"
    /\ run timing_fragment ins k st "register_access_timer" mod 16
       = (st "register_access_timer" + Z.of_nat k) mod 16.
Proof.
  intros HP Hn Hr k. induction k as [|k IH]; intros Hk.
  - cbn [run]. split; [reflexivity|]. f_equal. lia.
  - destruct IH as (IP & IT); [lia|].
    cbn [run].
    pose proof (timing_cycle (ins k) (run timing_fragment ins k st)) as H.
    cbn zeta in H. rewrite (Hr k) in H by lia. cbn [negb] in H.
    rewrite IP, HP in H. cbn [negb andb] in H. rewrite andb_false_r in H.
    rewrite IT in H.
    replace ((st "register_access_timer" + Z.of_nat k) mod 16 =? 15)
      with false in H.
    2:{ symmetry. apply Z.eqb_neq.
        pose proof (Z.mod_pos_bound (st "register_access_timer") 16).
        rewrite <- (Zplus_mod_idemp_l (st "register_access_timer")).
        intros E.
        assert (B : 0 <= st "register_access_timer" mod 16 + Z.of_nat k < 16)
          by lia.
        rewrite (Z.mod_small _ _ B) in E. lia. }
    injection H as HT HW. rewrite HW. split; [reflexivity|].
    rewrite HT, mod16_of_mod32.
    rewrite <- Zplus_mod_idemp_l, IT, Zplus_mod_idemp_l. f_equal. lia.
Qed.

Lemma indicator_clears (ins : nat -> env) (st : env) (n : nat) :
  truth (st "register_write_pending") = true ->
  Z.of_nat n = 15 - st "register_access_timer" mod 16 ->
  (forall k, (k <= n)%nat -> truth (ins k "reset_n") = true) ->
  run timing_fragment ins (S n) st "register_write_pending" = 0.
Proof.
  intros HP Hn Hr.
  destruct (indicator_holds ins st n HP Hn Hr n (le_n n)) as (IP & IT).
  cbn [run].
  pose proof (timing_cycle (ins n) (run timing_fragment ins n st)) as H.
  cbn zeta in H. rewrite (Hr n) in H by lia. cbn [negb] in H.
  rewrite IP, HP in H. cbn [negb andb] in H. rewrite andb_false_r in H.
  rewrite IT in H.
  replace ((st "register_access_timer" + Z.of_nat n) mod 16 =? 15)
    with true in H.
  2:{ symmetry. apply Z.eqb_eq.
      pose proof (Z.mod_pos_bound (st "register_access_timer") 16).
      rewrite <- (Zplus_mod_idemp_l (st "register_access_timer")).
      rewrite Z.mod_small; lia. }
  now injection H as _ HW.
Qed.

(** C8, as stated, fails: from the initial state, with the first write
    strobe at edge 14 and the write enable held, the indicator is asserted
    by edge 14 and deasserted by edge 15, one cycle later and while the
    strobe is still active. *)
Lemma C8_counterexample :
  let st0 := init_state timing_fragment all_zero in
  run timing_fragment late_strobe 14 st0 "register_write_pending" = 0
  /\ run timing_fragment late_strobe 15 st0 "register_write_pending" = 1
  /\ truth (late_strobe 15%nat "bar_wr_en") = true
  /\ run timing_fragment late_strobe 16 st0 "register_write_pending" = 0
  /\ ~ high_exactly (fun k => late_strobe (14 + k))
       (run timing_fragment late_strobe 14 st0) 16.
Proof.
  cbn zeta. repeat split; try (vm_compute; reflexivity).
  intros [H _]. specialize (H 2%nat). vm_compute in H.
  assert (E : 0 = 1) by (apply H; split; apply Nat.leb_le; reflexivity).
  discriminate E.
Qed.

(** C8, amended: the text of the global timing block is the printed tree;
    out of reset, an edge with the write enable active and the indicator
    low asserts the indicator; once asserted it is deasserted at the first
    edge at which the low four bits of the free-running timer are [0xF],
    whatever the write enable does, so that it stays high for
    [16 - (t + 1) mod 16] cycles, [t] being the timer at the asserting
    edge: between 1 and 16 cycles, never longer. *)
Theorem C8_write_pending_window (ins : nat -> env) (st : env) :
  let t := st "register_access_timer" in
  let len := Z.to_nat (16 - (t + 1) mod 16) in
  truth (st "register_write_pending") = false ->
  truth (ins O "bar_wr_en") = true ->
  (forall k, (k <= len)%nat -> truth (ins k "reset_n") = true) ->
  global_timing_lines = print_items global_timing_items
  /\ register_logic_head = print_items global_decl_items
  /\ cycle timing_fragment (ins O) st "register_write_pending" = 1
  /\ high_exactly ins st len
  /\ (1 <= len <= 16)%nat.
Proof.
  intros t len HP Hw Hr.
  pose proof (Z.mod_pos_bound (t + 1) 16 eq_refl) as Hb.
  assert (Hlen : Z.of_nat len = 16 - (t + 1) mod 16)
    by (unfold len; rewrite Z2Nat.id; lia).
  split; [reflexivity|]. split; [reflexivity|].
  pose proof (timing_cycle (ins O) st) as H0. cbn zeta in H0.
  rewrite (Hr O) in H0 by lia. rewrite Hw, HP in H0. cbn [negb andb] in H0.
  injection H0 as HT HW.
  split; [exact HW|].
  set (s1 := cycle timing_fragment (ins O) st) in *.
  assert (HP1 : truth (s1 "register_write_pending") = true) by now rewrite HW.
  assert (Hn : Z.of_nat (len - 1)
               = 15 - s1 "register_access_timer" mod 16).
  { rewrite HT, mod16_of_mod32. fold t. lia. }
  assert (Hr1 : forall k, (k <= len - 1)%nat ->
                          truth (ins (S k) "reset_n") = true).
  { intros k Hk. apply Hr. lia. }
  split; [|lia]. split.
  - intros k Hk. destruct k as [|k]; [lia|].
    rewrite run_shift. fold s1.
    destruct (indicator_holds (fun k => ins (S k)) s1 (len - 1)%nat
                HP1 Hn Hr1 k) as (IP & _); [lia|].
    now rewrite IP.
  - replace (S len) with (S (S (len - 1))) by lia.
    rewrite run_shift. fold s1.
    now apply indicator_clears.
Qed.

Lemma C8_write_pending_window_witness :
  let st14 := run timing_fragment late_strobe 14
                  (init_state timing_fragment all_zero) in
  cycle timing_fragment (late_strobe 14%nat) st14 "register_write_pending" = 1
  /\ high_exactly (fun k => late_strobe (14 + k)) st14 1.
Proof.
  cbn zeta.
  pose proof (C8_write_pending_window (fun k => late_strobe (14 + k))
                (run timing_fragment late_strobe 14
                     (init_state timing_fragment all_zero))) as H.
  cbn zeta in H.
  destruct H as (_ & _ & H1 & H2 & _).
  - reflexivity.
  - reflexivity.
  - intros k _. reflexivity.
  - split; [exact H1 | exact H2].
Defined.

(* ================================================================== *)
(** ** The scenario: [ctrl] without a variance model                   *)
(* ================================================================== *)

Lemma ctrl_register_text (g : rng) :
  generate_register_logic [ctrl] None g
  = Ok (join nl (print_items ctrl_register_items), g).
Proof. reflexivity. Qed.

Lemma ctrl_read_text :
  generate_read_logic [ctrl] = Ok (join nl (print_items ctrl_read_items)).
Proof. reflexivity. Qed.

(** The next value and pending flag of [ctrl], by cases on the valuation
    at the edge. *)
Lemma ctrl_cycle (ins st : env) :
  let st' := cycle ctrl_register_items ins st in
  (st' "ctrl_reg", st' "ctrl_access_pending")
  = if negb (truth (ins "reset_n")) then (0, 0)
    else if strobe 0x30 ins
         then (ins "bar_wr_data" mod 2 ^ 32, st "ctrl_access_pending")
         else (st "ctrl_reg", st "ctrl_access_pending").
Proof.
  cbn zeta. unfold cycle.
  assert (Srst : sample ctrl_register_items ins st "reset_n" = ins "reset_n")
    by reflexivity.
  assert (Sen : sample ctrl_register_items ins st "bar_wr_en"
                = ins "bar_wr_en") by reflexivity.
  assert (Saddr : sample ctrl_register_items ins st "bar_addr"
                  = ins "bar_addr") by reflexivity.
  assert (Sdata : sample ctrl_register_items ins st "bar_wr_data"
                  = ins "bar_wr_data") by reflexivity.
  assert (SR : sample ctrl_register_items ins st "ctrl_reg" = st "ctrl_reg")
    by reflexivity.
  assert (SP : sample ctrl_register_items ins st "ctrl_access_pending"
               = st "ctrl_access_pending") by reflexivity.
  assert (WR : width_of ctrl_register_items "ctrl_reg" = 32) by reflexivity.
  set (cur := sample ctrl_register_items ins st) in *.
  set (W := width_of ctrl_register_items) in *.
  change (ff_edge W ctrl_register_items cur cur)
    with (exec W (write_block "ctrl" 0 0x30 None) cur
               (exec W global_timing_block cur cur)).
  unfold write_block, global_timing_block, b0, b1.
  cbn [exec eval]. rewrite !truth_of_bool, Srst, Sen, Saddr, Sdata.
  fold (strobe 0x30 ins).
  destruct (truth (ins "reset_n")); cbn [negb].
  2:{ cbn [exec eval]. unfold upd. cbn. rewrite ?WR. reflexivity. }
  destruct (truth (ins "bar_wr_en") && _);
    [|destruct (truth (cur "register_write_pending") && _)];
    destruct (strobe 48 ins); cbn [exec eval]; unfold upd; cbn;
    rewrite ?WR, ?SR, ?SP, ?Sdata; reflexivity.
Qed.

Lemma ctrl_holds (ins : nat -> env) (st : env) (n : nat) :
  quiet 0x30 ins n ->
  forall k, (k <= S n)%nat ->
            run ctrl_register_items ins k st "ctrl_reg" = st "ctrl_reg".
Proof.
  intros Hq k. induction k as [|k IH]; intros Hk; [reflexivity|].
  cbn [run].
  pose proof (ctrl_cycle (ins k) (run ctrl_register_items ins k st)) as H.
  cbn zeta in H. destruct (Hq k) as (Hr & Hs); [lia|].
  rewrite Hr, Hs in H. cbn [negb] in H. injection H as HR _.
  rewrite HR. apply IH. lia.
Qed.

Lemma ctrl_never_pending (ins : nat -> env) (n : nat) :
  run ctrl_register_items ins n (init_state ctrl_register_items all_zero)
      "ctrl_access_pending" = 0.
Proof.
  induction n as [|n IH]; [reflexivity|].
  cbn [run].
  pose proof (ctrl_cycle (ins n)
                (run ctrl_register_items ins n
                     (init_state ctrl_register_items all_zero))) as H.
  cbn zeta in H. rewrite IH in H.
  destruct (negb _); [|destruct (strobe _ _)]; now injection H.
Qed.

(** C7: for the register map holding [ctrl] alone and no variance model,
    the generated register and read logic are the printed trees.  The
    write half of the claim holds: a write of 0xDEADBEEF at address 0x30
    is stored at the edge of the strobe and kept by any number of edges
    without reset or further write; the pending flag of [ctrl] is never
    set, and no assignment setting it is emitted.  The read half fails on
    the code: the read case carries the entry
    [32'h00000020: bar_rd_data = 32'hADVANCED;], whose value is no
    hexadecimal number, so the case cannot be elaborated and no read, at
    0x30 or at any other address, returns a value. *)
Theorem C7_ctrl_same_cycle_write (g : rng) (ins st : env)
        (later : nat -> env) (n : nat) :
  truth (ins "reset_n") = true ->
  truth (ins "bar_wr_en") = true ->
  ins "bar_addr" = 0x30 ->
  ins "bar_wr_data" = 0xDEADBEEF ->
  quiet 0x30 later n ->
  let st' := cycle ctrl_register_items ins st in
  generate_register_logic [ctrl] None g
  = Ok (join nl (print_items ctrl_register_items), g)
  /\ generate_read_logic [ctrl] = Ok (join nl (print_items ctrl_read_items))
  /\ st' "ctrl_reg" = 0xDEADBEEF
  /\ contains (join nl (print_items ctrl_register_items))
              "access_pending <= 1'b1" = false
  /\ (forall (tr : nat -> env) (k : nat),
         run ctrl_register_items tr k
             (init_state ctrl_register_items all_zero)
             "ctrl_access_pending" = 0)
  /\ run ctrl_register_items later (S n) st' "ctrl_reg" = 0xDEADBEEF
  /\ contains (join nl (print_items ctrl_read_items))
              "32'h00000020: bar_rd_data = 32'hADVANCED;" = true
  /\ hex_number "ADVANCED" = false
  /\ (forall rho, read_data ctrl_read_items rho = None).
Proof.
  intros Hr Hw Ha Hd Hq st'.
  assert (Hst : st' "ctrl_reg" = 0xDEADBEEF).
  { pose proof (ctrl_cycle ins st) as H. cbn zeta in H.
    unfold strobe in H. rewrite Hr, Hw, Ha, Hd in H.
    now injection H. }
  split; [reflexivity|]. split; [reflexivity|].
  split; [exact Hst|].
  split; [vm_compute; reflexivity|].
  split; [intros; apply ctrl_never_pending|].
  split.
  { rewrite (ctrl_holds later st' n Hq (S n) (le_n _)). exact Hst. }
  split; [vm_compute; reflexivity|].
  split; [reflexivity|].
  intros rho. reflexivity.
Qed.

Lemma C7_ctrl_same_cycle_write_witness :
  let st' := cycle ctrl_register_items (bus 1 0x30 0xDEADBEEF)
                   (init_state ctrl_register_items all_zero) in
  st' "ctrl_reg" = 0xDEADBEEF
  /\ run ctrl_register_items (fun _ => bus 0 0x30 0) 3 st' "ctrl_reg"
     = 0xDEADBEEF
  /\ read_data ctrl_read_items
               (sample ctrl_register_items (bus 0 0x30 0)
                       (run ctrl_register_items (fun _ => bus 0 0x30 0) 3
                            st'))
     = None.
Proof.
  cbn zeta.
  pose proof (C7_ctrl_same_cycle_write (const_rng 0)
                (bus 1 0x30 0xDEADBEEF)
                (init_state ctrl_register_items all_zero)
                (fun _ => bus 0 0x30 0) 2
                eq_refl eq_refl eq_refl eq_refl) as H.
  cbn zeta in H. destruct H as (_ & _ & H1 & _ & _ & H2 & _ & _ & H3).
  - intros k _. split; reflexivity.
  - split; [exact H1|]. split; [exact H2 | apply H3].
Defined.

(* ================================================================== *)
(** ** Binary64 arithmetic on the reals                                *)
(* ================================================================== *)

(** *** Digits and shifts *)

Lemma pow2_succ (d : Z) : 0 <= d -> 2 ^ (d + 1) = 2 * 2 ^ d.
Proof. intros H. rewrite Z.pow_add_r by lia. change (2 ^ 1) with 2. lia. Qed.

Lemma digits2_pos_bounds (m : positive) :
  2 ^ (Zpos (digits2_pos m) - 1) <= Zpos m < 2 ^ Zpos (digits2_pos m).
Proof.
  induction m as [m IH|m IH|]; cbn [digits2_pos].
  - rewrite Pos2Z.inj_succ, Pos2Z.inj_xI.
    replace (Z.succ (Zpos (digits2_pos m)) - 1)
      with (Zpos (digits2_pos m) - 1 + 1) by lia.
    replace (Z.succ (Zpos (digits2_pos m)))
      with (Zpos (digits2_pos m) - 1 + 1 + 1) by lia.
    replace (Zpos (digits2_pos m))
      with (Zpos (digits2_pos m) - 1 + 1) in IH at 2 by lia.
    rewrite !pow2_succ in * by lia. lia.
  - rewrite Pos2Z.inj_succ, Pos2Z.inj_xO.
    replace (Z.succ (Zpos (digits2_pos m)) - 1)
      with (Zpos (digits2_pos m) - 1 + 1) by lia.
    replace (Z.succ (Zpos (digits2_pos m)))
      with (Zpos (digits2_pos m) - 1 + 1 + 1) by lia.
    replace (Zpos (digits2_pos m))
      with (Zpos (digits2_pos m) - 1 + 1) in IH at 2 by lia.
    rewrite !pow2_succ in * by lia. lia.
  - cbn. lia.
Qed.

Lemma iter_xO_value (m k : positive) :
  Zpos (Pos.iter xO m k) = Zpos m * 2 ^ Zpos k.
Proof.
  revert m. induction k as [|k IH] using Pos.peano_ind; intros m.
  - cbn. lia.
  - rewrite Pos.iter_succ, Pos2Z.inj_succ, Z.pow_succ_r by lia.
    rewrite Pos2Z.inj_xO, IH. lia.
Qed.

Lemma iter_xO_digits (m k : positive) :
  digits2_pos (Pos.iter xO m k) = (digits2_pos m + k)%positive.
Proof.
  revert m. induction k as [|k IH] using Pos.peano_ind; intros m.
  - cbn. lia.
  - rewrite Pos.iter_succ. cbn [digits2_pos]. rewrite IH. lia.
Qed.

Lemma shr_1_m (mrs : shr_record) :
  0 <= shr_m mrs -> shr_m (shr_1 mrs) = shr_m mrs / 2.
Proof.
  destruct mrs as [m r s]. cbn [shr_m shr_1]. intros H.
  destruct m as [|p|p]; [reflexivity| |lia].
  destruct p as [p|p|]; cbn [shr_m].
  - rewrite Pos2Z.inj_xI. apply Z.div_unique with 1; lia.
  - rewrite Pos2Z.inj_xO. apply Z.div_unique with 0; lia.
  - reflexivity.
Qed.

Lemma iter_pos_shr_m (p : positive) (mrs : shr_record) :
  0 <= shr_m mrs ->
  shr_m (SpecFloat.iter_pos shr_1 p mrs) = shr_m mrs / 2 ^ Zpos p.
Proof.
  revert mrs. induction p as [p IH|p IH|]; intros mrs H;
    cbn [SpecFloat.iter_pos].
  - assert (H1 : 0 <= shr_m (shr_1 mrs)).
    { rewrite shr_1_m by assumption. apply Z.div_pos; lia. }
    assert (H2 : 0 <= shr_m (SpecFloat.iter_pos shr_1 p (shr_1 mrs))).
    { rewrite IH by assumption. apply Z.div_pos; lia. }
    rewrite IH, IH, shr_1_m by assumption.
    rewrite !Z.div_div by lia. f_equal.
    replace (Zpos p~1) with (1 + Zpos p + Zpos p) by lia.
    rewrite !Z.pow_add_r by lia. change (2 ^ 1) with 2. lia.
  - assert (H2 : 0 <= shr_m (SpecFloat.iter_pos shr_1 p mrs)).
    { rewrite IH by assumption. apply Z.div_pos; lia. }
    rewrite IH, IH by assumption.
    rewrite !Z.div_div by lia. f_equal.
    replace (Zpos p~0) with (Zpos p + Zpos p) by lia.
    rewrite !Z.pow_add_r by lia. lia.
  - rewrite shr_1_m by assumption. reflexivity.
Qed.

Lemma round_nearest_even_cases (m : Z) (l : location) :
  round_nearest_even m l = m \/ round_nearest_even m l = m + 1.
Proof.
  destruct l as [|[| |]]; cbn [round_nearest_even]; auto.
  destruct (Z.even m); auto.
Qed.

Section Enclosures.

Local Open Scope R_scope.

(** *** Powers of two *)

Lemma bpow_pos (e : Z) : 0 < bpow e.
Proof. apply powerRZ_lt. lra. Qed.

Lemma bpow_add (a b : Z) : bpow (a + b) = bpow a * bpow b.
Proof. apply powerRZ_add. lra. Qed.

Lemma bpow_IZR (n : Z) : (0 <= n)%Z -> bpow n = IZR (2 ^ n).
Proof.
  intros H. unfold bpow.
  rewrite <- (Z2Nat.id n H) at 1. rewrite <- pow_powerRZ.
  rewrite pow_IZR. now rewrite Z2Nat.id.
Qed.

Lemma bpow_ge_1 (n : Z) : (0 <= n)%Z -> 1 <= bpow n.
Proof.
  intros H. rewrite bpow_IZR by assumption. apply IZR_le.
  assert (0 < 2 ^ n)%Z by (apply Z.pow_pos_nonneg; lia). lia.
Qed.

Lemma bpow_le (a b : Z) : (a <= b)%Z -> bpow a <= bpow b.
Proof.
  intros H. replace b with (a + (b - a))%Z by lia. rewrite bpow_add.
  pose proof (bpow_pos a). pose proof (bpow_ge_1 (b - a) ltac:(lia)). nra.
Qed.

Lemma bpow_lt_inv (a b : Z) : bpow a < bpow b -> (a < b)%Z.
Proof.
  intros H. destruct (Z_lt_le_dec a b) as [L|L]; [assumption|].
  apply bpow_le in L. lra.
Qed.

Lemma bpow_succ (a : Z) : bpow (a + 1) = 2 * bpow a.
Proof.
  rewrite bpow_add. replace (bpow 1) with 2; [lra|].
  unfold bpow. symmetry. apply (powerRZ_1 2).
Qed.

(** Division by a power of two, on the reals. *)
Lemma div_pow2_enclosure (m e n : Z) :
  (0 <= m)%Z -> (0 < n)%Z ->
  IZR (m / 2 ^ n) * bpow (e + n) <= IZR m * bpow e
  /\ IZR m * bpow e < (IZR (m / 2 ^ n) + 1) * bpow (e + n).
Proof.
  intros Hm Hn.
  assert (Hp : (0 < 2 ^ n)%Z) by (apply Z.pow_pos_nonneg; lia).
  pose proof (Z.mul_div_le m (2 ^ n) Hp) as H1.
  pose proof (Z.mul_succ_div_gt m (2 ^ n) Hp) as H2.
  rewrite bpow_add, (bpow_IZR n) by lia.
  apply IZR_le in H1. apply IZR_lt in H2.
  rewrite mult_IZR in H1. rewrite mult_IZR, succ_IZR in H2.
  pose proof (bpow_pos e). split; nra.
Qed.

Lemma Zdigits2_bounds (m : Z) :
  (0 < m)%Z -> (2 ^ (Zdigits2 m - 1) <= m < 2 ^ Zdigits2 m)%Z.
Proof.
  destruct m as [|p|p]; try lia. intros _. apply digits2_pos_bounds.
Qed.

Lemma Zdigits2_nonneg (m : Z) : (0 <= Zdigits2 m)%Z.
Proof. destruct m; cbn; lia. Qed.

Lemma Zdigits2_le (m k : Z) :
  (0 <= m)%Z -> (0 <= k)%Z -> (m < 2 ^ k)%Z -> (Zdigits2 m <= k)%Z.
Proof.
  intros Hm Hk H. destruct (Z.eq_dec m 0) as [->|Hz]; [cbn; lia|].
  destruct (Zdigits2_bounds m) as [L _]; [lia|].
  destruct (Z_le_gt_dec (Zdigits2 m) k) as [?|G]; [assumption|exfalso].
  assert (2 ^ k <= 2 ^ (Zdigits2 m - 1))%Z by (apply Z.pow_le_mono_r; lia).
  lia.
Qed.

Lemma fexp_mono (a b : Z) :
  (a <= b)%Z -> (fexp prec emax a <= fexp prec emax b)%Z.
Proof. unfold fexp. lia. Qed.

Lemma fexp_succ (a : Z) :
  (fexp prec emax (a + 1) <= fexp prec emax a + 1)%Z.
Proof. unfold fexp. lia. Qed.

(** [shr_fexp] on an exact input. *)
Lemma shr_fexp_spec (m e : Z) :
  (0 <= m)%Z ->
  let mrs := fst (shr_fexp prec emax m e loc_Exact) in
  let e' := snd (shr_fexp prec emax m e loc_Exact) in
  ((fexp prec emax (Zdigits2 m + e) <= e)%Z
   /\ e' = e /\ shr_m mrs = m /\ loc_of_shr_record mrs = loc_Exact)
  \/ ((e < e')%Z /\ e' = fexp prec emax (Zdigits2 m + e)
      /\ shr_m mrs = (m / 2 ^ (e' - e))%Z).
Proof.
  intros Hm. unfold shr_fexp, shr. cbn [shr_record_of_loc].
  destruct (fexp prec emax (Zdigits2 m + e) - e)%Z as [|p|p] eqn:E;
    cbn [fst snd].
  - left. split; [lia|auto].
  - right. split; [lia|]. split; [lia|].
    rewrite iter_pos_shr_m by (cbn; assumption). cbn [shr_m].
    f_equal. f_equal. lia.
  - left. split; [lia|auto].
Qed.

Lemma div_pow2_digits (m d n : Z) :
  (0 <= m < 2 ^ d)%Z -> (0 <= d)%Z -> (0 < n)%Z ->
  (m / 2 ^ n + 1 <= 2 ^ Z.max (d - n) 0)%Z.
Proof.
  intros Hm Hd Hn.
  assert (Hp : (0 < 2 ^ n)%Z) by (apply Z.pow_pos_nonneg; lia).
  destruct (Z_le_gt_dec n d) as [L|G].
  - rewrite Z.max_l by lia.
    assert (m / 2 ^ n < 2 ^ (d - n))%Z; [|lia].
    apply Z.div_lt_upper_bound; [assumption|].
    rewrite <- Z.pow_add_r by lia. replace (n + (d - n))%Z with d by lia.
    lia.
  - rewrite Z.max_r by lia. change (2 ^ 0)%Z with 1%Z.
    rewrite Z.div_small; [lia|]. split; [lia|].
    assert (2 ^ d <= 2 ^ n)%Z by (apply Z.pow_le_mono_r; lia). lia.
Qed.

Lemma round_core (sx : bool) (mx ex : Z) :
  (0 <= mx)%Z -> (Zdigits2 mx + ex <= 1023)%Z -> (ex <= 971)%Z ->
  exists m3 e3,
    (0 <= m3)%Z /\ (e3 <= 971)%Z
    /\ binary_round_aux prec emax sx mx ex loc_Exact = of_shr sx m3 e3
    /\ abs_le (IZR m3 * bpow e3 - IZR mx * bpow ex)
         (3 * bpow (fexp prec emax (Zdigits2 mx + ex))).
Proof.
  intros Hm Hd He.
  pose proof (bpow_pos (fexp prec emax (Zdigits2 mx + ex))) as HposE.
  unfold binary_round_aux.
  pose proof (shr_fexp_spec mx ex Hm) as S1.
  destruct (shr_fexp prec emax mx ex loc_Exact) as [mrs1 e1].
  cbn [fst snd] in S1.
  destruct S1 as [(LE & -> & M1 & L1)|(LT & E1 & M1)].
  - (* the mantissa already fits *)
    rewrite M1, L1. cbn [round_nearest_even].
    pose proof (shr_fexp_spec mx ex Hm) as S2.
    destruct (shr_fexp prec emax mx ex loc_Exact) as [mrs2 e2].
    cbn [fst snd] in S2.
    destruct S2 as [(_ & -> & M2 & _)|(LT & E2 & _)]; [|lia].
    exists mx, ex. rewrite M2. split; [assumption|]. split; [assumption|].
    split.
    + destruct mx as [|p|p]; cbn [of_shr]; try reflexivity; try lia.
      replace (ex <=? emax - prec)%Z with true; [reflexivity|].
      symmetry. apply Z.leb_le. exact He.
    + unfold abs_le. lra.
  - (* digits are dropped *)
    set (E := fexp prec emax (Zdigits2 mx + ex)) in *.
    assert (HE : (E <= 970)%Z) by (unfold E, fexp, SpecFloat.emin, emax, prec; lia).
    assert (HEmin : (SpecFloat.emin prec emax <= E)%Z) by (unfold E, fexp; lia).
    subst e1.
    set (m1 := shr_m mrs1) in *.
    assert (Hm1 : (0 <= m1)%Z).
    { rewrite M1. apply Z.div_pos; [assumption|].
      apply Z.pow_pos_nonneg; lia. }
    set (m2 := round_nearest_even m1 (loc_of_shr_record mrs1)).
    assert (Hm2 : (m2 = m1 \/ m2 = m1 + 1)%Z)
      by apply round_nearest_even_cases.
    assert (Hm2pos : (0 <= m2)%Z) by lia.
    (* first rounding *)
    destruct (div_pow2_enclosure mx ex (E - ex) Hm ltac:(lia)) as [A1 A2].
    replace (ex + (E - ex))%Z with E in A1, A2 by lia.
    rewrite <- M1 in A1, A2.
    assert (B1 : abs_le (IZR m2 * bpow E - IZR mx * bpow ex) (bpow E)).
    { unfold abs_le.
      destruct Hm2 as [->| ->]; [|rewrite plus_IZR]; split; lra. }
    (* digits of the rounded mantissa *)
    assert (D2 : (Zdigits2 m2 + E <= Z.max (Zdigits2 mx + ex) E + 1)%Z).
    { destruct (Z.eq_dec mx 0) as [Z0|NZ].
      - assert (m1 = 0)%Z by (rewrite M1, Z0; apply Z.div_0_l;
          apply Z.pow_nonzero; lia).
        assert (Zdigits2 m2 <= 1)%Z
          by (apply Zdigits2_le; [lia|lia|change (2 ^ 1)%Z with 2%Z; lia]).
        lia.
      - destruct (Zdigits2_bounds mx ltac:(lia)) as [_ U].
        pose proof (Zdigits2_nonneg mx) as N.
        pose proof (div_pow2_digits mx (Zdigits2 mx) (E - ex)
                      ltac:(lia) N ltac:(lia)) as Q.
        rewrite <- M1 in Q.
        assert (Zdigits2 m2 <= Z.max (Zdigits2 mx - (E - ex)) 0 + 1)%Z.
        { apply Zdigits2_le; [lia|lia|].
          rewrite pow2_succ by lia. lia. }
        lia. }
    pose proof (shr_fexp_spec m2 E Hm2pos) as S2.
    destruct (shr_fexp prec emax m2 E loc_Exact) as [mrs2 e2].
    cbn [fst snd] in S2.
    destruct S2 as [(_ & -> & M2 & _)|(LT2 & E2 & M2)].
    + exists m2, E. rewrite M2. split; [assumption|]. split; [lia|]. split.
      * destruct m2 as [|p|p]; cbn [of_shr]; try reflexivity; try lia.
        replace (E <=? emax - prec)%Z with true; [reflexivity|].
        symmetry. apply Z.leb_le. unfold emax, prec. lia.
      * unfold abs_le in *. lra.
    + assert (H3 : (e2 <= E + 1)%Z).
      { rewrite E2.
        pose proof (fexp_mono _ _ D2) as F.
        unfold E, fexp, SpecFloat.emin, emax, prec in *. lia. }
      assert (Hm3 : (0 <= shr_m mrs2)%Z).
      { rewrite M2. apply Z.div_pos; [assumption|].
        apply Z.pow_pos_nonneg; lia. }
      exists (shr_m mrs2), e2. split; [assumption|]. split; [lia|]. split.
      * destruct (shr_m mrs2) as [|p|p]; cbn [of_shr];
          try reflexivity; try lia.
        replace (e2 <=? emax - prec)%Z with true; [reflexivity|].
        symmetry. apply Z.leb_le. unfold emax, prec. lia.
      * destruct (div_pow2_enclosure m2 E (e2 - E) Hm2pos ltac:(lia))
          as [C1 C2].
        replace (E + (e2 - E))%Z with e2 in C1, C2 by lia.
        rewrite <- M2 in C1, C2.
        assert (bpow e2 <= 2 * bpow E).
        { rewrite <- bpow_succ. apply bpow_le. lia. }
        unfold abs_le in *. split; lra.
Qed.

(** *** Enclosures of the rounded operations *)

Lemma SF2R_of_shr (sx : bool) (m e : Z) :
  (0 <= m)%Z ->
  finite_SF (of_shr sx m e) = true
  /\ SF2R (of_shr sx m e) = sgn sx * (IZR m * bpow e).
Proof.
  intros H. destruct m as [|p|p]; [| |lia]; cbn [of_shr finite_SF SF2R].
  - split; [reflexivity|]. lra.
  - split; [reflexivity|]. destruct sx; cbn [sgn]; lra.
Qed.

Lemma ulp_bound (mx ex : Z) :
  (0 < mx)%Z ->
  bpow (fexp prec emax (Zdigits2 mx + ex))
  <= IZR mx * bpow ex * bpow (-52) + bpow (-1074).
Proof.
  intros H. destruct (Zdigits2_bounds mx H) as [L _].
  pose proof (Zdigits2_nonneg mx) as N.
  assert (D : (1 <= Zdigits2 mx)%Z) by (destruct mx; cbn in *; lia).
  pose proof (bpow_pos ex). pose proof (bpow_pos (-52)).
  pose proof (bpow_pos (-1074)).
  assert (P : 0 < IZR mx) by (apply IZR_lt; lia).
  unfold fexp, SpecFloat.emin, emax, prec.
  apply Z.max_case_strong; intros _.
  - replace (Zdigits2 mx + ex - 53)%Z
      with ((Zdigits2 mx - 1) + ex + (-52))%Z by lia.
    rewrite !bpow_add. rewrite (bpow_IZR (Zdigits2 mx - 1)) by lia.
    apply IZR_le in L.
    assert (IZR (2 ^ (Zdigits2 mx - 1)) * bpow ex * bpow (-52)
            <= IZR mx * bpow ex * bpow (-52)).
    { apply Rmult_le_compat_r; [lra|]. apply Rmult_le_compat_r; lra. }
    lra.
  - change (3 - 1024 - 53)%Z with (-1074)%Z.
    assert (0 <= IZR mx * bpow ex * bpow (-52)).
    { apply Rmult_le_pos; [apply Rmult_le_pos|]; lra. }
    lra.
Qed.

Lemma digits_of_bound (mx ex k : Z) :
  (0 < mx)%Z -> IZR mx * bpow ex < bpow k -> (Zdigits2 mx + ex <= k)%Z.
Proof.
  intros H B. destruct (Zdigits2_bounds mx H) as [L _].
  assert (D : (1 <= Zdigits2 mx)%Z) by (destruct mx; cbn in *; lia).
  pose proof (bpow_pos ex).
  apply IZR_le in L. rewrite <- bpow_IZR in L by lia.
  assert (bpow (Zdigits2 mx - 1 + ex) < bpow k).
  { rewrite bpow_add.
    apply Rle_lt_trans with (IZR mx * bpow ex); [|assumption].
    apply Rmult_le_compat_r; lra. }
  apply bpow_lt_inv in H1. lia.
Qed.

Lemma err_mono (a b : R) : a <= b -> err a <= err b.
Proof.
  intros H. unfold err. pose proof (bpow_pos (-52)).
  assert (a * bpow (-52) <= b * bpow (-52))
    by (apply Rmult_le_compat_r; lra).
  lra.
Qed.

Lemma binary_round_aux_enclosure (sx : bool) (mx ex : Z) (B : R) :
  (0 < mx)%Z -> (ex <= 971)%Z ->
  IZR mx * bpow ex <= B -> B < bpow 1023 ->
  finite_SF (binary_round_aux prec emax sx mx ex loc_Exact) = true
  /\ abs_le (SF2R (binary_round_aux prec emax sx mx ex loc_Exact)
              - sgn sx * (IZR mx * bpow ex)) (err B).
Proof.
  intros Hm He HB HB'.
  assert (D : (Zdigits2 mx + ex <= 1023)%Z).
  { apply digits_of_bound; [assumption|lra]. }
  destruct (round_core sx mx ex ltac:(lia) D He)
    as (m3 & e3 & P3 & _ & -> & E).
  destruct (SF2R_of_shr sx m3 e3 P3) as [F ->]. split; [assumption|].
  pose proof (ulp_bound mx ex Hm) as U.
  pose proof (err_mono _ _ HB) as M. unfold err in M.
  unfold abs_le, err in *. destruct sx; cbn [sgn]; lra.
Qed.

Lemma shl_align_spec (mx : positive) (ex e' : Z) :
  snd (shl_align mx ex e') = Z.min ex e'
  /\ IZR (Zpos (fst (shl_align mx ex e'))) * bpow (snd (shl_align mx ex e'))
     = IZR (Zpos mx) * bpow ex.
Proof.
  unfold shl_align.
  destruct (e' - ex)%Z as [|p|p] eqn:E; cbn [fst snd].
  - split; [lia|reflexivity].
  - split; [lia|reflexivity].
  - split; [lia|]. rewrite iter_xO_value, mult_IZR.
    rewrite <- bpow_IZR by lia.
    replace (bpow ex) with (bpow (Zpos p) * bpow e'); [ring|].
    rewrite <- bpow_add. f_equal. lia.
Qed.

Lemma binary_round_enclosure (sx : bool) (mx : positive) (ex : Z) (B : R) :
  IZR (Zpos mx) * bpow ex <= B -> B < bpow 1023 ->
  finite_SF (binary_round prec emax sx mx ex) = true
  /\ abs_le (SF2R (binary_round prec emax sx mx ex)
              - sgn sx * (IZR (Zpos mx) * bpow ex)) (err B).
Proof.
  intros HB HB'. unfold binary_round.
  assert (D : (Zdigits2 (Zpos mx) + ex <= 1023)%Z).
  { apply digits_of_bound; [lia|lra]. }
  cbn [Zdigits2] in D.
  destruct (shl_align_spec mx ex
              (fexp prec emax (Zpos (digits2_pos mx) + ex))) as [S V].
  destruct (shl_align mx ex (fexp prec emax (Zpos (digits2_pos mx) + ex)))
    as [mz ez]. cbn [fst snd] in S, V.
  rewrite <- V.
  apply binary_round_aux_enclosure; [lia| |lra|assumption].
  rewrite S. unfold fexp, SpecFloat.emin, emax, prec. lia.
Qed.

Lemma binary_normalize_enclosure (m e : Z) (s : bool) (B : R) :
  abs_le (IZR m * bpow e) B -> B < bpow 1023 ->
  finite_SF (binary_normalize prec emax m e s) = true
  /\ abs_le (SF2R (binary_normalize prec emax m e s) - IZR m * bpow e)
       (err B).
Proof.
  intros HB HB'. unfold abs_le in HB.
  assert (P : 0 <= err B).
  { assert (0 <= B) by lra. unfold err.
    pose proof (bpow_pos (-52)). pose proof (bpow_pos (-1074)).
    assert (0 <= B * bpow (-52)) by (apply Rmult_le_pos; lra). lra. }
  destruct m as [|p|p]; cbn [binary_normalize].
  - split; [reflexivity|]. cbn [SF2R]. unfold abs_le. lra.
  - destruct (binary_round_enclosure false p e B) as [F E];
      [lra|assumption|].
    split; [assumption|]. unfold abs_le, sgn in *. lra.
  - change (IZR (Zneg p)) with (- IZR (Zpos p)) in *.
    destruct (binary_round_enclosure true p e B) as [F E];
      [lra|assumption|].
    split; [assumption|]. unfold abs_le, sgn in *. lra.
Qed.

Lemma err_nonneg (B : R) : 0 <= B -> 0 <= err B.
Proof.
  intros H. unfold err.
  pose proof (bpow_pos (-52)). pose proof (bpow_pos (-1074)).
  assert (0 <= B * bpow (-52)) by (apply Rmult_le_pos; lra). lra.
Qed.

Lemma exact_enclosure (X B : R) : abs_le X B -> abs_le (X - X) (err B).
Proof.
  intros H. unfold abs_le in *.
  pose proof (err_nonneg B ltac:(lra)). lra.
Qed.

Lemma valid_finite (s : bool) (m : positive) (e : Z) :
  SpecFloat.valid_binary prec emax (S754_finite s m e) = true ->
  (e <= 971)%Z /\ (e = -1074 \/ Zpos (digits2_pos m) = 53)%Z
  /\ (Zpos (digits2_pos m) <= 53)%Z.
Proof.
  cbn [SpecFloat.valid_binary]. unfold bounded, canonical_mantissa.
  intros H. apply andb_true_iff in H. destruct H as [C L].
  apply Z.eqb_eq in C. apply Z.leb_le in L.
  unfold fexp, SpecFloat.emin, emax, prec in *. lia.
Qed.

Lemma SF2R_finite (s : bool) (m : positive) (e : Z) :
  SF2R (S754_finite s m e) = sgn s * (IZR (Zpos m) * bpow e).
Proof. cbn [SF2R]. destruct s; cbn [sgn]; lra. Qed.

Lemma sgn_xorb (a b : bool) : sgn (xorb a b) = sgn a * sgn b.
Proof. destruct a, b; cbn; lra. Qed.

Lemma mantissa_bpow_nonneg (m : positive) (e : Z) :
  0 < IZR (Zpos m) * bpow e.
Proof.
  apply Rmult_lt_0_compat; [apply IZR_lt; lia|apply bpow_pos].
Qed.

Lemma SFmul_enclosure (x y : spec_float) (B : R) :
  SpecFloat.valid_binary prec emax x = true -> SpecFloat.valid_binary prec emax y = true ->
  finite_SF x = true -> finite_SF y = true ->
  abs_le (SF2R x * SF2R y) B -> B < bpow 1023 ->
  finite_SF (SFmul prec emax x y) = true
  /\ abs_le (SF2R (SFmul prec emax x y) - SF2R x * SF2R y) (err B).
Proof.
  intros Vx Vy Fx Fy HB HB'.
  destruct x as [sx|sx| |sx mx ex]; try discriminate;
    destruct y as [sy|sy| |sy my ey]; try discriminate;
    cbn [SFmul];
    try (split; [reflexivity|];
         cbn [SF2R] in *; rewrite ?Rmult_0_l, ?Rmult_0_r in *;
         apply exact_enclosure; assumption).
  rewrite !SF2R_finite in *.
  set (P := IZR (Zpos (mx * my)) * bpow (ex + ey)).
  assert (EP : sgn sx * (IZR (Zpos mx) * bpow ex)
               * (sgn sy * (IZR (Zpos my) * bpow ey))
               = sgn (xorb sx sy) * P).
  { unfold P. rewrite sgn_xorb, Pos2Z.inj_mul, mult_IZR, bpow_add. ring. }
  rewrite EP in *.
  assert (PP : 0 < P) by apply mantissa_bpow_nonneg.
  assert (PB : P <= B).
  { unfold abs_le in HB. destruct (xorb sx sy); cbn [sgn] in HB; lra. }
  apply binary_round_aux_enclosure; [lia| |exact PB|exact HB'].
  destruct (valid_finite _ _ _ Vx) as [Lx Cx].
  destruct (valid_finite _ _ _ Vy) as [Ly Cy].
  destruct (Z_le_gt_dec (ex + ey) 971) as [?|G]; [assumption|exfalso].
  assert (Dx : Zpos (digits2_pos mx) = 53%Z) by lia.
  assert (Dy : Zpos (digits2_pos my) = 53%Z) by lia.
  pose proof (digits2_pos_bounds mx) as Bx. rewrite Dx in Bx.
  pose proof (digits2_pos_bounds my) as By. rewrite Dy in By.
  assert (D : (Zdigits2 (Zpos (mx * my)) + (ex + ey) <= 1023)%Z).
  { apply digits_of_bound; [lia|]. fold P. lra. }
  destruct (Zdigits2_bounds (Zpos (mx * my)) ltac:(lia)) as [_ U].
  rewrite Pos2Z.inj_mul in U.
  assert (2 ^ 104 <= Zpos mx * Zpos my)%Z.
  { change (2 ^ 104)%Z with (2 ^ (53 - 1) * 2 ^ (53 - 1))%Z.
    apply Z.mul_le_mono_nonneg; lia. }
  assert (104 < Zdigits2 (Zpos (mx * my)))%Z.
  { apply (Z.pow_lt_mono_r_iff 2); [lia|apply Zdigits2_nonneg|].
    rewrite Pos2Z.inj_mul. lia. }
  lia.
Qed.

Lemma cond_Zopp_IZR (s : bool) (m : Z) :
  IZR (cond_Zopp s m) = sgn s * IZR m.
Proof. destruct s; cbn [cond_Zopp sgn]; rewrite ?opp_IZR; lra. Qed.

Lemma aligned_value (s : bool) (m : positive) (e ez : Z) :
  (ez <= e)%Z ->
  IZR (cond_Zopp s (Zpos (fst (shl_align m e ez)))) * bpow ez
  = SF2R (S754_finite s m e).
Proof.
  intros H. rewrite SF2R_finite, cond_Zopp_IZR.
  destruct (shl_align_spec m e ez) as [S V].
  rewrite S, Z.min_r in V by assumption. rewrite <- V. ring.
Qed.

Lemma SFadd_enclosure (x y : spec_float) (B : R) :
  finite_SF x = true -> finite_SF y = true ->
  abs_le (SF2R x + SF2R y) B -> B < bpow 1023 ->
  finite_SF (SFadd prec emax x y) = true
  /\ abs_le (SF2R (SFadd prec emax x y) - (SF2R x + SF2R y)) (err B).
Proof.
  intros Fx Fy HB HB'.
  destruct x as [sx|sx| |sx mx ex]; try discriminate;
    destruct y as [sy|sy| |sy my ey]; try discriminate;
    cbn [SFadd].
  - assert (Z : forall s, finite_SF (S754_zero s) = true
                          /\ abs_le (SF2R (S754_zero s)
                               - (SF2R (S754_zero sx) + SF2R (S754_zero sy)))
                               (err B)).
    { intros s. split; [reflexivity|]. cbn [SF2R] in *.
      replace (0 - (0 + 0)) with (0 + 0 - (0 + 0)) by ring.
      apply exact_enclosure. assumption. }
    destruct sx, sy; apply Z.
  - split; [reflexivity|].
    replace (SF2R (S754_zero sx) + SF2R (S754_finite sy my ey))
      with (SF2R (S754_finite sy my ey)) in * by (cbn [SF2R]; ring).
    apply exact_enclosure. assumption.
  - split; [reflexivity|].
    replace (SF2R (S754_finite sx mx ex) + SF2R (S754_zero sy))
      with (SF2R (S754_finite sx mx ex)) in * by (cbn [SF2R]; ring).
    apply exact_enclosure. assumption.
  - cbv zeta.
    rewrite <- (aligned_value sx mx ex (Z.min ex ey)) in * by lia.
    rewrite <- (aligned_value sy my ey (Z.min ex ey)) in * by lia.
    rewrite <- Rmult_plus_distr_r, <- plus_IZR in *.
    apply binary_normalize_enclosure; assumption.
Qed.

Lemma SFsub_enclosure (x y : spec_float) (B : R) :
  finite_SF x = true -> finite_SF y = true ->
  abs_le (SF2R x - SF2R y) B -> B < bpow 1023 ->
  finite_SF (SFsub prec emax x y) = true
  /\ abs_le (SF2R (SFsub prec emax x y) - (SF2R x - SF2R y)) (err B).
Proof.
  intros Fx Fy HB HB'.
  destruct x as [sx|sx| |sx mx ex]; try discriminate;
    destruct y as [sy|sy| |sy my ey]; try discriminate;
    cbn [SFsub].
  - assert (Z : forall s, finite_SF (S754_zero s) = true
                          /\ abs_le (SF2R (S754_zero s)
                               - (SF2R (S754_zero sx) - SF2R (S754_zero sy)))
                               (err B)).
    { intros s. split; [reflexivity|]. cbn [SF2R] in *.
      replace (0 - (0 - 0)) with (0 - 0 - (0 - 0)) by ring.
      apply exact_enclosure. assumption. }
    destruct sx, sy; apply Z.
  - split; [reflexivity|].
    replace (SF2R (S754_zero sx) - SF2R (S754_finite sy my ey))
      with (SF2R (S754_finite (negb sy) my ey)) in *
      by (cbn [SF2R]; destruct sy; cbn [negb]; ring).
    apply exact_enclosure. assumption.
  - split; [reflexivity|].
    replace (SF2R (S754_finite sx mx ex) - SF2R (S754_zero sy))
      with (SF2R (S754_finite sx mx ex)) in * by (cbn [SF2R]; ring).
    apply exact_enclosure. assumption.
  - cbv zeta.
    rewrite <- (aligned_value sx mx ex (Z.min ex ey)) in * by lia.
    rewrite <- (aligned_value sy my ey (Z.min ex ey)) in * by lia.
    rewrite <- Rmult_minus_distr_r, <- minus_IZR in *.
    apply binary_normalize_enclosure; assumption.
Qed.

(** *** Primitive floats *)

Lemma mul_enclosure (x y : float) (B : R) :
  finite x = true -> finite y = true ->
  abs_le (F2R x * F2R y) B -> B < bpow 1023 ->
  finite (x * y) = true
  /\ abs_le (F2R (x * y) - F2R x * F2R y) (err B).
Proof.
  unfold finite, F2R. rewrite mul_spec.
  apply SFmul_enclosure; apply Prim2SF_valid.
Qed.

Lemma add_enclosure (x y : float) (B : R) :
  finite x = true -> finite y = true ->
  abs_le (F2R x + F2R y) B -> B < bpow 1023 ->
  finite (x + y) = true
  /\ abs_le (F2R (x + y) - (F2R x + F2R y)) (err B).
Proof. unfold finite, F2R. rewrite add_spec. apply SFadd_enclosure. Qed.

Lemma sub_enclosure (x y : float) (B : R) :
  finite x = true -> finite y = true ->
  abs_le (F2R x - F2R y) B -> B < bpow 1023 ->
  finite (x - y) = true
  /\ abs_le (F2R (x - y) - (F2R x - F2R y)) (err B).
Proof. unfold finite, F2R. rewrite sub_spec. apply SFsub_enclosure. Qed.

Lemma bpow_neg (n : Z) : (0 <= n)%Z -> bpow (- n) = / IZR (2 ^ n).
Proof.
  intros H. unfold bpow. rewrite powerRZ_neg'. f_equal.
  now apply bpow_IZR.
Qed.

Lemma compare_cont_lt (m q : positive) :
  match Pos.compare_cont Eq m q with Lt => true | _ => false end = true ->
  (Zpos m < Zpos q)%Z.
Proof.
  change (Pos.compare_cont Eq m q) with (Pos.compare m q).
  destruct (Pos.compare_spec m q); try discriminate. lia.
Qed.

(** A draw of [random.random()]: a float of the unit interval. *)
Lemma unit_interval (r : float) :
  (0 <=? r)%float = true -> (r <? 1)%float = true ->
  finite r = true /\ 0 <= F2R r < 1.
Proof.
  rewrite leb_spec, ltb_spec. unfold finite, F2R.
  change (Prim2SF 0) with (S754_zero false).
  change (Prim2SF 1) with (S754_finite false 4503599627370496 (-52)).
  pose proof (Prim2SF_valid r) as V.
  destruct (Prim2SF r) as [s|s| |s m e]; cbn [finite_SF SF2R].
  - intros _ _. split; [reflexivity|lra].
  - unfold SFleb, SFltb. cbn [SFcompare]. destruct s; discriminate.
  - discriminate.
  - unfold SFleb, SFltb. cbn [SFcompare].
    destruct s; [discriminate|]. intros _ L. split; [reflexivity|].
    pose proof (mantissa_bpow_nonneg m e). split; [lra|].
    destruct (valid_finite _ _ _ V) as (_ & _ & D).
    pose proof (digits2_pos_bounds m) as [_ U].
    assert (Zpos m < 2 ^ 53)%Z.
    { eapply Z.lt_le_trans; [exact U|]. apply Z.pow_le_mono_r; lia. }
    destruct (Z.compare_spec e (-52)) as [->|Lt|Gt]; [| |discriminate L].
    + assert (Zpos m < 4503599627370496)%Z.
      { exact (compare_cont_lt _ _ L). }
      change (-52)%Z with (- (52))%Z. rewrite bpow_neg by lia.
      replace (2 ^ 52)%Z with 4503599627370496%Z by reflexivity.
      apply IZR_lt in H1. lra.
    + assert (bpow e <= bpow (-53)) by (apply bpow_le; lia).
      change (-53)%Z with (- (53))%Z in H1. rewrite bpow_neg in H1 by lia.
      replace (2 ^ 53)%Z with 9007199254740992%Z in * by reflexivity.
      apply IZR_lt in H0.
      assert (IZR (Zpos m) * bpow e
              <= IZR (Zpos m) * / 9007199254740992).
      { apply Rmult_le_compat_l; [|assumption]. apply IZR_le. lia. }
      lra.
Qed.

Lemma float_of_int_spec (v : Z) (B : R) :
  (0 <= v < 2 ^ 63)%Z -> IZR v <= B -> B < bpow 1023 ->
  exists x, float_of_int v = Ok x /\ finite x = true
            /\ abs_le (F2R x - IZR v) (err B).
Proof.
  intros Hv HB HB'. exists (of_uint63 (Uint63.of_Z v)).
  assert (E : Prim2SF (of_uint63 (Uint63.of_Z v))
              = binary_normalize prec emax v 0 false).
  { rewrite of_uint63_spec. f_equal.
    change (Uint63Axioms.to_Z (Uint63.of_Z v))
      with (Uint63.to_Z (Uint63.of_Z v)).
    rewrite Uint63.of_Z_spec. apply Z.mod_small.
    change Uint63.wB with (2 ^ 63)%Z. lia. }
  destruct (binary_normalize_enclosure v 0 false B) as [F N];
    [|assumption|].
  { unfold abs_le. change (bpow 0) with 1.
    assert (0 <= IZR v) by (apply IZR_le; lia). lra. }
  change (bpow 0) with 1 in N. rewrite Rmult_1_r in N.
  unfold finite, F2R. rewrite E. split; [|split; assumption].
  unfold float_of_int. rewrite <- E in *.
  rewrite <- (SF2Prim_Prim2SF (of_uint63 (Uint63.of_Z v))) at 2.
  destruct (Prim2SF (of_uint63 (Uint63.of_Z v))); try reflexivity.
  discriminate F.
Qed.

(** [int(x)] truncates toward zero. *)
Lemma int_of_float_trunc (x : float) :
  finite x = true ->
  exists n, int_of_float x = Ok n
            /\ (0 <= F2R x -> IZR n <= F2R x < IZR n + 1)
            /\ (F2R x <= 0 -> IZR n - 1 < F2R x <= IZR n).
Proof.
  unfold finite, F2R, int_of_float.
  destruct (Prim2SF x) as [s|s| |s m e]; try discriminate; intros _.
  - exists 0%Z. cbn [SF2R]. split; [reflexivity|]. split; intros _; lra.
  - set (a := match e with
              | 0%Z => Zpos m
              | Zpos p => (Zpos m * 2 ^ Zpos p)%Z
              | Zneg p => (Zpos m / 2 ^ Zpos p)%Z
              end).
    assert (A : IZR a <= IZR (Zpos m) * bpow e < IZR a + 1).
    { destruct e as [|p|p]; unfold a.
      - change (bpow 0) with 1. lra.
      - rewrite mult_IZR, <- bpow_IZR by lia. lra.
      - destruct (div_pow2_enclosure (Zpos m) (Zneg p) (Zpos p))
          as [L U]; [lia|lia|].
        replace (Zneg p + Zpos p)%Z with 0%Z in L, U by lia.
        change (bpow 0) with 1 in L, U. lra. }
    exists (if s then (- a)%Z else a). split; [reflexivity|].
    rewrite SF2R_finite. pose proof (mantissa_bpow_nonneg m e).
    destruct s; cbn [sgn]; rewrite ?opp_IZR; split; intros; split; lra.
Qed.

(** *** The perturbation of a reset value *)

Lemma F2R_half : F2R 0.5 = / 2.
Proof.
  unfold F2R. change (Prim2SF 0.5)
    with (S754_finite false 4503599627370496 (-53)).
  cbn [SF2R]. change (-53)%Z with (- (53))%Z. rewrite bpow_neg by lia.
  replace (2 ^ 53)%Z with 9007199254740992%Z by reflexivity. lra.
Qed.

Lemma F2R_one : F2R 1 = 1.
Proof.
  unfold F2R. change (Prim2SF 1)
    with (S754_finite false 4503599627370496 (-52)).
  cbn [SF2R]. change (-52)%Z with (- (52))%Z. rewrite bpow_neg by lia.
  replace (2 ^ 52)%Z with 4503599627370496%Z by reflexivity. lra.
Qed.

Lemma F2R_hundredth :
  F2R 0.01 = 5764607523034235 / 576460752303423488.
Proof.
  unfold F2R. change (Prim2SF 0.01)
    with (S754_finite false 5764607523034235 (-59)).
  cbn [SF2R]. change (-59)%Z with (- (59))%Z. rewrite bpow_neg by lia.
  replace (2 ^ 59)%Z with 576460752303423488%Z by reflexivity. lra.
Qed.

Lemma bpow_m52 : bpow (-52) = / 4503599627370496.
Proof.
  change (-52)%Z with (- (52))%Z. rewrite bpow_neg by lia.
  replace (2 ^ 52)%Z with 4503599627370496%Z by reflexivity. reflexivity.
Qed.

Lemma bpow_m1074 : 0 < bpow (-1074) <= / 1267650600228229401496703205376.
Proof.
  split; [apply bpow_pos|].
  apply Rle_trans with (bpow (-100)); [apply bpow_le; lia|].
  change (-100)%Z with (- (100))%Z. rewrite bpow_neg by lia.
  replace (2 ^ 100)%Z with 1267650600228229401496703205376%Z
    by reflexivity.
  lra.
Qed.

Lemma below_max (B : R) : B <= 1099511627776 -> B < bpow 1023.
Proof.
  intros H. apply Rlt_le_trans with (bpow 41); [|apply bpow_le; lia].
  rewrite bpow_IZR by lia.
  replace (2 ^ 41)%Z with 2199023255552%Z by reflexivity. lra.
Qed.

(** The factor [1.0 + (r - 0.5) * 0.01] of a draw of the unit interval. *)
Lemma variance_factor_enclosure (r : float) :
  (0 <=? r)%float = true -> (r <? 1)%float = true ->
  finite (variance_factor r) = true
  /\ 995 / 1000 - / 100000000000000
     <= F2R (variance_factor r)
     <= 1005 / 1000 + / 100000000000000.
Proof.
  intros H0 H1. destruct (unit_interval r H0 H1) as [Fr Rr].
  unfold variance_factor.
  pose proof bpow_m52 as U. pose proof bpow_m1074 as Eta.
  destruct (sub_enclosure r 0.5 (/ 2) Fr eq_refl) as [F1 E1].
  { rewrite F2R_half. unfold abs_le. lra. }
  { apply below_max. lra. }
  rewrite F2R_half in E1.
  destruct (mul_enclosure (r - 0.5) 0.01 (/ 128) F1 eq_refl) as [F2 E2].
  { rewrite F2R_hundredth. unfold abs_le, err in *. rewrite U in *.
    lra. }
  { apply below_max. lra. }
  rewrite F2R_hundredth in E2.
  destruct (add_enclosure 1 ((r - 0.5) * 0.01) 2 eq_refl F2) as [F3 E3].
  { rewrite F2R_one. unfold abs_le, err in *. rewrite U in *. lra. }
  { apply below_max. lra. }
  rewrite F2R_one in E3.
  split; [assumption|].
  unfold abs_le, err in *. rewrite U in *. lra.
Qed.

Lemma abs_le_mul (a b A B : R) :
  abs_le a A -> abs_le b B -> abs_le (a * b) (A * B).
Proof.
  unfold abs_le. intros Ha Hb.
  assert (0 <= (A - a) * (B - b)) by (apply Rmult_le_pos; lra).
  assert (0 <= (A + a) * (B + b)) by (apply Rmult_le_pos; lra).
  assert (0 <= (A - a) * (B + b)) by (apply Rmult_le_pos; lra).
  assert (0 <= (A + a) * (B - b)) by (apply Rmult_le_pos; lra).
  split; lra.
Qed.

(** [int(v * (1.0 + (r - 0.5) * 0.01))] for a 32-bit [v] and a draw [r]
    of the unit interval: the value exists, and it is the configured
    value perturbed by at most 0.5%, rounded down by less than one. *)
Lemma perturbed_bounds (v : Z) (r : float) :
  (0 <= v < 2 ^ 32)%Z ->
  (0 <=? r)%float = true -> (r <? 1)%float = true ->
  exists m,
    (x <-- int_mul_float v (variance_factor r) ;; int_of_float x) = Ok m
    /\ (0 <= m)%Z /\ (199 * v - 200 <= 200 * m <= 201 * v)%Z.
Proof.
  intros Hv H0 H1.
  destruct (variance_factor_enclosure r H0 H1) as [Ff Bf].
  pose proof bpow_m52 as U. pose proof bpow_m1074 as Eta.
  assert (V0 : 0 <= IZR v) by (apply IZR_le; lia).
  assert (V1 : IZR v <= 4294967295).
  { apply IZR_le. change (2 ^ 32)%Z with 4294967296%Z in Hv. lia. }
  destruct (float_of_int_spec v 4294967296) as (xv & Ev & Fv & Bv).
  { change (2 ^ 32)%Z with 4294967296%Z in Hv.
    change (2 ^ 63)%Z with 9223372036854775808%Z. lia. }
  { lra. }
  { apply below_max. lra. }
  unfold int_mul_float. rewrite Ev. cbn [Py.bind].
  set (f := variance_factor r) in *.
  assert (Bv' : abs_le (F2R xv - IZR v) (/ 100000)).
  { unfold abs_le, err in *. rewrite U in *. lra. }
  destruct (mul_enclosure xv f 8589934592 Fv Ff) as [Fx Bx].
  { assert (Q : abs_le (F2R xv * F2R f) (4294967297 * (1006 / 1000)))
      by (apply abs_le_mul; unfold abs_le in *; lra).
    unfold abs_le in *. lra. }
  { apply below_max. lra. }
  assert (Bx' : abs_le (F2R (xv * f) - F2R xv * F2R f) (/ 100000)).
  { unfold abs_le, err in *. rewrite U in *. lra. }
  assert (D : abs_le ((F2R xv - IZR v) * F2R f)
                (/ 100000 * (1006 / 1000))).
  { apply abs_le_mul; [assumption|]. unfold abs_le. lra. }
  assert (L : IZR v * (995 / 1000 - / 100000000000000)
              <= IZR v * F2R f) by (apply Rmult_le_compat_l; lra).
  assert (H : IZR v * F2R f
              <= IZR v * (1005 / 1000 + / 100000000000000))
    by (apply Rmult_le_compat_l; lra).
  assert (X : 199 / 200 * IZR v - / 1000 <= F2R (xv * f)
              <= 201 / 200 * IZR v + / 1000).
  { unfold abs_le in *. split; lra. }
  destruct (int_of_float_trunc (xv * f)%float Fx) as (n & En & P & N).
  exists n. split; [exact En|].
  assert (Lo : IZR (199 * v - 201) < IZR (200 * n)).
  { rewrite minus_IZR, !mult_IZR.
    destruct (Rle_lt_dec 0 (F2R (xv * f))) as [S|S].
    - specialize (P S). lra.
    - specialize (N (Rlt_le _ _ S)). lra. }
  apply lt_IZR in Lo.
  assert (Nn : IZR (-1) < IZR n).
  { destruct (Rle_lt_dec 0 (F2R (xv * f))) as [S|S].
    - specialize (P S). lra.
    - specialize (N (Rlt_le _ _ S)). lra. }
  apply lt_IZR in Nn.
  destruct (Rle_lt_dec 0 (F2R (xv * f))) as [S|S].
  - specialize (P S).
    assert (Hi : IZR (200 * n) < IZR (201 * v + 1)).
    { rewrite plus_IZR, !mult_IZR. lra. }
    apply lt_IZR in Hi. lia.
  - specialize (N (Rlt_le _ _ S)).
    assert (Hi : IZR n < IZR 1) by lra.
    apply lt_IZR in Hi. lia.
Qed.

End Enclosures.

(* ================================================================== *)
(** ** Reset constants under a variance model                          *)
(* ================================================================== *)

Lemma land_mask32 (n : Z) : Z.land n 0xFFFFFFFF = n mod 2 ^ 32.
Proof. change 0xFFFFFFFF with (Z.ones 32). apply Z.land_ones. lia. Qed.

Lemma varied_value_spec (v : Z) (r : float) (n : Z) :
  varied_value v r = Ok n <->
  exists m, (x <-- int_mul_float v (variance_factor r) ;; int_of_float x)
            = Ok m /\ n = m mod 2 ^ 32.
Proof.
  unfold varied_value.
  destruct (int_mul_float v (variance_factor r)) as [x|e]; cbn [Py.bind].
  - destruct (int_of_float x) as [m|e]; cbn [Py.bind].
    + rewrite land_mask32. split.
      * intros H. injection H as <-. now exists m.
      * intros (m' & H & ->). now injection H as ->.
    + split; [discriminate | intros (m & H & _); discriminate].
  - split; [discriminate | intros (m & H & _); discriminate].
Qed.

(** C4, as stated, fails: with a variance model, a configured reset value
    of 1 and a draw of 0.25 give the emitted constant 0, and a configured
    value of 0xFFFFFFFF with a draw of 0.9 wraps around to 0x010624DC;
    neither is within 0.5% of the configured value. *)
Lemma C4_counterexample :
  declare_register (Some vm25) reg_one (const_rng 0.25)
  = Ok ([ "    logic [31:0] scratch_reg = 32'h00000000;";
          "    logic scratch_access_pending = 1'b0;";
          "    logic [7:0] scratch_timing_counter = 8'h0;" ],
        const_rng 0.25)
  /\ int_of_str 16 (reg_value reg_one) = Ok 1
  /\ varied_value 1 0.25 = Ok 0
  /\ ~ within_half_percent 1 0
  /\ declare_register (Some vm25) reg_max (const_rng 0.9)
     = Ok ([ "    logic [31:0] mask_reg = 32'h010624DC;";
             "    logic mask_access_pending = 1'b0;";
             "    logic [7:0] mask_timing_counter = 8'h0;" ],
           const_rng 0.9)
  /\ ~ within_half_percent 0xFFFFFFFF 0x010624DC.
Proof.
  unfold within_half_percent.
  repeat split; try (vm_compute; reflexivity); vm_compute; intros H;
    now apply H.
Qed.

(** C4, amended: the register named
    [pcileech_tlps128_cfgspace_shadow_status] is always declared with the
    literal [32'h1], with or without a variance model and whatever its
    configured value, and no random draw is made for it; for every other
    register a variance model makes the emitted constant
    [int(v * (1.0 + (r - 0.5) * 0.01)) mod 2^32], [v] being the configured
    value and [r] the next draw of the random generator, computed in
    binary64 and truncated toward zero.  For a 32-bit [v] and a draw of
    the unit interval, the integer [m] before the reduction exists and
    satisfies [0 <= m] and [0.995 * v - 1 <= m <= 1.005 * v]: the
    perturbation is at most 0.5% of [v], and truncation takes away less
    than one more unit; the emitted constant is [m mod 2^32], which is [m]
    itself as long as [1.005 * v < 2^32].  Without a variance model the
    constant is [v] itself. *)
Theorem C4_reset_constant (vmo : option VarianceModel) (vm : VarianceModel)
        (reg : Reg) (v : Z) (g : rng) :
  int_of_str 16 (reg_value reg) = Ok v ->
  (reg_name reg = shadow_status ->
   declare_register vmo reg g
   = Ok (print_items (decl_items shadow_status (ELit 32 Hex 1 1)), g)
   /\ eval all_zero (ELit 32 Hex 1 1) = 1)
  /\ (reg_name reg <> shadow_status ->
      forall m,
        (x <-- int_mul_float v (variance_factor (g O)) ;; int_of_float x)
        = Ok m ->
        declare_register (Some vm) reg g
        = Ok (print_items
                (decl_items (reg_name reg) (ELit 32 Hex 8 (m mod 2 ^ 32))),
              fun k => g (S k))
        /\ 0 <= m mod 2 ^ 32 < 2 ^ 32)
  /\ (reg_name reg <> shadow_status ->
      0 <= v < 2 ^ 32 ->
      (0 <=? g O)%float = true -> (g O <? 1)%float = true ->
      exists m,
        (x <-- int_mul_float v (variance_factor (g O)) ;; int_of_float x)
        = Ok m
        /\ 0 <= m
        /\ 199 * v - 200 <= 200 * m <= 201 * v
        /\ declare_register (Some vm) reg g
           = Ok (print_items
                   (decl_items (reg_name reg)
                      (ELit 32 Hex 8 (m mod 2 ^ 32))),
                 fun k => g (S k))
        /\ (201 * v < 200 * 2 ^ 32 -> m mod 2 ^ 32 = m))
  /\ (reg_name reg <> shadow_status ->
      declare_register None reg g
      = Ok (print_items (decl_items (reg_name reg) (ELit 32 Hex 8 v)), g)).
Proof.
  intros Hv.
  assert (Emit : reg_name reg <> shadow_status ->
                 forall m,
                   (x <-- int_mul_float v (variance_factor (g O)) ;;
                    int_of_float x) = Ok m ->
                   declare_register (Some vm) reg g
                   = Ok (print_items
                           (decl_items (reg_name reg)
                              (ELit 32 Hex 8 (m mod 2 ^ 32))),
                         fun k => g (S k))).
  { intros Hn m Hm.
    apply (declare_varied_tree vm reg v (m mod 2 ^ 32) g Hn Hv).
    apply varied_value_spec. now exists m. }
  split; [|split; [|split]].
  - intros Hn. split; [now apply (declare_shadow_tree vmo reg v) | reflexivity].
  - intros Hn m Hm. split; [now apply Emit|].
    apply Z.mod_pos_bound. lia.
  - intros Hn Hr H0 H1.
    destruct (perturbed_bounds v (g O) Hr H0 H1) as (m & Hm & Pm & Bm).
    exists m. split; [exact Hm|]. split; [exact Pm|]. split; [exact Bm|].
    split; [now apply Emit|].
    intros Hs. apply Z.mod_small. lia.
  - intros Hn. now apply (declare_plain_tree reg v g).
Qed.

Lemma C4_reset_constant_witness :
  declare_register (Some vm25) shadow_reg (const_rng 0.25)
  = Ok (print_items (decl_items shadow_status (ELit 32 Hex 1 1)),
        const_rng 0.25)
  /\ declare_register (Some vm25) reg_max (const_rng 0.9)
     = Ok (print_items (decl_items "mask" (ELit 32 Hex 8 0x010624DC)),
           const_rng 0.9)
  /\ exists m,
       (x <-- int_mul_float 0xFFFFFFFF (variance_factor 0.9) ;;
        int_of_float x) = Ok m
       /\ 199 * 0xFFFFFFFF - 200 <= 200 * m <= 201 * 0xFFFFFFFF.
Proof.
  assert (Hn : reg_name reg_max <> shadow_status) by discriminate.
  split; [|split].
  - destruct (C4_reset_constant (Some vm25) vm25 shadow_reg 0
                (const_rng 0.25) eq_refl) as (H & _).
    now destruct (H eq_refl).
  - destruct (C4_reset_constant (Some vm25) vm25 reg_max 0xFFFFFFFF
                (const_rng 0.9) eq_refl) as (_ & H & _).
    destruct (H Hn 4312147164) as (E & _); [reflexivity|].
    exact E.
  - destruct (C4_reset_constant (Some vm25) vm25 reg_max 0xFFFFFFFF
                (const_rng 0.9) eq_refl) as (_ & _ & H & _).
    destruct (H Hn) as (m & Hm & _ & Bm & _);
      [lia | reflexivity | reflexivity |].
    exists m. split; [exact Hm | exact Bm].
Defined.

(* ================================================================== *)
(** ** The orchestration                                               *)
(* ================================================================== *)

Lemma det_ret {A} (a : A) : det (ret a).
Proof. now exists (Ok a). Qed.

Lemma det_lift {A} (r : result A) : det (lift r).
Proof. now exists r. Qed.

Lemma det_bind {A B} (m : M A) (k : A -> M B) :
  det m -> (forall a, det (k a)) -> det (bindM m k).
Proof.
  intros [r Hr] Hk. destruct r as [a|e].
  - destruct (Hk a) as [rb Hb]. exists rb. intros g.
    unfold bindM. rewrite Hr. cbn [lift]. apply Hb.
  - exists (Raise e). intros g. unfold bindM. now rewrite Hr.
Qed.

Lemma det_for_each {A} (body : A -> M (list string)) (l : list A) :
  (forall a, det (body a)) -> det (for_each body l).
Proof.
  intros Hb. induction l as [|a l IH]; cbn [for_each].
  - apply det_ret.
  - apply det_bind; [apply Hb|]. intros ls.
    apply det_bind; [apply IH|]. intros ls'. apply det_ret.
Qed.

Lemma det_declare_none (reg : Reg) : det (declare_register None reg).
Proof.
  unfold declare_register. apply det_bind; [apply det_lift|]. intros v.
  apply det_bind; [|intros; apply det_ret].
  destruct (String.eqb _ _); apply det_ret.
Qed.

Lemma det_register_logic_none (regs : list Reg) :
  det (generate_register_logic regs None).
Proof.
  unfold generate_register_logic, register_logic_lines.
  apply det_bind; [|intros; apply det_ret].
  apply det_bind; [apply det_for_each, det_declare_none|]. intros decls.
  apply det_bind; [apply det_for_each; intros; apply det_lift|].
  intros; apply det_ret.
Qed.

Lemma det_generate_none (self : AdvancedSVGenerator) (regs : list Reg) :
  det (generate_advanced_systemverilog self regs None).
Proof.
  unfold generate_advanced_systemverilog.
  repeat (apply det_bind; [apply det_ret|]; intros _).
  apply det_bind; [apply det_register_logic_none|]. intros _.
  apply det_bind; [apply det_lift|]. intros _. apply det_ret.
Qed.

Lemma det_outcome {A} (m : M A) (g1 g2 : rng) :
  det m -> outcome (m g1) = outcome (m g2).
Proof.
  intros [r Hr]. rewrite !Hr. now destruct r.
Qed.

Lemma det_state {A} (m : M A) (g g' : rng) (a : A) :
  det m -> m g = Ok (a, g') -> g' = g.
Proof.
  intros [r Hr] H. rewrite Hr in H. destruct r; cbn [lift] in H;
    [now injection H | discriminate].
Qed.

Lemma write_logic_parses (vm : option VarianceModel) (reg : Reg)
      (ls : list string) :
  write_logic vm reg = Ok ls -> exists o, parse_offset reg = Ok o.
Proof.
  unfold write_logic. destruct (parse_offset reg) as [o|e]; cbn [Py.bind].
  - eauto.
  - discriminate.
Qed.

(** The offsets of the registers parse as soon as the write loop runs. *)
Lemma write_loop_resolves (vm : option VarianceModel) (regs : list Reg)
      (g g' : rng) (ls : list string) :
  for_each (fun reg => lift (write_logic vm reg)) regs g = Ok (ls, g') ->
  exists rs, resolve regs = Ok rs.
Proof.
  revert g g' ls. induction regs as [|reg rest IH]; intros g g' ls H.
  - now exists [].
  - cbn [for_each resolve] in *. unfold bindM in H. cbn beta in H.
    destruct (write_logic vm reg) as [wl|e] eqn:Ew; cbn [lift] in H;
      [|discriminate].
    destruct (write_logic_parses _ _ _ Ew) as [o Ho].
    destruct (for_each _ rest g) as [[ls' g'']|e] eqn:E; [|discriminate].
    destruct (IH _ _ _ E) as [rs Hrs]. rewrite Ho, Hrs. cbn [Py.bind].
    eauto.
Qed.

Lemma register_logic_resolves (vm : option VarianceModel) (regs : list Reg)
      (g g' : rng) (frag : string) :
  generate_register_logic regs vm g = Ok (frag, g') ->
  exists rs, resolve regs = Ok rs.
Proof.
  unfold generate_register_logic, register_logic_lines, bindM, ret.
  destruct (for_each (declare_register vm) regs g) as [[decls g1]|e];
    [|discriminate].
  destruct (for_each _ regs g1) as [[writes g2]|e] eqn:E; [|discriminate].
  intros _. eapply write_loop_resolves; eassumption.
Qed.

(** The entry point returns the template as soon as the register logic
    can be generated. *)
Lemma generate_returns_template (self : AdvancedSVGenerator)
      (regs : list Reg) (vm : option VarianceModel) (g g' : rng)
      (frag : string) :
  generate_register_logic regs vm g = Ok (frag, g') ->
  generate_advanced_systemverilog self regs vm g = Ok (module_content, g').
Proof.
  intros H. destruct (register_logic_resolves _ _ _ _ _ H) as [rs Hrs].
  unfold generate_advanced_systemverilog, bindM, ret.
  rewrite H. unfold lift, generate_read_logic.
  rewrite read_logic_tree, Hrs. reflexivity.
Qed.

Lemma generate_only_template (self : AdvancedSVGenerator)
      (regs : list Reg) (vm : option VarianceModel) (g g' : rng)
      (text : string) :
  generate_advanced_systemverilog self regs vm g = Ok (text, g') ->
  text = module_content.
Proof.
  unfold generate_advanced_systemverilog, bindM, ret.
  destruct (generate_register_logic regs vm g) as [[frag g1]|e];
    [|discriminate].
  destruct (lift (generate_read_logic regs) g1) as [[rl g2]|e];
    [|discriminate].
  intros H. now injection H.
Qed.

(** Without a variance model, descriptors whose fields parse are enough
    for the register logic to be generated. *)
Lemma declare_loop_none_total (regs : list Reg) (g : rng) :
  Forall well_formed regs ->
  exists ls, for_each (declare_register None) regs g = Ok (ls, g).
Proof.
  induction 1 as [|reg rest [[v Hv] _] _ [ls IH]]; cbn [for_each].
  - now exists [].
  - unfold bindM at 1. unfold declare_register at 1.
    unfold bindM at 1 2, lift, ret. rewrite Hv.
    destruct (String.eqb _ _); unfold bindM; rewrite IH; eauto.
Qed.

Lemma write_logic_none_total (reg : Reg) :
  well_formed reg -> exists ls, write_logic None reg = Ok ls.
Proof.
  intros [[v Hv] [o Ho]]. unfold write_logic. rewrite Ho. cbn [Py.bind].
  destruct (_ || _); [rewrite Hv; cbn [Py.bind]|]; eauto.
Qed.

Lemma write_loop_none_total (regs : list Reg) (g : rng) :
  Forall well_formed regs ->
  exists ls,
    for_each (fun reg => lift (write_logic None reg)) regs g = Ok (ls, g).
Proof.
  induction 1 as [|reg rest Hwf _ [ls IH]]; cbn [for_each].
  - now exists [].
  - destruct (write_logic_none_total reg Hwf) as [wl Hwl].
    unfold bindM. cbn beta. rewrite Hwl. cbn [lift]. rewrite IH.
    unfold ret. eauto.
Qed.

Lemma register_logic_none_total (regs : list Reg) (g : rng) :
  Forall well_formed regs ->
  exists frag, generate_register_logic regs None g = Ok (frag, g).
Proof.
  intros H.
  destruct (declare_loop_none_total regs g H) as [decls Hd].
  destruct (write_loop_none_total regs g H) as [writes Hw].
  unfold generate_register_logic, register_logic_lines, bindM, ret.
  rewrite Hd, Hw. eauto.
Qed.

(* ================================================================== *)
(** ** Substrings                                                      *)
(* ================================================================== *)

Lemma prefix_append_l (a b t : string) :
  String.prefix (a +s+ b) t = true -> String.prefix a t = true.
Proof.
  revert t. induction a as [|c a IH]; intros t; cbn [String.append].
  - now destruct t.
  - destruct t as [|c' t]; cbn [String.prefix]; [discriminate|].
    destruct (ascii_dec c c'); [apply IH | discriminate].
Qed.

Lemma contains_append_l (t a b : string) :
  contains t (a +s+ b) = true -> contains t a = true.
Proof.
  induction t as [|c t IH]; cbn [contains]; intros H;
    apply orb_true_iff in H; apply orb_true_iff.
  - destruct H as [H|H]; [left; eapply prefix_append_l; eassumption
                         | discriminate].
  - destruct H as [H|H]; [left; eapply prefix_append_l; eassumption
                         | right; now apply IH].
Qed.

Lemma not_contains_append (t a b : string) :
  contains t a = false -> contains t (a +s+ b) = false.
Proof.
  intros H. destruct (contains t (a +s+ b)) eqn:E; [|reflexivity].
  apply contains_append_l in E. congruence.
Qed.

Lemma register_logic_starts (regs : list Reg) (vm : option VarianceModel)
      (g g' : rng) (frag : string) :
  generate_register_logic regs vm g = Ok (frag, g') ->
  exists tail, frag = "    // Advanced Register Access Logic" +s+ tail.
Proof.
  unfold generate_register_logic, register_logic_lines, bindM, ret.
  destruct (for_each (declare_register vm) regs g) as [[decls g1]|e];
    [|discriminate].
  destruct (for_each _ regs g1) as [[writes g2]|e]; [|discriminate].
  intros H. injection H as <- _.
  unfold register_logic_head. cbn [app join]. eexists. reflexivity.
Qed.

Lemma read_logic_starts (regs : list Reg) (rl : string) :
  generate_read_logic regs = Ok rl ->
  exists tail, rl = "    // Main read logic with advanced features" +s+ tail.
Proof.
  unfold generate_read_logic, read_logic_lines.
  destruct (read_entries regs) as [es|e]; cbn [Py.bind]; [|discriminate].
  intros H. injection H as <-.
  unfold read_logic_head. cbn [app join]. eexists. reflexivity.
Qed.

(* ================================================================== *)
(** ** The entry point                                                 *)
(* ================================================================== *)

(** C9: whenever the components can be generated, the entry point returns
    the template [module_content], whatever the generator object, the
    register list and the variance model; the place holders are still in
    it, and none of the texts computed by the methods of the class (the
    header, the clock-domain, interrupt, register and read logic) occurs
    in it.  Any result of the entry point is that same string. *)
Theorem C9_template_returned_unexpanded (self : AdvancedSVGenerator)
        (regs : list Reg) (vm : option VarianceModel) (g g' : rng)
        (frag : string) :
  generate_register_logic regs vm g = Ok (frag, g') ->
  generate_advanced_systemverilog self regs vm g = Ok (module_content, g')
  /\ contains module_content "{module_header}" = true
  /\ contains module_content "{register_logic}" = true
  /\ contains module_content "{read_logic}" = true
  /\ contains module_content frag = false
  /\ (exists rl, generate_read_logic regs = Ok rl
                 /\ contains module_content rl = false)
  /\ contains module_content (generate_module_header self) = false
  /\ contains module_content (generate_clock_domain_logic self vm) = false
  /\ contains module_content (generate_interrupt_logic self) = false
  /\ (forall self2 regs2 vm2 g2 text g2',
         generate_advanced_systemverilog self2 regs2 vm2 g2 = Ok (text, g2')
         -> text = module_content).
Proof.
  intros H.
  split; [eapply generate_returns_template; eassumption|].
  split; [vm_compute; reflexivity|].
  split; [vm_compute; reflexivity|].
  split; [vm_compute; reflexivity|].
  split.
  { destruct (register_logic_starts _ _ _ _ _ H) as [tail ->].
    apply not_contains_append. vm_compute. reflexivity. }
  split.
  { destruct (register_logic_resolves _ _ _ _ _ H) as [rs Hrs].
    unfold generate_read_logic. rewrite read_logic_tree, Hrs.
    cbn [Py.bind]. eexists. split; [reflexivity|].
    destruct (read_logic_starts regs (join nl (print_items (read_items rs))))
      as [tail ->].
    - unfold generate_read_logic. now rewrite read_logic_tree, Hrs.
    - apply not_contains_append. vm_compute. reflexivity. }
  split; [vm_compute; reflexivity|].
  split; [vm_compute; reflexivity|].
  split; [vm_compute; reflexivity|].
  intros. eapply generate_only_template; eassumption.
Qed.

Lemma C9_template_returned_unexpanded_witness :
  generate_advanced_systemverilog default_generator [ctrl; reg_max]
    (Some vm25) (const_rng 0.9)
  = Ok (module_content, const_rng 0.9).
Proof.
  eapply (C9_template_returned_unexpanded default_generator [ctrl; reg_max]
            (Some vm25) (const_rng 0.9)).
  vm_compute. reflexivity.
Defined.

(** C6: without a variance model the entry point, and the register logic
    it computes, give the same outcome (the same text, or the same
    exception) whatever the state of the random generator, and leave that
    state untouched; on descriptors whose fields parse the outcome is a
    text. *)
Theorem C6_deterministic_without_variance (self : AdvancedSVGenerator)
        (regs : list Reg) (g1 g2 : rng) :
  outcome (generate_advanced_systemverilog self regs None g1)
  = outcome (generate_advanced_systemverilog self regs None g2)
  /\ outcome (generate_register_logic regs None g1)
     = outcome (generate_register_logic regs None g2)
  /\ (forall text g',
         generate_advanced_systemverilog self regs None g1 = Ok (text, g')
         -> g' = g1)
  /\ (Forall well_formed regs ->
      exists text,
        generate_advanced_systemverilog self regs None g1 = Ok (text, g1)
        /\ generate_advanced_systemverilog self regs None g2
           = Ok (text, g2)).
Proof.
  split; [apply det_outcome, det_generate_none|].
  split; [apply det_outcome, det_register_logic_none|].
  split.
  { intros text g' H. eapply det_state; [apply det_generate_none|].
    eassumption. }
  intros Hwf. exists module_content.
  destruct (register_logic_none_total regs g1 Hwf) as [f1 H1].
  destruct (register_logic_none_total regs g2 Hwf) as [f2 H2].
  split; eapply generate_returns_template; eassumption.
Qed.

Lemma C6_deterministic_without_variance_witness :
  exists text,
    generate_advanced_systemverilog default_generator [ctrl; low_reg] None
      (const_rng 0.25) = Ok (text, const_rng 0.25)
    /\ generate_advanced_systemverilog default_generator [ctrl; low_reg] None
         (const_rng 0.9) = Ok (text, const_rng 0.9).
Proof.
  apply (C6_deterministic_without_variance default_generator [ctrl; low_reg]
           (const_rng 0.25) (const_rng 0.9)).
  apply Forall_cons; [|apply Forall_cons; [|apply Forall_nil]];
    split; eexists; reflexivity.
Defined.

(* ================================================================== *)
(** ** The address decode                                              *)
(* ================================================================== *)

Lemma case_labels_app (a b : list case_entry) :
  case_labels (a ++ b) = case_labels a ++ case_labels b.
Proof.
  induction a as [|[t|l r tr] a IH]; cbn [app case_labels];
    [reflexivity | assumption | now rewrite IH].
Qed.

Lemma case_labels_regs (rs : list (string * Z)) :
  case_labels (map (fun r => reg_entry (fst r) (snd r)) rs) = map snd rs.
Proof.
  induction rs as [|r rs IH]; cbn [map case_labels reg_entry];
    [reflexivity | now rewrite IH].
Qed.

Lemma resolve_names (regs : list Reg) (rs : list (string * Z)) :
  resolve regs = Ok rs -> map fst rs = map reg_name regs.
Proof.
  revert rs. induction regs as [|reg rest IH]; intros rs; cbn [resolve].
  - intros H. now injection H as <-.
  - destruct (parse_offset reg) as [o|e]; cbn [Py.bind]; [|discriminate].
    destruct (resolve rest) as [rs'|e]; cbn [Py.bind]; [|discriminate].
    intros H. injection H as <-. cbn [map fst]. now rewrite (IH rs').
Qed.

(** C1 fails on the code: for the register map holding [ctrl] alone the
    entry point succeeds, but the text it returns is the template, which
    has no address-decode entry at all (the claim asks for 12 + 1); the
    read logic with its thirteen entries and its default branch is
    computed by [generate_read_logic] and dropped. *)
Theorem C1_decode_table_absent (self : AdvancedSVGenerator) (g : rng) :
  generate_advanced_systemverilog self [ctrl] None g = Ok (module_content, g)
  /\ decode_entries module_content = []
  /\ contains module_content "bar_rd_data" = false
  /\ exists rl,
      generate_read_logic [ctrl] = Ok rl
      /\ contains module_content rl = false
      /\ List.length (decode_entries rl) = (12 + 1)%nat
      /\ nth 12 (decode_entries rl) ""
         = "            32'h00000030: bar_rd_data = ctrl_reg;".
Proof.
  split; [reflexivity|].
  split; [vm_compute; reflexivity|].
  split; [vm_compute; reflexivity|].
  eexists. split; [reflexivity|].
  repeat split; vm_compute; reflexivity.
Qed.

(** C2, as stated, fails: two descriptors at offset 0x30, or a descriptor
    on the fixed power-state address 0x00, do not make the entry point
    raise: it returns the template, and the read logic computed on the way
    carries the two entries with the same label. *)
Lemma C2_counterexample :
  resolve [ctrl; ctrl_twin] = Ok [("ctrl", 0x30); ("ctrl2", 0x30)]
  /\ generate_advanced_systemverilog default_generator [ctrl; ctrl_twin]
       None (const_rng 0)
     = Ok (module_content, const_rng 0)
  /\ (exists rl,
         generate_read_logic [ctrl; ctrl_twin] = Ok rl
         /\ skipn 12 (decode_entries rl)
            = [ "            32'h00000030: bar_rd_data = ctrl_reg;";
                "            32'h00000030: bar_rd_data = ctrl2_reg;" ])
  /\ resolve [low_reg] = Ok [("low", 0x00)]
  /\ generate_advanced_systemverilog default_generator [low_reg]
       None (const_rng 0)
     = Ok (module_content, const_rng 0).
Proof.
  split; [reflexivity|]. split; [reflexivity|].
  split; [eexists; split; [reflexivity | vm_compute; reflexivity]|].
  split; reflexivity.
Qed.

(** C2, amended: the generator has no collision check.  Whenever the
    register logic can be generated for the descriptors, with colliding
    offsets or not, the entry point returns the template; the read logic
    computed on the way is the printed read tree, whose labels are the
    twelve fixed addresses followed by the offset of every descriptor in
    the order of the list, duplicates included. *)
Theorem C2_no_collision_check (self : AdvancedSVGenerator) (regs : list Reg)
        (vm : option VarianceModel) (g g' : rng) (frag : string) :
  generate_register_logic regs vm g = Ok (frag, g') ->
  generate_advanced_systemverilog self regs vm g = Ok (module_content, g')
  /\ exists rs,
      resolve regs = Ok rs
      /\ map fst rs = map reg_name regs
      /\ read_logic_lines regs = Ok (print_items (read_items rs))
      /\ case_labels (fixed_entries
                        ++ map (fun r => reg_entry (fst r) (snd r)) rs
                        ++ [CText "            "])
         = fixed_addresses ++ map snd rs.
Proof.
  intros H.
  split; [eapply generate_returns_template; eassumption|].
  destruct (register_logic_resolves _ _ _ _ _ H) as [rs Hrs].
  exists rs. split; [exact Hrs|].
  split; [now apply resolve_names|].
  split; [now rewrite read_logic_tree, Hrs|].
  rewrite !case_labels_app, case_labels_regs. cbn [case_labels].
  now rewrite app_nil_r.
Qed.

Lemma C2_no_collision_check_witness :
  generate_advanced_systemverilog default_generator [ctrl; ctrl_twin] None
    (const_rng 0)
  = Ok (module_content, const_rng 0)
  /\ exists rs,
      resolve [ctrl; ctrl_twin] = Ok rs
      /\ map snd rs = [0x30; 0x30]
      /\ case_labels (fixed_entries
                        ++ map (fun r => reg_entry (fst r) (snd r)) rs
                        ++ [CText "            "])
         = fixed_addresses ++ map snd rs.
Proof.
  destruct (C2_no_collision_check default_generator [ctrl; ctrl_twin] None
              (const_rng 0) (const_rng 0)
              (join nl (print_items
                          (global_decl_items
                             ++ decl_items "ctrl" (ELit 32 Hex 8 0)
                             ++ decl_items "ctrl2" (ELit 32 Hex 8 0)
                             ++ global_timing_items
                             ++ write_items "ctrl" 0 0x30 None
                             ++ write_items "ctrl2" 0 0x30 None)))
              eq_refl) as (H1 & rs & R & _ & _ & L).
  split; [exact H1|]. exists rs. split; [exact R|].
  split; [|exact L].
  cbn in R. injection R as <-. reflexivity.
Defined.

(* ================================================================== *)
(** ** Offsets: what [int(...)] accepts and what [:08X] prints         *)
(* ================================================================== *)

Lemma digit_char_facts (d : Z) :
  0 <= d < 16 ->
  digit_value (digit_char d) = Some d
  /\ is_underscore (digit_char d) = false
  /\ is_space (digit_char d) = false
  /\ Ascii.eqb (digit_char d) "+" = false
  /\ Ascii.eqb (digit_char d) "-" = false.
Proof.
  intros H.
  assert (C : d = 0 \/ d = 1 \/ d = 2 \/ d = 3 \/ d = 4 \/ d = 5 \/ d = 6
              \/ d = 7 \/ d = 8 \/ d = 9 \/ d = 10 \/ d = 11 \/ d = 12
              \/ d = 13 \/ d = 14 \/ d = 15) by lia.
  repeat (destruct C as [->|C]; [repeat split; reflexivity|]).
  subst d. repeat split; reflexivity.
Qed.

Lemma scan_digit (base d : Z) (s : string) (prev : bool) (n : nat) (a : Z) :
  0 <= d < base -> base <= 16 ->
  scan_digits base (String (digit_char d) s) prev n a
  = scan_digits base s false (S n) (a * base + d).
Proof.
  intros Hd Hb.
  destruct (digit_char_facts d ltac:(lia)) as (V & U & _).
  cbn [scan_digits]. rewrite U, V.
  replace (d <? base) with true by (symmetry; apply Z.ltb_lt; lia).
  reflexivity.
Qed.

(** Reading back the digits written by [digits_loop]: they are consumed,
    most significant first, and add [z] to the value read so far. *)
Lemma scan_digits_loop (base : Z) (f : nat) :
  2 <= base <= 16 ->
  forall (z : Z) (s : string),
    0 <= z < base ^ Z.of_nat (S f) ->
    exists k : nat,
      forall prev n a,
        scan_digits base (digits_loop base (S f) z s) prev n a
        = scan_digits base s false (n + S k)
            (a * base ^ Z.of_nat (S k) + z).
Proof.
  intros Hb. induction f as [|f IH]; intros z s Hz.
  - exists O. intros prev n a. cbn [digits_loop].
    change (Z.of_nat 1) with 1 in *. rewrite Z.pow_1_r in *.
    rewrite Z.mod_small by lia.
    rewrite Z.div_small by lia. cbn [Z.eqb].
    rewrite scan_digit by lia. f_equal. lia.
  - cbn [digits_loop].
    pose proof (Z.mod_pos_bound z base ltac:(lia)) as Hm.
    pose proof (Z.div_mod z base ltac:(lia)) as Hdm.
    destruct (z / base =? 0) eqn:E.
    + apply Z.eqb_eq in E. exists O. intros prev n a.
      rewrite scan_digit by lia.
      change (Z.of_nat 1) with 1. rewrite Z.pow_1_r.
      f_equal; lia.
    + apply Z.eqb_neq in E.
      assert (Hq : 0 <= z / base < base ^ Z.of_nat (S f)).
      { split; [apply Z.div_pos; lia|].
        apply Z.div_lt_upper_bound; [lia|].
        replace (Z.of_nat (S (S f))) with (Z.of_nat (S f) + 1) in Hz by lia.
        rewrite Z.pow_add_r, Z.pow_1_r in Hz by lia. lia. }
      destruct (IH (z / base) (String (digit_char (z mod base)) s) Hq)
        as [k Hk].
      exists (S k). intros prev n a. rewrite Hk.
      rewrite scan_digit by lia.
      replace (Z.of_nat (S (S k))) with (Z.of_nat (S k) + 1) by lia.
      rewrite Z.pow_add_r, Z.pow_1_r by lia.
      f_equal; [lia|]. nia.
Qed.

(** The fuel of [digits] is enough. *)
Lemma digits_fuel (base z : Z) :
  2 <= base -> 0 <= z ->
  0 <= z < base ^ Z.of_nat (S (Z.to_nat (Z.log2 z))).
Proof.
  intros Hb Hz. split; [assumption|].
  rewrite Nat2Z.inj_succ, Z2Nat.id by apply Z.log2_nonneg.
  destruct (Z.eq_dec z 0) as [->|Hnz].
  - cbn. lia.
  - destruct (Z.log2_spec z ltac:(lia)) as [_ U].
    eapply Z.lt_le_trans; [exact U|].
    apply Z.pow_le_mono_l. lia.
Qed.

Lemma length_append (a b : string) :
  String.length (a +s+ b) = (String.length a + String.length b)%nat.
Proof. induction a as [|c a IH]; cbn; [reflexivity | now rewrite IH]. Qed.

Lemma length_zeros (n : nat) : String.length (zeros n) = n.
Proof. induction n as [|n IH]; cbn; [reflexivity | now rewrite IH]. Qed.

Lemma length_zfill (w : nat) (s : string) :
  String.length (zfill w s) = Nat.max w (String.length s).
Proof. unfold zfill. rewrite length_append, length_zeros. lia. Qed.

Lemma pow_succ_nat (base : Z) (j : nat) :
  base ^ Z.of_nat (S j) = base * base ^ Z.of_nat j.
Proof. rewrite Nat2Z.inj_succ, Z.pow_succ_r by lia. reflexivity. Qed.

(** [digits_loop] writes at most [S j] digits for a number below
    [base ^ S j]. *)
Lemma digits_loop_length_le (base : Z) (f : nat) :
  2 <= base ->
  forall (j : nat) (z : Z) (s : string),
    0 <= z < base ^ Z.of_nat (S j) ->
    (String.length (digits_loop base (S f) z s) <= String.length s + S j)%nat.
Proof.
  intros Hb. induction f as [|f IH]; intros j z s Hz.
  - cbn [digits_loop]. destruct (z / base =? 0); cbn [String.length]; lia.
  - cbn [digits_loop]. destruct (z / base =? 0) eqn:E.
    + cbn [String.length]. lia.
    + apply Z.eqb_neq in E.
      destruct j as [|j].
      * exfalso. apply E. apply Z.div_small.
        change (Z.of_nat 1) with 1 in Hz. rewrite Z.pow_1_r in Hz. lia.
      * assert (Hq : 0 <= z / base < base ^ Z.of_nat (S j)).
        { split; [apply Z.div_pos; lia|].
          apply Z.div_lt_upper_bound; [lia|].
          rewrite (pow_succ_nat base (S j)) in Hz. lia. }
        specialize (IH j (z / base) (String (digit_char (z mod base)) s) Hq).
        cbn [digits_loop String.length] in IH |- *. lia.
Qed.

(** With enough fuel it writes at least [S j] digits for a number from
    [base ^ j] on. *)
Lemma digits_loop_length_ge (base : Z) (f : nat) :
  2 <= base ->
  forall (j : nat) (z : Z) (s : string),
    base ^ Z.of_nat j <= z ->
    0 <= z < base ^ Z.of_nat (S f) ->
    (String.length s + S j <= String.length (digits_loop base (S f) z s))%nat.
Proof.
  intros Hb. induction f as [|f IH]; intros j z s Hj Hz.
  - change (Z.of_nat 1) with 1 in Hz. rewrite Z.pow_1_r in Hz.
    assert (j = O) as ->.
    { destruct j as [|j]; [reflexivity|]. exfalso.
      rewrite pow_succ_nat in Hj.
      assert (0 < base ^ Z.of_nat j) by (apply Z.pow_pos_nonneg; lia). nia. }
    cbn [digits_loop]. destruct (z / base =? 0); cbn [String.length]; lia.
  - cbn [digits_loop]. destruct (z / base =? 0) eqn:E.
    + apply Z.eqb_eq in E.
      assert (j = O) as ->.
      { destruct j as [|j]; [reflexivity|]. exfalso.
        rewrite pow_succ_nat in Hj.
        assert (0 < base ^ Z.of_nat j) by (apply Z.pow_pos_nonneg; lia).
        assert (z < base) by (apply Z.div_small_iff in E; lia). nia. }
      cbn [String.length]. lia.
    + apply Z.eqb_neq in E.
      assert (Hq : 0 <= z / base < base ^ Z.of_nat (S f)).
      { split; [apply Z.div_pos; lia|].
        apply Z.div_lt_upper_bound; [lia|].
        rewrite (pow_succ_nat base (S f)) in Hz. lia. }
      destruct j as [|j].
      * assert (H1 : base ^ Z.of_nat 0 <= z / base).
        { change (Z.of_nat 0) with 0. rewrite Z.pow_0_r.
          assert (0 <= z / base) by lia. lia. }
        specialize (IH O (z / base) (String (digit_char (z mod base)) s)
                       H1 Hq).
        cbn [digits_loop String.length] in IH |- *. lia.
      * assert (H1 : base ^ Z.of_nat j <= z / base).
        { apply Z.div_le_lower_bound; [lia|].
          rewrite pow_succ_nat in Hj. lia. }
        specialize (IH j (z / base) (String (digit_char (z mod base)) s)
                       H1 Hq).
        cbn [digits_loop String.length] in IH |- *. lia.
Qed.

Lemma length_digits_le (base z : Z) (j : nat) :
  2 <= base -> 0 <= z < base ^ Z.of_nat (S j) ->
  (String.length (digits base z) <= S j)%nat.
Proof.
  intros Hb Hz. unfold digits.
  apply (digits_loop_length_le base _ Hb j z "" Hz).
Qed.

Lemma length_digits_ge (base z : Z) (j : nat) :
  2 <= base -> base ^ Z.of_nat j <= z ->
  (S j <= String.length (digits base z))%nat.
Proof.
  intros Hb Hj.
  assert (Hz : 0 <= z).
  { assert (0 < base ^ Z.of_nat j) by (apply Z.pow_pos_nonneg; lia). lia. }
  unfold digits.
  apply (digits_loop_length_ge base _ Hb j z "" Hj (digits_fuel base z Hb Hz)).
Qed.

Lemma length_digits_Z (base z n : Z) :
  2 <= base -> 1 <= n -> 0 <= z < base ^ n ->
  Z.of_nat (String.length (digits base z)) <= n.
Proof.
  intros Hb Hn Hz.
  pose proof (length_digits_le base z (Z.to_nat (n - 1)) Hb) as L.
  replace (Z.of_nat (S (Z.to_nat (n - 1)))) with n in L by lia.
  specialize (L Hz). lia.
Qed.

(** The digit loop of [int] counts at most one digit per character. *)
Lemma scan_digits_count (base : Z) (s : string) :
  forall (prev : bool) (n : nat) (a : Z) (v : Z) (m : nat) (rest : string),
    scan_digits base s prev n a = Some (v, m, rest) ->
    (m <= n + String.length s)%nat.
Proof.
  induction s as [|c s IH]; intros prev n a v m rest; cbn [scan_digits].
  - destruct prev; [discriminate|]. intros H. injection H as _ <- _.
    cbn [String.length]. lia.
  - destruct (is_underscore c).
    + destruct prev; [discriminate|]. intros H. apply IH in H.
      cbn [String.length]. lia.
    + destruct (digit_value c) as [d|].
      * destruct (d <? base).
        -- intros H. apply IH in H. cbn [String.length]. lia.
        -- destruct prev; [discriminate|]. intros H. injection H as _ <- _.
           lia.
      * destruct prev; [discriminate|]. intros H. injection H as _ <- _.
        lia.
Qed.

Lemma scan_digits_of (base z : Z) :
  2 <= base <= 16 -> 0 <= z ->
  exists k : nat,
    forall prev n a,
      scan_digits base (digits base z) prev n a
      = Some (a * base ^ Z.of_nat (S k) + z, (n + S k)%nat, "").
Proof.
  intros Hb Hz. unfold digits.
  destruct (scan_digits_loop base (Z.to_nat (Z.log2 z)) Hb z ""
              (digits_fuel base z ltac:(lia) Hz)) as [k Hk].
  exists k. intros prev n a. rewrite Hk. reflexivity.
Qed.

(** The first character written by [digits] is a digit. *)
Lemma digits_loop_head (base : Z) (f : nat) (z : Z) (s : string) :
  2 <= base ->
  exists d t, 0 <= d < base
              /\ digits_loop base (S f) z s = String (digit_char d) t.
Proof.
  intros Hb. revert z s. induction f as [|f IH]; intros z s.
  - cbn [digits_loop]. exists (z mod base), s.
    split; [apply Z.mod_pos_bound; lia|].
    now destruct (z / base =? 0).
  - cbn [digits_loop]. destruct (z / base =? 0).
    + exists (z mod base), s. split; [apply Z.mod_pos_bound; lia|reflexivity].
    + apply IH.
Qed.

Lemma scan_zeros (base : Z) (k : nat) (s : string) (prev : bool) (n : nat) :
  2 <= base <= 16 ->
  scan_digits base (zeros k +s+ s) prev n 0
  = match k with
    | O => scan_digits base s prev n 0
    | S _ => scan_digits base s false (n + k) 0
    end.
Proof.
  intros Hb. revert prev n. induction k as [|k IH]; intros prev n.
  - reflexivity.
  - cbn [zeros String.append].
    change "0"%char with (digit_char 0).
    rewrite scan_digit by lia. rewrite IH.
    destruct k; f_equal; lia.
Qed.

Lemma zfill_head (base : Z) (w : nat) (z : Z) :
  2 <= base ->
  exists d t, 0 <= d < base
              /\ zfill w (digits base z) = String (digit_char d) t.
Proof.
  intros Hb. unfold zfill.
  destruct (w - String.length (digits base z))%nat as [|k].
  - cbn [zeros String.append]. unfold digits. now apply digits_loop_head.
  - cbn [zeros String.append]. exists 0, (zeros k +s+ digits base z).
    split; [lia|reflexivity].
Qed.

Lemma scan_zfill (base : Z) (w : nat) (z : Z) :
  2 <= base <= 16 -> 0 <= z ->
  exists k : nat,
    scan_digits base (zfill w (digits base z)) false O 0 = Some (z, S k, "").
Proof.
  intros Hb Hz. unfold zfill.
  destruct (scan_digits_of base z Hb Hz) as [k Hk].
  rewrite scan_zeros by assumption.
  destruct (w - String.length (digits base z))%nat as [|j].
  - exists k. rewrite Hk, Z.mul_0_l, Z.add_0_l. reflexivity.
  - exists (j + S k)%nat. rewrite Hk, Z.mul_0_l, Z.add_0_l. reflexivity.
Qed.

Lemma lstrip_digit (d : Z) (t : string) :
  0 <= d < 16 -> lstrip (String (digit_char d) t) = String (digit_char d) t.
Proof.
  intros H. destruct (digit_char_facts d H) as (_ & _ & S & _).
  cbn [lstrip]. now rewrite S.
Qed.

Lemma strip_sign_digit (d : Z) (t : string) :
  0 <= d < 16 ->
  strip_sign (String (digit_char d) t) = (false, String (digit_char d) t).
Proof.
  intros H. destruct (digit_char_facts d H) as (_ & _ & _ & P & M).
  cbn [strip_sign]. now rewrite P, M.
Qed.

(** [int("0x" + format(z, "08X"), 16) == z]. *)
Lemma int_of_hex_literal (z : Z) :
  0 <= z -> int_of_str 16 ("0x" +s+ format_08X z) = Ok z.
Proof.
  intros Hz. unfold format_08X, format_int.
  replace (z <? 0) with false by (symmetry; apply Z.ltb_ge; lia).
  destruct (zfill_head 16 8 z ltac:(lia)) as (d & t & Hd & E).
  destruct (scan_zfill 16 8 z ltac:(lia) Hz) as [k Hk].
  rewrite E in *.
  destruct (digit_char_facts d Hd) as (_ & U & _).
  unfold int_of_str.
  change (lstrip ("0x" +s+ String (digit_char d) t))
    with ("0x" +s+ String (digit_char d) t).
  change (strip_sign ("0x" +s+ String (digit_char d) t))
    with (false, "0x" +s+ String (digit_char d) t).
  cbv iota beta. change (16 =? 16) with true. cbv iota.
  change (strip_hex_prefix ("0x" +s+ String (digit_char d) t))
    with (if is_underscore (digit_char d) then t
          else String (digit_char d) t).
  rewrite U. rewrite U. rewrite Hk. reflexivity.
Qed.

Lemma hundred_below_limit : 100 <= 10 ^ max_str_digits.
Proof.
  change 100 with (10 ^ 2). apply Z.pow_le_mono_r; unfold max_str_digits; lia.
Qed.

Lemma limit_positive : 1 <= max_str_digits.
Proof. discriminate. Qed.

(** [str(z)] returns the decimal text of an integer of at most 4300
    digits. *)
Lemma str_small (z : Z) :
  - 10 ^ max_str_digits < z < 10 ^ max_str_digits -> str z = Ok (decimal z).
Proof.
  intros B. unfold str.
  pose proof (length_digits_Z 10 (Z.abs z) max_str_digits) as D.
  replace (max_str_digits <? _) with false; [reflexivity|].
  symmetry. apply Z.ltb_ge. apply D; [lia | apply limit_positive | lia].
Qed.

(** [str(z)] refuses an integer of more than [max_str_digits] digits. *)
Lemma str_refuses (z : Z) :
  10 ^ max_str_digits <= Z.abs z -> str z = Raise ValueError.
Proof.
  intros B. unfold str.
  pose proof (length_digits_ge 10 (Z.abs z) (Z.to_nat max_str_digits)) as L.
  rewrite Z2Nat.id in L by discriminate.
  specialize (L ltac:(lia) B).
  replace (max_str_digits <? _) with true; [reflexivity|].
  symmetry. apply Z.ltb_lt.
  rewrite <- (Z2Nat.id max_str_digits) at 1 by discriminate. lia.
Qed.

(** [int(str(z)) == z], for such an integer. *)
Lemma int_of_decimal (z : Z) :
  - 10 ^ max_str_digits < z < 10 ^ max_str_digits -> int_of_str 10 (decimal z) = Ok z.
Proof.
  intros B. unfold decimal, format_int.
  destruct (z <? 0) eqn:N.
  - apply Z.ltb_lt in N.
    destruct (zfill_head 10 (0 - 1) (- z) ltac:(lia)) as (d & t & Hd & E).
    destruct (scan_zfill 10 (0 - 1) (- z) ltac:(lia) ltac:(lia)) as [k Hk].
    assert (L : (max_str_digits <? Z.of_nat (S k)) = false).
    { apply Z.ltb_ge.
      pose proof (scan_digits_count _ _ _ _ _ _ _ _ Hk) as C.
      rewrite length_zfill in C.
      pose proof (length_digits_Z 10 (- z) max_str_digits) as D.
      assert (D' : Z.of_nat (String.length (digits 10 (- z)))
                   <= max_str_digits)
        by (apply D; [lia | apply limit_positive | lia]).
      cbn [Nat.sub Nat.max Nat.add] in C. lia. }
    rewrite E in *.
    destruct (digit_char_facts d ltac:(lia)) as (_ & U & _).
    unfold int_of_str.
    change (lstrip ("-" +s+ String (digit_char d) t))
      with ("-" +s+ String (digit_char d) t).
    change (strip_sign ("-" +s+ String (digit_char d) t))
      with (true, String (digit_char d) t).
    cbv iota beta. change (10 =? 16) with false. cbv iota.
    rewrite U, Hk. change (power_of_two 10) with false.
    cbn [negb andb]. rewrite L. cbn [lstrip]. f_equal. lia.
  - apply Z.ltb_ge in N.
    destruct (zfill_head 10 0 z ltac:(lia)) as (d & t & Hd & E).
    destruct (scan_zfill 10 0 z ltac:(lia) N) as [k Hk].
    assert (L : (max_str_digits <? Z.of_nat (S k)) = false).
    { apply Z.ltb_ge.
      pose proof (scan_digits_count _ _ _ _ _ _ _ _ Hk) as C.
      rewrite length_zfill in C.
      pose proof (length_digits_Z 10 z max_str_digits) as D.
      assert (D' : Z.of_nat (String.length (digits 10 z))
                   <= max_str_digits)
        by (apply D; [lia | apply limit_positive | lia]).
      cbn [Nat.sub Nat.max Nat.add] in C. lia. }
    rewrite E in *.
    destruct (digit_char_facts d ltac:(lia)) as (_ & U & _).
    unfold int_of_str.
    rewrite lstrip_digit, strip_sign_digit by lia.
    change (10 =? 16) with false. cbv iota.
    rewrite U, Hk. change (power_of_two 10) with false.
    cbn [negb andb]. rewrite L. reflexivity.
Qed.

Lemma prefix_0x (s : string) :
  startswith s "0x" = true -> exists r, s = "0x" +s+ r.
Proof.
  unfold startswith. destruct s as [|c0 [|c1 r]]; cbn [String.prefix].
  - discriminate.
  - destruct (ascii_dec "0" c0); discriminate.
  - destruct (ascii_dec "0" c0) as [<-|]; [|discriminate].
    destruct (ascii_dec "x" c1) as [<-|]; [|discriminate].
    intros _. now exists r.
Qed.

Lemma startswith_0x (r : string) : startswith ("0x" +s+ r) "0x" = true.
Proof. now destruct r. Qed.

(** [int(x)] of a float is below [2^1024] in absolute value. *)
Lemma int_of_float_range (x : float) (n : Z) :
  int_of_float x = Ok n -> - 2 ^ 1024 < n < 2 ^ 1024.
Proof.
  unfold int_of_float. pose proof (Prim2SF_valid x) as V.
  destruct (Prim2SF x) as [s|s| |s m e]; try discriminate.
  - intros H. injection H as <-. split; reflexivity.
  - destruct (valid_finite s m e V) as (E & _ & Dg).
    destruct (digits2_pos_bounds m) as [_ U].
    assert (M : Zpos m < 2 ^ 53).
    { eapply Z.lt_le_trans; [exact U|]. apply Z.pow_le_mono_r; lia. }
    set (a := match e with
              | 0 => Zpos m
              | Zpos p => Zpos m * 2 ^ Zpos p
              | Zneg p => Zpos m / 2 ^ Zpos p
              end).
    assert (A : 0 <= a < 2 ^ 1024).
    { destruct e as [|p|p]; unfold a.
      - split; [lia|]. eapply Z.lt_trans; [exact M|].
        apply Z.pow_lt_mono_r; lia.
      - assert (P : 0 < 2 ^ Zpos p <= 2 ^ 971).
        { split; [apply Z.pow_pos_nonneg; lia|].
          apply Z.pow_le_mono_r; lia. }
        replace (2 ^ 1024) with (2 ^ 53 * 2 ^ 971)
          by (rewrite <- Z.pow_add_r by lia; reflexivity).
        split; [nia|].
        apply Z.le_lt_trans with (Zpos m * 2 ^ 971); [nia|].
        apply Z.mul_lt_mono_pos_r; [lia|exact M].
      - assert (P : 0 < 2 ^ Zpos p) by (apply Z.pow_pos_nonneg; lia).
        split; [apply Z.div_pos; lia|].
        apply Z.le_lt_trans with (Zpos m).
        + apply Z.div_le_upper_bound; [exact P|]. nia.
        + eapply Z.lt_trans; [exact M|]. apply Z.pow_lt_mono_r; lia. }
    clearbody a. set (K := 2 ^ 1024) in *.
    intros H. injection H as <-. destruct s; lia.
Qed.

(** The delay interpolated by [write_logic] comes from a float: its
    decimal text is within the limit of [str]. *)
Lemma delay_text (vm : VarianceModel) (d : Z) :
  base_delay vm = Ok d -> str d = Ok (decimal d).
Proof.
  intros H. destruct (base_delay_spec vm d H) as (n & N & ->).
  apply int_of_float_range in N. apply str_small.
  assert (P : 2 ^ 1024 < 10 ^ max_str_digits).
  { apply Z.lt_le_trans with (10 ^ 1024).
    - apply Z.pow_lt_mono_l; lia.
    - apply Z.pow_le_mono_r; unfold max_str_digits; lia. }
  set (K := 2 ^ 1024) in *. clearbody K. lia.
Qed.

Lemma decimal_not_hex (z : Z) :
  - 10 ^ max_str_digits < z < 10 ^ max_str_digits -> startswith (decimal z) "0x" = false.
Proof.
  intros B.
  destruct (startswith (decimal z) "0x") eqn:E; [exfalso|reflexivity].
  destruct (prefix_0x _ E) as [r Hr].
  pose proof (int_of_decimal z B) as D. rewrite Hr in D.
  discriminate D.
Qed.

(** X1: an offset may be given as an [int], as a decimal string or as a
    string that starts with [0x].  For every [z] with [0 <= z < 10^4300]
    (4300 digits is the longest decimal text that [str] and [int]
    convert, [max_str_digits]), the integer
    [z], the text [str(z)] and the text ["0x" + format(z, "08X")] resolve
    to the same offset [z], and so give the same line in the read
    [case]; the label printed there reads back as [z].  As an [int] and
    as its decimal text a negative [n] above [-10^4300] is accepted
    too. *)
Theorem X1_offset_notations (name value rw : string) (z : Z) :
  0 <= z < 10 ^ max_str_digits ->
  let reg := fun off => {| reg_name := name; reg_value := value;
                           reg_offset := off; reg_rw := rw |} in
  let line := "            32'h" +s+ format_08X z +s+ ": bar_rd_data = "
                +s+ name +s+ "_reg;" in
  str z = Ok (decimal z)
  /\ parse_offset (reg (PInt z)) = Ok z
  /\ parse_offset (reg (PStr (decimal z))) = Ok z
  /\ parse_offset (reg (PStr ("0x" +s+ format_08X z))) = Ok z
  /\ read_entry (reg (PInt z)) = Ok line
  /\ read_entry (reg (PStr (decimal z))) = Ok line
  /\ read_entry (reg (PStr ("0x" +s+ format_08X z))) = Ok line
  /\ int_of_str 16 ("0x" +s+ format_08X z) = Ok z
  /\ (forall n, - 10 ^ max_str_digits < n < 0 ->
                str n = Ok (decimal n)
                /\ parse_offset (reg (PInt n)) = Ok n
                /\ parse_offset (reg (PStr (decimal n))) = Ok n).
Proof.
  intros Hz reg line.
  assert (A : parse_offset (reg (PInt z)) = Ok z) by reflexivity.
  assert (D : forall n, - 10 ^ max_str_digits < n < 10 ^ max_str_digits ->
                        parse_offset (reg (PStr (decimal n))) = Ok n).
  { intros n B. unfold parse_offset, reg. cbn [reg_offset].
    rewrite decimal_not_hex by exact B. now apply int_of_decimal. }
  assert (H : parse_offset (reg (PStr ("0x" +s+ format_08X z))) = Ok z).
  { unfold parse_offset, reg. cbn [reg_offset].
    rewrite startswith_0x.
    apply int_of_hex_literal. lia. }
  assert (B : - 10 ^ max_str_digits < z < 10 ^ max_str_digits) by lia.
  assert (Dz := D z B).
  split; [now apply str_small|].
  split; [exact A|]. split; [exact Dz|]. split; [exact H|].
  split; [unfold read_entry; rewrite A; reflexivity|].
  split; [unfold read_entry; rewrite Dz; reflexivity|].
  split; [unfold read_entry; rewrite H; reflexivity|].
  split; [apply int_of_hex_literal; lia|].
  intros n Hn.
  assert (Bn : - 10 ^ max_str_digits < n < 10 ^ max_str_digits) by lia.
  split; [now apply str_small|]. split; [reflexivity|]. now apply D.
Qed.

Lemma X1_offset_notations_witness :
  0 <= 48 < 10 ^ max_str_digits
  /\ str 48 = Ok "48"
  /\ parse_offset {| reg_name := "ctrl"; reg_value := "0x0";
                     reg_offset := PStr "48"; reg_rw := "rw" |} = Ok 48
  /\ read_entry {| reg_name := "ctrl"; reg_value := "0x0";
                   reg_offset := PStr "0x00000030"; reg_rw := "rw" |}
     = Ok "            32'h00000030: bar_rd_data = ctrl_reg;".
Proof.
  assert (B : 0 <= 48 < 10 ^ max_str_digits).
  { pose proof hundred_below_limit as P. lia. }
  destruct (X1_offset_notations "ctrl" "0x0" "rw" 48 B)
    as (S & _ & D & _ & _ & _ & H & _).
  split; [exact B|]. split; [exact S|]. split; [exact D | exact H].
Defined.

(* ================================================================== *)
(** ** Frames: what a body reads and what it assigns                   *)
(* ================================================================== *)

Lemma eval_ext (e : expr) (rho rho' : env) :
  (forall y, In y (expr_vars e) -> rho y = rho' y) ->
  eval rho e = eval rho' e.
Proof.
  induction e as [x|w r p v|v|x hi lo|a IHa|a IHa b IHb|a IHa b IHb
                 |a IHa b IHb|a IHa b IHb|a IHa b IHb|a IHa b IHb];
    cbn [eval expr_vars]; intros H;
    try reflexivity;
    try (rewrite (H x) by (left; reflexivity); reflexivity);
    try (rewrite IHa by assumption; reflexivity);
    rewrite IHa, IHb by (intros y Hy; apply H, in_or_app; auto);
    reflexivity.
Qed.

(** The value a body gives to [x] depends on the valuation before the
    edge through the signals it reads, on the widths of the signals it
    assigns, and on the pending value of [x]. *)
Lemma exec_ext (s : stmt) (W W' : string -> Z) (cur cur' nxt nxt' : env)
      (x : string) :
  (forall y, In y (reads s) -> cur y = cur' y) ->
  (forall y, In y (assigned s) -> W y = W' y) ->
  nxt x = nxt' x ->
  exec W s cur nxt x = exec W' s cur' nxt' x.
Proof.
  revert nxt nxt'.
  induction s as [|t|y e tr|a IHa b IHb|c t IHt e IHe];
    intros nxt nxt' Hr Hw Hx; cbn [exec reads assigned] in *.
  - assumption.
  - assumption.
  - unfold upd. destruct (String.eqb y x); [|assumption].
    rewrite (eval_ext e cur cur') by assumption.
    rewrite (Hw y) by (left; reflexivity). reflexivity.
  - apply IHb.
    + intros z Hz. apply Hr, in_or_app. auto.
    + intros z Hz. apply Hw, in_or_app. auto.
    + apply IHa; [| |assumption].
      * intros z Hz. apply Hr, in_or_app. auto.
      * intros z Hz. apply Hw, in_or_app. auto.
  - rewrite (eval_ext c cur cur')
      by (intros z Hz; apply Hr, in_or_app; auto).
    destruct (truth (eval cur' c)).
    + apply IHt; [| |assumption].
      * intros z Hz. apply Hr, in_or_app. right. apply in_or_app. auto.
      * intros z Hz. apply Hw, in_or_app. auto.
    + apply IHe; [| |assumption].
      * intros z Hz. apply Hr, in_or_app. right. apply in_or_app. auto.
      * intros z Hz. apply Hw, in_or_app. auto.
Qed.

(** A body leaves alone the signals it does not assign. *)
Lemma exec_frame (s : stmt) (W : string -> Z) (cur nxt : env) (x : string) :
  ~ In x (assigned s) -> exec W s cur nxt x = nxt x.
Proof.
  revert nxt.
  induction s as [|t|y e tr|a IHa b IHb|c t IHt e IHe];
    intros nxt H; cbn [exec assigned] in *.
  - reflexivity.
  - reflexivity.
  - unfold upd. destruct (String.eqb_spec y x) as [->|N]; [|reflexivity].
    exfalso. apply H. now left.
  - rewrite IHb by (intros I; apply H, in_or_app; auto).
    apply IHa. intros I. apply H, in_or_app. auto.
  - destruct (truth (eval cur c)).
    + apply IHt. intros I. apply H, in_or_app. auto.
    + apply IHe. intros I. apply H, in_or_app. auto.
Qed.

Lemma ff_edge_app (W : string -> Z) (a b : list item) (cur nxt : env) :
  ff_edge W (a ++ b) cur nxt = ff_edge W b cur (ff_edge W a cur nxt).
Proof.
  revert nxt. induction a as [|i a IH]; intros nxt; [reflexivity|].
  destruct i; cbn [app ff_edge]; apply IH.
Qed.

Lemma declared_app (a b : list item) (x : string) :
  declared (a ++ b) x = declared a x || declared b x.
Proof.
  induction a as [|i a IH]; [reflexivity|].
  destruct i; cbn [app declared]; rewrite IH; try reflexivity.
  now rewrite orb_assoc.
Qed.

Lemma width_of_app (a b : list item) (x : string) :
  width_of (a ++ b) x = if declared a x then width_of a x else width_of b x.
Proof.
  induction a as [|i a IH]; [reflexivity|].
  destruct i; cbn [app width_of declared]; try exact IH.
  match goal with
  | |- context [String.eqb ?y x] => destruct (String.eqb y x)
  end; [reflexivity|exact IH].
Qed.

(* ================================================================== *)
(** ** The signals of different registers are different                *)
(* ================================================================== *)


Lemma append_inj_r (a b s : string) : a +s+ s = b +s+ s -> a = b.
Proof.
  revert b. induction a as [|c a IH]; intros b H.
  - destruct b as [|d b]; [reflexivity|].
    apply (f_equal String.length) in H.
    cbn [String.append String.length] in H. rewrite length_append in H. lia.
  - destruct b as [|d b].
    + apply (f_equal String.length) in H.
      cbn [String.append String.length] in H. rewrite length_append in H.
      lia.
    + cbn [String.append] in H. injection H as -> H. f_equal. now apply IH.
Qed.

(** A suffix no longer than [t] can only be found inside [t]. *)
Lemma ends_with_long (suf a t : string) :
  (String.length suf <= String.length t)%nat ->
  ends_with suf (a +s+ t) = ends_with suf t.
Proof.
  intros L. induction a as [|c a IH]; [reflexivity|].
  cbn [String.append ends_with]. rewrite IH.
  replace (String.eqb (String c (a +s+ t)) suf) with false; [reflexivity|].
  symmetry. apply String.eqb_neq. intros E.
  apply (f_equal String.length) in E.
  cbn [String.length] in E. rewrite length_append in E. lia.
Qed.

Lemma signal_inj (n1 n2 s1 s2 : string) :
  In s1 suffixes -> In s2 suffixes ->
  n1 +s+ s1 = n2 +s+ s2 -> n1 = n2 /\ s1 = s2.
Proof.
  unfold suffixes. cbn [In]. intros H1 H2 E.
  assert (D : s1 = s2).
  { destruct H1 as [<- | [<- | [<- | [ ] ] ] ], H2 as [<- | [<- | [<- | [ ] ] ] ];
      try reflexivity; exfalso.
    - pose proof (ends_with_append "_reg" n1) as A. rewrite E in A.
      rewrite ends_with_long in A by (cbn; lia). discriminate A.
    - pose proof (ends_with_append "_reg" n1) as A. rewrite E in A.
      rewrite ends_with_long in A by (cbn; lia). discriminate A.
    - pose proof (ends_with_append "_reg" n2) as A. rewrite <- E in A.
      rewrite ends_with_long in A by (cbn; lia). discriminate A.
    - pose proof (ends_with_append "_access_pending" n1) as A.
      rewrite E in A.
      rewrite ends_with_long in A by (cbn; lia). discriminate A.
    - pose proof (ends_with_append "_reg" n2) as A. rewrite <- E in A.
      rewrite ends_with_long in A by (cbn; lia). discriminate A.
    - pose proof (ends_with_append "_timing_counter" n1) as A.
      rewrite E in A.
      rewrite ends_with_long in A by (cbn; lia). discriminate A. }
  subst s2. split; [|reflexivity]. now apply append_inj_r in E.
Qed.

Lemma owns_suffix (name x : string) :
  owns name x <-> exists s, In s suffixes /\ x = name +s+ s.
Proof.
  unfold owns, sig_reg, sig_pending, sig_counter, suffixes. cbn [In]. split.
  - intros [-> | [-> | ->]];
      [exists "_reg" | exists "_access_pending" | exists "_timing_counter"];
      (split; [auto | reflexivity]).
  - intros (s & [<- | [<- | [<- | [ ] ] ] ] & ->); auto.
Qed.

Lemma owns_disjoint (n1 n2 x : string) : owns n1 x -> owns n2 x -> n1 = n2.
Proof.
  rewrite !owns_suffix. intros (s1 & I1 & ->) (s2 & I2 & E).
  now destruct (signal_inj n1 n2 s1 s2 I1 I2 E).
Qed.

(** No signal of a register is one of the ports or of the global signals
    of the register logic. *)
Lemma owns_not_const (name x c : string) :
  owns name x ->
  ends_with "_reg" c = false ->
  ends_with "_access_pending" c = false ->
  ends_with "_timing_counter" c = false ->
  x <> c.
Proof.
  intros [-> | [-> | ->]] H1 H2 H3 E;
    unfold sig_reg, sig_pending, sig_counter in E.
  - rewrite <- E, ends_with_append in H1. discriminate.
  - rewrite <- E, ends_with_append in H2. discriminate.
  - rewrite <- E, ends_with_append in H3. discriminate.
Qed.

(* ================================================================== *)
(** ** The register logic of a list of registers                       *)
(* ================================================================== *)

Lemma declared_slot_decls (s : slot) (x : string) :
  declared (slot_decls s) x = true <-> owns (slot_name s) x.
Proof.
  unfold slot_decls, decl_items, owns. cbn [declared].
  rewrite orb_false_r, !orb_true_iff, !String.eqb_eq.
  intuition auto.
Qed.

Lemma declared_decls (slots : list slot) (x : string) :
  declared (flat_map slot_decls slots) x = true
  <-> exists s, In s slots /\ owns (slot_name s) x.
Proof.
  induction slots as [|s0 slots IH]; cbn [flat_map].
  - cbn [declared]. split; [discriminate|]. now intros (s & [] & _).
  - rewrite declared_app, orb_true_iff, declared_slot_decls, IH. split.
    + intros [H|(s & I & H)]; [exists s0|exists s]; cbn [In]; auto.
    + intros (s & [<-|I] & H); [left|right; exists s]; auto.
Qed.

Lemma declared_writes (d : option Z) (slots : list slot) (x : string) :
  declared (flat_map (slot_writes d) slots) x = false.
Proof.
  induction slots as [|s0 slots IH]; [reflexivity|].
  cbn [flat_map]. rewrite declared_app, IH. unfold slot_writes.
  now destruct (slot_writable s0).
Qed.

Lemma declared_design (slots : list slot) (d : option Z) (x : string) :
  declared (design slots d) x = true
  <-> x = "register_access_timer" \/ x = "register_write_pending"
      \/ exists s, In s slots /\ owns (slot_name s) x.
Proof.
  unfold design. rewrite !declared_app, declared_writes.
  change (declared global_timing_items x) with false.
  rewrite !orb_false_r, orb_true_iff, declared_decls.
  unfold global_decl_items. cbn [declared].
  rewrite orb_false_r, orb_true_iff, !String.eqb_eq.
  intuition auto.
Qed.

Lemma sample_design_owned (slots : list slot) (d : option Z) (s : slot)
      (ins st : env) (x : string) :
  In s slots -> owns (slot_name s) x ->
  sample (design slots d) ins st x = st x.
Proof.
  intros I O. unfold sample.
  replace (declared (design slots d) x) with true; [reflexivity|].
  symmetry. apply declared_design. right. right. now exists s.
Qed.

Lemma sample_design_global (slots : list slot) (d : option Z)
      (ins st : env) (x : string) :
  x = "register_access_timer" \/ x = "register_write_pending" ->
  sample (design slots d) ins st x = st x.
Proof.
  intros H. unfold sample.
  replace (declared (design slots d) x) with true; [reflexivity|].
  symmetry. apply declared_design. tauto.
Qed.

(** A signal of the module that is neither a global signal of the register
    logic nor named like a signal of a register comes from outside. *)
Lemma sample_design_port (slots : list slot) (d : option Z)
      (ins st : env) (c : string) :
  c <> "register_access_timer" -> c <> "register_write_pending" ->
  ends_with "_reg" c = false ->
  ends_with "_access_pending" c = false ->
  ends_with "_timing_counter" c = false ->
  sample (design slots d) ins st c = ins c.
Proof.
  intros N1 N2 E1 E2 E3. unfold sample.
  destruct (declared (design slots d) c) eqn:D; [exfalso|reflexivity].
  apply declared_design in D.
  destruct D as [D|[D|(s & _ & O)]]; [tauto|tauto|].
  now apply (owns_not_const _ _ c O).
Qed.

Lemma width_slot_decls (s : slot) (rest : list item) (x : string) :
  width_of (slot_decls s ++ rest) x
  = if String.eqb (sig_reg (slot_name s)) x then 32
    else if String.eqb (sig_pending (slot_name s)) x then 1
    else if String.eqb (sig_counter (slot_name s)) x then 8
    else width_of rest x.
Proof. reflexivity. Qed.

Lemma width_slot_decls_other (s : slot) (rest : list item) (n x : string) :
  owns n x -> slot_name s <> n ->
  width_of (slot_decls s ++ rest) x = width_of rest x.
Proof.
  intros O N. rewrite width_slot_decls.
  assert (F : forall y, owns (slot_name s) y -> String.eqb y x = false).
  { intros y Oy. apply String.eqb_neq. intros ->.
    apply N. now apply (owns_disjoint _ _ x). }
  rewrite !F by (unfold owns; auto). reflexivity.
Qed.

Lemma width_slot_decls_own (s : slot) (rest : list item) :
  let n := slot_name s in
  width_of (slot_decls s ++ rest) (sig_reg n) = 32
  /\ width_of (slot_decls s ++ rest) (sig_pending n) = 1
  /\ width_of (slot_decls s ++ rest) (sig_counter n) = 8.
Proof.
  intros n. rewrite !width_slot_decls. subst n.
  repeat split; sig_eqb; reflexivity.
Qed.

Lemma width_decls (slots : list slot) (rest : list item) (s : slot) :
  In s slots ->
  let n := slot_name s in
  width_of (flat_map slot_decls slots ++ rest) (sig_reg n) = 32
  /\ width_of (flat_map slot_decls slots ++ rest) (sig_pending n) = 1
  /\ width_of (flat_map slot_decls slots ++ rest) (sig_counter n) = 8.
Proof.
  intros I n. induction slots as [|s0 slots IH]; [destruct I|].
  cbn [flat_map]. rewrite <- !app_assoc.
  destruct (string_dec (slot_name s0) n) as [E|N].
  - unfold n in *. rewrite <- E. apply width_slot_decls_own.
  - rewrite !(width_slot_decls_other s0 _ n) by (unfold owns; auto).
    destruct I as [<-|I]; [now elim N|]. now apply IH.
Qed.

Lemma width_design_owned (slots : list slot) (d : option Z) (s : slot) :
  In s slots ->
  let n := slot_name s in
  width_of (design slots d) (sig_reg n) = 32
  /\ width_of (design slots d) (sig_pending n) = 1
  /\ width_of (design slots d) (sig_counter n) = 8.
Proof.
  intros I n. unfold design, global_decl_items.
  cbn [app width_of]. unfold n, sig_reg, sig_pending, sig_counter.
  rewrite !(String.eqb_sym "register_access_timer"),
          !(String.eqb_sym "register_write_pending").
  rewrite !sig_neq_const by reflexivity.
  now apply width_decls.
Qed.

Lemma assigned_write_block (n : string) (v o : Z) (d : option Z) (x : string) :
  In x (assigned (write_block n v o d)) -> owns n x.
Proof.
  unfold owns. destruct d; cbn [write_block assigned app In];
    intuition auto.
Qed.

Lemma reads_write_block (n : string) (v o : Z) (d : option Z) (y : string) :
  In y (reads (write_block n v o d)) ->
  owns n y
  \/ In y ["reset_n"; "bar_wr_en"; "bar_addr"; "bar_wr_data"].
Proof.
  unfold owns. destruct d;
    cbn [write_block reads expr_vars app In b0 b1]; intuition auto.
Qed.

Lemma ff_edge_decls (W : string -> Z) (slots : list slot) (cur nxt : env) :
  ff_edge W (flat_map slot_decls slots) cur nxt = nxt.
Proof.
  revert nxt. induction slots as [|s slots IH]; intros nxt; [reflexivity|].
  cbn [flat_map]. now rewrite ff_edge_app, IH.
Qed.

Lemma ff_edge_slot_writes (W : string -> Z) (d : option Z) (s : slot)
      (cur nxt : env) :
  ff_edge W (slot_writes d s) cur nxt
  = if slot_writable s
    then exec W (write_block (slot_name s) (slot_reset s) (slot_offset s) d)
              cur nxt
    else nxt.
Proof. unfold slot_writes. now destruct (slot_writable s). Qed.

(** The write block of a register leaves alone the signals that are not
    its own. *)
Lemma slot_writes_frame (W : string -> Z) (d : option Z) (s : slot)
      (cur nxt : env) (x : string) :
  ~ owns (slot_name s) x ->
  ff_edge W (slot_writes d s) cur nxt x = nxt x.
Proof.
  intros N. rewrite ff_edge_slot_writes.
  destruct (slot_writable s); [|reflexivity].
  apply exec_frame. intros I. apply N. now apply assigned_write_block in I.
Qed.

Lemma writes_frame (W : string -> Z) (d : option Z) (slots : list slot)
      (cur nxt : env) (x : string) :
  (forall s, In s slots -> slot_writable s = true ->
             ~ owns (slot_name s) x) ->
  ff_edge W (flat_map (slot_writes d) slots) cur nxt x = nxt x.
Proof.
  revert nxt. induction slots as [|s0 slots IH]; intros nxt H;
    [reflexivity|].
  cbn [flat_map]. rewrite ff_edge_app.
  rewrite IH by (intros s I; apply H; now right).
  rewrite ff_edge_slot_writes.
  destruct (slot_writable s0) eqn:Wr; [|reflexivity].
  apply exec_frame. intros I. apply assigned_write_block in I.
  now apply (H s0 (or_introl eq_refl) Wr).
Qed.

(** With distinct names, the only block that gives a value to a signal of
    a writable register is the block of that register. *)
Lemma writes_own (W : string -> Z) (d : option Z) (slots : list slot)
      (s : slot) (cur nxt : env) (x : string) :
  NoDup (map slot_name slots) ->
  In s slots -> slot_writable s = true -> owns (slot_name s) x ->
  ff_edge W (flat_map (slot_writes d) slots) cur nxt x
  = exec W (write_block (slot_name s) (slot_reset s) (slot_offset s) d)
         cur nxt x.
Proof.
  revert nxt. induction slots as [|s0 slots IH]; intros nxt ND I Wr O;
    [destruct I|].
  cbn [map] in ND. inversion ND as [|n ns Hn ND']; subst.
  cbn [flat_map]. rewrite ff_edge_app.
  destruct I as [->|I].
  - rewrite writes_frame.
    + rewrite ff_edge_slot_writes, Wr. reflexivity.
    + intros s' I' _ O'. apply Hn.
      rewrite (owns_disjoint _ _ x O O'). now apply in_map.
  - rewrite IH by assumption.
    apply exec_ext; [reflexivity | reflexivity |].
    apply slot_writes_frame. intros O0. apply Hn.
    rewrite (owns_disjoint _ _ x O0 O). now apply in_map.
Qed.

Lemma global_block_frame (W : string -> Z) (cur nxt : env) (n x : string) :
  owns n x -> exec W global_timing_block cur nxt x = nxt x.
Proof.
  intros O. apply exec_frame.
  cbn [global_timing_block assigned app In]. intros I.
  assert (C : x = "register_access_timer" \/ x = "register_write_pending")
    by intuition auto.
  destruct C as [C|C]; revert C; now apply (owns_not_const n).
Qed.

(** One edge of the whole register logic, split into its blocks. *)
Lemma design_edge (slots : list slot) (d : option Z) (W : string -> Z)
      (cur nxt : env) :
  ff_edge W (design slots d) cur nxt
  = ff_edge W (flat_map (slot_writes d) slots) cur
      (exec W global_timing_block cur nxt).
Proof.
  unfold design. rewrite !ff_edge_app, ff_edge_decls. reflexivity.
Qed.

(** In the register logic of registers with distinct names, an edge acts
    on the signals of a writable register as it does in the fragment of
    that register alone. *)
Lemma design_cycle_owned (slots : list slot) (d : option Z) (s : slot)
      (ins st : env) (x : string) :
  NoDup (map slot_name slots) ->
  In s slots -> slot_writable s = true -> owns (slot_name s) x ->
  cycle (design slots d) ins st x
  = cycle (reg_fragment (slot_name s) (slot_init s) (slot_reset s)
                        (slot_offset s) d) ins st x.
Proof.
  intros ND I Wr O.
  rewrite fragment_cycle. unfold cycle.
  rewrite design_edge, (writes_own _ _ _ s) by assumption.
  destruct (fragment_sample_stored (slot_name s) (slot_init s)
              (slot_reset s) (slot_offset s) d ins st) as (SR & SP & SC).
  destruct (fragment_widths (slot_name s) (slot_init s)
              (slot_reset s) (slot_offset s) d) as (WR & WP & WC).
  destruct (width_design_owned slots d s I) as (VR & VP & VC).
  assert (Own : forall y, owns (slot_name s) y ->
                  sample (design slots d) ins st y
                  = sample (reg_fragment (slot_name s) (slot_init s)
                              (slot_reset s) (slot_offset s) d) ins st y
                  /\ width_of (design slots d) y
                     = width_of (reg_fragment (slot_name s) (slot_init s)
                                   (slot_reset s) (slot_offset s) d) y).
  { intros y Oy. rewrite (sample_design_owned _ _ s) by assumption.
    destruct Oy as [-> | [-> | ->]]; split; congruence. }
  apply exec_ext.
  - intros y Hy. apply reads_write_block in Hy.
    destruct Hy as [Oy|P]; [now apply Own|].
    cbn [In] in P.
    destruct P as [<- | [<- | [<- | [<- | [ ] ] ] ] ];
      (rewrite sample_design_port by (reflexivity || discriminate);
       rewrite fragment_sample_input by reflexivity; reflexivity).
  - intros y Hy. apply assigned_write_block in Hy. now apply Own.
  - rewrite (global_block_frame _ _ _ (slot_name s)) by assumption.
    now apply Own.
Qed.

Lemma design_cycle_read_only (slots : list slot) (d : option Z) (s : slot)
      (ins st : env) (x : string) :
  NoDup (map slot_name slots) ->
  In s slots -> slot_writable s = false -> owns (slot_name s) x ->
  cycle (design slots d) ins st x = st x.
Proof.
  intros ND I Wr O. unfold cycle. rewrite design_edge, writes_frame.
  - rewrite (global_block_frame _ _ _ (slot_name s)) by assumption.
    now apply (sample_design_owned _ _ s).
  - intros s' I' Wr' O'.
    assert (E : slot_name s' = slot_name s) by now apply (owns_disjoint _ _ x).
    assert (s' = s); [|congruence].
    clear - ND I I' E. induction slots as [|s0 slots IH]; [destruct I|].
    cbn [map] in ND. inversion ND as [|n ns Hn ND']; subst.
    destruct I as [->|I], I' as [->|I']; try reflexivity.
    + exfalso. apply Hn. rewrite <- E. now apply in_map.
    + exfalso. apply Hn. rewrite E. now apply in_map.
    + now apply IH.
Qed.

Lemma design_cycle_global (slots : list slot) (d : option Z)
      (ins st : env) (x : string) :
  x = "register_access_timer" \/ x = "register_write_pending" ->
  cycle (design slots d) ins st x = cycle timing_fragment ins st x.
Proof.
  intros G. unfold cycle. rewrite design_edge, writes_frame.
  - change (ff_edge (width_of timing_fragment) timing_fragment
              (sample timing_fragment ins st) (sample timing_fragment ins st))
      with (exec (width_of timing_fragment) global_timing_block
              (sample timing_fragment ins st) (sample timing_fragment ins st)).
    apply exec_ext.
    + cbn [global_timing_block reads expr_vars app In b0 b1].
      intros y Hy.
      assert (C : y = "reset_n" \/ y = "bar_wr_en"
                  \/ y = "register_access_timer"
                  \/ y = "register_write_pending") by intuition auto.
      destruct C as [-> | [-> | C]].
      * now rewrite sample_design_port by (reflexivity || discriminate).
      * now rewrite sample_design_port by (reflexivity || discriminate).
      * rewrite sample_design_global by assumption.
        destruct C as [-> | ->]; reflexivity.
    + cbn [global_timing_block assigned app In]. intros y Hy.
      assert (C : y = "register_access_timer"
                  \/ y = "register_write_pending") by intuition auto.
      destruct C as [-> | ->]; reflexivity.
    + rewrite sample_design_global by assumption.
      destruct G as [-> | ->]; reflexivity.
  - intros s _ _ O.
    destruct G as [G|G]; revert G; now apply (owns_not_const (slot_name s)).
Qed.

(** In its own fragment, the next values of the signals of a register
    depend on the stored state through these signals only. *)
Lemma fragment_cycle_ext (n : string) (init : expr) (v o : Z) (d : option Z)
      (ins st st' : env) (x : string) :
  (forall y, owns n y -> st y = st' y) -> owns n x ->
  cycle (reg_fragment n init v o d) ins st x
  = cycle (reg_fragment n init v o d) ins st' x.
Proof.
  intros H O. rewrite !fragment_cycle.
  assert (Own : forall y, owns n y ->
                  sample (reg_fragment n init v o d) ins st y
                  = sample (reg_fragment n init v o d) ins st' y).
  { intros y Oy.
    destruct (fragment_sample_stored n init v o d ins st) as (A & B & C).
    destruct (fragment_sample_stored n init v o d ins st') as (A' & B' & C').
    pose proof (H y Oy).
    destruct Oy as [-> | [-> | ->]]; congruence. }
  apply exec_ext.
  - intros y Hy. apply reads_write_block in Hy.
    destruct Hy as [Oy|P]; [now apply Own|].
    cbn [In] in P.
    destruct P as [<- | [<- | [<- | [<- | [ ] ] ] ] ];
      now rewrite !fragment_sample_input by reflexivity.
  - reflexivity.
  - now apply Own.
Qed.

(** Along any trace, the signals of a writable register evolve in the
    whole register logic as in the fragment of the register alone. *)
Lemma design_run_owned (slots : list slot) (d : option Z) (s : slot)
      (ins : nat -> env) (st : env) (k : nat) :
  NoDup (map slot_name slots) ->
  In s slots -> slot_writable s = true ->
  forall x, owns (slot_name s) x ->
    run (design slots d) ins k st x
    = run (reg_fragment (slot_name s) (slot_init s) (slot_reset s)
                        (slot_offset s) d) ins k st x.
Proof.
  intros ND I Wr. induction k as [|k IH]; intros x O; [reflexivity|].
  cbn [run]. rewrite (design_cycle_owned _ _ s) by assumption.
  now apply fragment_cycle_ext.
Qed.

Lemma design_run_read_only (slots : list slot) (d : option Z) (s : slot)
      (ins : nat -> env) (st : env) (k : nat) (x : string) :
  NoDup (map slot_name slots) ->
  In s slots -> slot_writable s = false -> owns (slot_name s) x ->
  run (design slots d) ins k st x = st x.
Proof.
  intros ND I Wr O. induction k as [|k IH]; [reflexivity|].
  cbn [run]. now rewrite (design_cycle_read_only _ _ s).
Qed.

Lemma timing_cycle_ext (ins st st' : env) (x : string) :
  st "register_access_timer" = st' "register_access_timer" ->
  st "register_write_pending" = st' "register_write_pending" ->
  x = "register_access_timer" \/ x = "register_write_pending" ->
  cycle timing_fragment ins st x = cycle timing_fragment ins st' x.
Proof.
  intros E1 E2 G.
  pose proof (timing_cycle ins st) as A.
  pose proof (timing_cycle ins st') as B.
  cbv zeta in A, B. rewrite E1, E2, <- B in A.
  injection A as A1 A2. destruct G as [-> | ->]; assumption.
Qed.

Lemma design_run_global (slots : list slot) (d : option Z)
      (ins : nat -> env) (st : env) (k : nat) :
  forall x, x = "register_access_timer" \/ x = "register_write_pending" ->
    run (design slots d) ins k st x = run timing_fragment ins k st x.
Proof.
  induction k as [|k IH]; intros x G; [reflexivity|].
  cbn [run]. rewrite design_cycle_global by assumption.
  apply timing_cycle_ext; auto.
Qed.

(* ================================================================== *)
(** ** The register logic is the printed tree                          *)
(* ================================================================== *)

Lemma print_items_app (a b : list item) :
  print_items (a ++ b) = print_items a ++ print_items b.
Proof. unfold print_items. now rewrite map_app, concat_app. Qed.

Lemma declare_register_tree (vmo : option VarianceModel) (reg : Reg)
      (g : rng) :
  declare_register vmo reg g = printed (declare_tree vmo reg g).
Proof.
  destruct (int_of_str 16 (reg_value reg)) as [v|e] eqn:V.
  - destruct (String.eqb_spec (reg_name reg) shadow_status) as [S|S].
    + rewrite (declare_shadow_tree vmo reg v g S V).
      unfold declare_tree, init_of, bindM, lift, ret. rewrite V.
      cbv beta iota. rewrite S, String.eqb_refl. reflexivity.
    + apply String.eqb_neq in S.
      destruct vmo as [vm|].
      * destruct (varied_value v (g O)) as [n|e] eqn:N.
        -- apply String.eqb_neq in S.
           rewrite (declare_varied_tree vm reg v n g S V N).
           apply String.eqb_neq in S.
           unfold declare_tree, init_of, bindM, lift, ret, random.
           now rewrite V, S, N.
        -- unfold declare_register, declare_tree, init_of, bindM, lift,
             ret, random.
           now rewrite V, S, N.
      * apply String.eqb_neq in S.
        rewrite (declare_plain_tree reg v g S V).
        apply String.eqb_neq in S.
        unfold declare_tree, init_of, bindM, lift, ret.
        now rewrite V, S.
  - unfold declare_register, declare_tree, init_of, bindM, lift.
    now rewrite V.
Qed.

Lemma write_logic_is_tree (vmo : option VarianceModel) (reg : Reg) :
  write_logic vmo reg
  = match write_tree vmo reg with
    | Ok items => Ok (print_items items)
    | Raise e => Raise e
    end.
Proof.
  destruct (parse_offset reg) as [o|e] eqn:O.
  - destruct (writable reg) eqn:Wr.
    + destruct (int_of_str 16 (reg_value reg)) as [v|e] eqn:V.
      * destruct (delay_of vmo) as [d|e] eqn:D.
        -- rewrite (write_logic_tree vmo reg o v d O V D Wr).
           unfold write_tree. now rewrite O, Wr, V, D.
        -- unfold write_tree. rewrite O, Wr, V, D. cbn [Py.bind].
           unfold write_logic. rewrite O. cbn [Py.bind].
           unfold writable in Wr. rewrite Wr, V. cbn [Py.bind].
           destruct vmo as [vm|]; [|discriminate D].
           unfold delay_of in D.
           destruct (base_delay vm); [discriminate D|].
           injection D as ->. reflexivity.
      * unfold write_tree. rewrite O, Wr, V. cbn [Py.bind].
        unfold write_logic. rewrite O. cbn [Py.bind].
        unfold writable in Wr. now rewrite Wr, V.
    + rewrite (write_logic_read_only vmo reg o O Wr).
      unfold write_tree. now rewrite O, Wr.
  - unfold write_logic, write_tree. now rewrite O.
Qed.

Lemma for_each_tree {A} (body : A -> M (list string))
      (tbody : A -> M (list item)) (l : list A) (g : rng) :
  (forall a g, body a g = printed (tbody a g)) ->
  for_each body l g = printed (for_each_item tbody l g).
Proof.
  intros H. revert g. induction l as [|a l IH]; intros g; [reflexivity|].
  cbn [for_each for_each_item]. unfold bindM at 1 3. rewrite H.
  destruct (tbody a g) as [[xs g1]|e]; cbn [printed]; [|reflexivity].
  unfold bindM. rewrite IH.
  destruct (for_each_item tbody l g1) as [[xs' g2]|e]; cbn [printed];
    [|reflexivity].
  unfold ret. cbn [printed]. now rewrite print_items_app.
Qed.

Lemma register_logic_lines_tree (regs : list Reg)
      (vmo : option VarianceModel) (g : rng) :
  register_logic_lines regs vmo g = printed (register_tree regs vmo g).
Proof.
  unfold register_logic_lines, register_tree.
  unfold bindM at 1 3.
  rewrite (for_each_tree _ (declare_tree vmo))
    by (intros; apply declare_register_tree).
  destruct (for_each_item (declare_tree vmo) regs g) as [[D g1]|e];
    cbn [printed]; [|reflexivity].
  unfold bindM.
  rewrite (for_each_tree _ (fun reg => lift (write_tree vmo reg))).
  - destruct (for_each_item _ regs g1) as [[Wr g2]|e]; cbn [printed];
      [|reflexivity].
    unfold ret. cbn [printed]. rewrite !print_items_app.
    now rewrite global_decl_tree, global_timing_tree.
  - intros reg g0. unfold lift. rewrite write_logic_is_tree.
    now destruct (write_tree vmo reg).
Qed.

Lemma for_each_item_cons {A} (body : A -> M (list item)) (a : A)
      (l : list A) (g g' : rng) (items : list item) :
  for_each_item body (a :: l) g = Ok (items, g') ->
  exists xs g1 xs',
    body a g = Ok (xs, g1)
    /\ for_each_item body l g1 = Ok (xs', g')
    /\ items = xs ++ xs'.
Proof.
  cbn [for_each_item]. unfold bindM at 1.
  destruct (body a g) as [[xs g1]|e] eqn:B; [|discriminate].
  unfold bindM.
  destruct (for_each_item body l g1) as [[xs' g2]|e] eqn:F; [|discriminate].
  unfold ret. intros H. injection H as <- <-. now exists xs, g1, xs'.
Qed.

Lemma varied_value_range (v : Z) (r : float) (n : Z) :
  varied_value v r = Ok n -> 0 <= n < 2 ^ 32.
Proof.
  intros H. apply varied_value_spec in H. destruct H as (m & _ & ->).
  apply Z.mod_pos_bound. lia.
Qed.

Lemma declare_tree_inv (vmo : option VarianceModel) (reg : Reg)
      (g g' : rng) (xs : list item) :
  declare_tree vmo reg g = Ok (xs, g') ->
  exists init v,
    xs = decl_items (reg_name reg) init
    /\ int_of_str 16 (reg_value reg) = Ok v
    /\ (if String.eqb (reg_name reg) shadow_status
        then init = ELit 32 Hex 1 1
        else match vmo with
             | None => init = ELit 32 Hex 8 v
             | Some _ => exists n, 0 <= n < 2 ^ 32
                                   /\ init = ELit 32 Hex 8 n
             end).
Proof.
  unfold declare_tree, init_of, bindM, lift, ret, random.
  destruct (int_of_str 16 (reg_value reg)) as [v|e] eqn:V; [|discriminate].
  destruct (String.eqb (reg_name reg) shadow_status).
  - intros H. injection H as <- <-. exists (ELit 32 Hex 1 1), v.
    repeat split.
  - destruct vmo as [vm|].
    + destruct (varied_value v (g O)) as [n|e] eqn:N; [|discriminate].
      intros H. injection H as <- <-. exists (ELit 32 Hex 8 n), v.
      repeat split. exists n. split; [|reflexivity].
      now apply (varied_value_range v (g O)).
    + intros H. injection H as <- <-. exists (ELit 32 Hex 8 v), v.
      repeat split.
Qed.

Lemma write_tree_inv (vmo : option VarianceModel) (reg : Reg)
      (w : list item) :
  write_tree vmo reg = Ok w ->
  exists o,
    parse_offset reg = Ok o
    /\ (writable reg = false /\ w = []
        \/ writable reg = true
           /\ exists v d, int_of_str 16 (reg_value reg) = Ok v
                          /\ delay_of vmo = Ok d
                          /\ w = write_items (reg_name reg) v o d).
Proof.
  unfold write_tree.
  destruct (parse_offset reg) as [o|e] eqn:O; [|discriminate].
  cbn [Py.bind].
  destruct (writable reg).
  - destruct (int_of_str 16 (reg_value reg)) as [v|e] eqn:V; [|discriminate].
    cbn [Py.bind].
    destruct (delay_of vmo) as [d|e] eqn:D; [|discriminate]. cbn [Py.bind].
    intros H. injection H as <-. exists o. split; [reflexivity|].
    right. split; [reflexivity|]. now exists v, d.
  - intros H. injection H as <-. exists o. auto.
Qed.

(** The delay of the write blocks of a design. *)
Lemma loops_slots (vmo : option VarianceModel) (d : option Z)
      (regs : list Reg) :
  (forall d', delay_of vmo = Ok d' -> d' = d) ->
  forall (g g1 g2 g3 : rng) (D Wr : list item),
    for_each_item (declare_tree vmo) regs g = Ok (D, g1) ->
    for_each_item (fun reg => lift (write_tree vmo reg)) regs g2
    = Ok (Wr, g3) ->
    exists slots,
      D = flat_map slot_decls slots
      /\ Wr = flat_map (slot_writes d) slots
      /\ Forall2 (describes vmo) regs slots.
Proof.
  intros Hd. induction regs as [|reg regs IH]; intros g g1 g2 g3 D Wr HD HW.
  - cbn in HD, HW. injection HD as <- _. injection HW as <- _.
    exists []. repeat split. constructor.
  - apply for_each_item_cons in HD.
    destruct HD as (xs & ga & xs' & H1 & H2 & ->).
    apply for_each_item_cons in HW.
    destruct HW as (ws & gb & ws' & H3 & H4 & ->).
    destruct (IH _ _ _ _ _ _ H2 H4) as (slots & -> & -> & F).
    apply declare_tree_inv in H1.
    destruct H1 as (init & v & -> & V & I).
    unfold lift in H3.
    destruct (write_tree vmo reg) as [w|e] eqn:Wt; [|discriminate].
    injection H3 as <- _.
    apply write_tree_inv in Wt. destruct Wt as (o & O & Wt).
    exists ({| slot_name := reg_name reg; slot_init := init;
               slot_reset := v; slot_offset := o;
               slot_writable := writable reg |} :: slots).
    cbn [flat_map]. unfold slot_decls at 1, slot_writes at 1.
    cbn [slot_name slot_init slot_reset slot_offset slot_writable].
    split; [reflexivity|]. split.
    + destruct Wt as [(-> & ->)|(-> & v' & d' & V' & D' & ->)];
        [reflexivity|].
      rewrite V in V'. injection V' as <-.
      now rewrite (Hd d' D').
    + constructor; [|exact F]. unfold describes.
      cbn [slot_name slot_init slot_reset slot_offset slot_writable].
      repeat split; assumption.
Qed.

Lemma for_each_item_lift_in {A} (f : A -> result (list item)) (l : list A)
      (g g' : rng) (xs : list item) (a : A) :
  for_each_item (fun a => lift (f a)) l g = Ok (xs, g') ->
  In a l -> exists w, f a = Ok w.
Proof.
  revert g g' xs. induction l as [|b l IH]; intros g g' xs H I;
    [destruct I|].
  apply for_each_item_cons in H.
  destruct H as (ws & g1 & ws' & H1 & H2 & _).
  destruct I as [->|I]; [|now apply (IH _ _ _ H2)].
  unfold lift in H1. destruct (f a) as [w|e]; [now exists w|discriminate].
Qed.

Lemma Forall2_in_r {A B} (R : A -> B -> Prop) (l : list A) (l' : list B)
      (y : B) :
  Forall2 R l l' -> In y l' -> exists x, In x l /\ R x y.
Proof.
  induction 1 as [|x y' l l' Hxy F IH]; intros I; [destruct I|].
  destruct I as [->|I].
  - exists x. split; [now left|assumption].
  - destruct (IH I) as (x' & I' & Hx). exists x'. split; [now right|assumption].
Qed.

Lemma Forall2_in_l {A B} (R : A -> B -> Prop) (l : list A) (l' : list B)
      (x : A) :
  Forall2 R l l' -> In x l -> exists y, In y l' /\ R x y.
Proof.
  induction 1 as [|x' y l l' Hxy F IH]; intros I; [destruct I|].
  destruct I as [->|I].
  - exists y. split; [now left|assumption].
  - destruct (IH I) as (y' & I' & Hy). exists y'. split; [now right|assumption].
Qed.

(** The tree of the register logic is a design whose slots stand for the
    descriptors, in order. *)
Lemma register_tree_design (regs : list Reg) (vmo : option VarianceModel)
      (g g' : rng) (items : list item) :
  register_tree regs vmo g = Ok (items, g') ->
  exists slots d,
    items = design slots d
    /\ Forall2 (describes vmo) regs slots
    /\ (vmo = None -> d = None)
    /\ (forall vm, vmo = Some vm ->
        (exists s, In s slots /\ slot_writable s = true) ->
        exists n, base_delay vm = Ok n /\ d = Some n).
Proof.
  unfold register_tree, bindM.
  destruct (for_each_item (declare_tree vmo) regs g) as [[D g1]|e] eqn:HD;
    [|discriminate].
  destruct (for_each_item _ regs g1) as [[Wr g2]|e] eqn:HW; [|discriminate].
  unfold ret. intros H. injection H as <- <-.
  set (d := match delay_of vmo with Ok d => d | Raise _ => None end).
  assert (Hd : forall d', delay_of vmo = Ok d' -> d' = d).
  { intros d' E. unfold d. now rewrite E. }
  destruct (loops_slots vmo d regs Hd _ _ _ _ _ _ HD HW)
    as (slots & -> & -> & F).
  exists slots, d. split; [reflexivity|]. split; [exact F|]. split.
  - intros ->. reflexivity.
  - intros vm -> (s & I & Ws).
    destruct (Forall2_in_r _ _ _ _ F I) as (reg & Ir & Dr).
    destruct Dr as (_ & _ & _ & Wr & _). rewrite Ws in Wr.
    destruct (for_each_item_lift_in _ _ _ _ _ reg HW Ir) as (w & Hw).
    apply write_tree_inv in Hw.
    destruct Hw as (o & _ & [(Wf & _)|(_ & v & d' & _ & D' & _)]);
      [congruence|].
    rewrite <- (Hd d' D'). unfold delay_of in D'.
    destruct (base_delay vm) as [n|e]; [|discriminate D'].
    injection D' as <-. now exists n.
Qed.

Lemma distinct_NoDup (l : list string) : distinct l = true -> NoDup l.
Proof.
  induction l as [|x l IH]; cbn [distinct]; intros H; [constructor|].
  apply andb_true_iff in H. destruct H as [N D].
  constructor; [|now apply IH].
  intros I. apply negb_true_iff in N.
  assert (E : existsb (String.eqb x) l = true).
  { apply existsb_exists. exists x. split; [assumption|].
    apply String.eqb_refl. }
  congruence.
Qed.

Lemma describes_names (vmo : option VarianceModel) (regs : list Reg)
      (slots : list slot) :
  Forall2 (describes vmo) regs slots ->
  map slot_name slots = map reg_name regs.
Proof.
  induction 1 as [|reg s regs slots (N & _) F IH]; [reflexivity|].
  cbn [map]. now rewrite N, IH.
Qed.

(** Whatever [generate_register_logic] returns is the printed design of
    slots that stand for the descriptors. *)
Lemma register_logic_design (regs : list Reg) (vmo : option VarianceModel)
      (g g' : rng) (frag : string) :
  generate_register_logic regs vmo g = Ok (frag, g') ->
  exists slots d,
    frag = join nl (print_items (design slots d))
    /\ Forall2 (describes vmo) regs slots
    /\ (vmo = None -> d = None)
    /\ (forall vm, vmo = Some vm ->
        (exists s, In s slots /\ slot_writable s = true) ->
        exists n, base_delay vm = Ok n /\ d = Some n).
Proof.
  unfold generate_register_logic, bindM.
  rewrite register_logic_lines_tree.
  destruct (register_tree regs vmo g) as [[items g1]|e] eqn:T;
    cbn [printed]; [|discriminate].
  unfold ret. intros H. injection H as <- <-.
  destruct (register_tree_design _ _ _ _ _ T) as (slots & d & -> & R).
  now exists slots, d.
Qed.

Lemma slots_distinct (vmo : option VarianceModel) (regs : list Reg)
      (slots : list slot) :
  Forall2 (describes vmo) regs slots ->
  distinct (map reg_name regs) = true ->
  NoDup (map slot_name slots).
Proof.
  intros F D. rewrite (describes_names _ _ _ F). now apply distinct_NoDup.
Qed.

(** X3: in the register logic generated for descriptors with pairwise
    different names, with or without a variance model, the blocks do not
    interfere: along every trace of bus inputs, from every state, the
    value, the pending flag and the counter of a writable register evolve
    exactly as in the fragment of that register alone (its declarations
    and its write block), and the access timer and the write-pending
    indicator exactly as in the global fragment alone. *)
Theorem X3_registers_do_not_interfere (regs : list Reg)
        (vmo : option VarianceModel) (g g' : rng) (frag : string) :
  generate_register_logic regs vmo g = Ok (frag, g') ->
  distinct (map reg_name regs) = true ->
  exists slots d,
    frag = join nl (print_items (design slots d))
    /\ Forall2 (describes vmo) regs slots
    /\ (forall s ins st k x,
           In s slots -> slot_writable s = true -> owns (slot_name s) x ->
           run (design slots d) ins k st x
           = run (reg_fragment (slot_name s) (slot_init s) (slot_reset s)
                               (slot_offset s) d) ins k st x)
    /\ (forall ins st k,
           run (design slots d) ins k st "register_access_timer"
           = run timing_fragment ins k st "register_access_timer"
           /\ run (design slots d) ins k st "register_write_pending"
              = run timing_fragment ins k st "register_write_pending").
Proof.
  intros H D.
  destruct (register_logic_design _ _ _ _ _ H) as (slots & d & -> & F & _).
  exists slots, d. split; [reflexivity|]. split; [exact F|].
  pose proof (slots_distinct _ _ _ F D) as ND. split.
  - intros s ins st k x I Wr O. now apply design_run_owned.
  - intros ins st k. split; apply design_run_global; auto.
Qed.

(* ================================================================== *)
(** ** Power-up values                                                 *)
(* ================================================================== *)

Lemma init_state_app (a b : list item) (rho : env) :
  init_state (a ++ b) rho = init_state b (init_state a rho).
Proof.
  revert rho. induction a as [|i a IH]; intros rho; [reflexivity|].
  destruct i; cbn [app init_state]; apply IH.
Qed.

Lemma init_state_writes (d : option Z) (slots : list slot) (rho : env) :
  init_state (flat_map (slot_writes d) slots) rho = rho.
Proof.
  revert rho. induction slots as [|s slots IH]; intros rho; [reflexivity|].
  cbn [flat_map]. rewrite init_state_app, IH. unfold slot_writes.
  now destruct (slot_writable s).
Qed.

Lemma upd_other (y x : string) (v : Z) (rho : env) :
  y <> x -> upd y v rho x = rho x.
Proof. intros N. unfold upd. now rewrite (proj2 (String.eqb_neq y x) N). Qed.

Lemma upd_same (x : string) (v : Z) (rho : env) : upd x v rho x = v.
Proof. unfold upd. now rewrite String.eqb_refl. Qed.

Lemma init_slot_other (s : slot) (rho : env) (n x : string) :
  owns n x -> slot_name s <> n -> init_state (slot_decls s) rho x = rho x.
Proof.
  intros O N. unfold slot_decls, decl_items. cbn [init_state].
  assert (F : forall y v r, owns (slot_name s) y -> upd y v r x = r x).
  { intros y v r Oy. apply upd_other. intros ->.
    apply N. now apply (owns_disjoint _ _ x). }
  rewrite !F by (unfold owns; auto). reflexivity.
Qed.

Lemma init_slot_own (s : slot) (rho : env) (w : Z) (r : radix) (p : nat)
      (v : Z) :
  slot_init s = ELit w r p v ->
  let n := slot_name s in
  init_state (slot_decls s) rho (sig_reg n) = (v mod 2 ^ w) mod 2 ^ 32
  /\ init_state (slot_decls s) rho (sig_pending n) = 0
  /\ init_state (slot_decls s) rho (sig_counter n) = 0.
Proof.
  intros I n. unfold slot_decls, decl_items. rewrite I. cbn [init_state].
  subst n. repeat split.
  - rewrite (upd_other (sig_counter (slot_name s))),
            (upd_other (sig_pending (slot_name s))), upd_same;
      [reflexivity| |]; apply String.eqb_neq; sig_eqb; reflexivity.
  - rewrite (upd_other (sig_counter (slot_name s))), upd_same;
      [reflexivity|]. apply String.eqb_neq; sig_eqb; reflexivity.
  - now rewrite upd_same.
Qed.

Lemma init_decls_other (slots : list slot) (rho : env) (n x : string) :
  owns n x -> (forall s, In s slots -> slot_name s <> n) ->
  init_state (flat_map slot_decls slots) rho x = rho x.
Proof.
  intros O. revert rho. induction slots as [|s0 slots IH]; intros rho H;
    [reflexivity|].
  cbn [flat_map]. rewrite init_state_app.
  rewrite IH by (intros s I; apply H; now right).
  apply (init_slot_other _ _ n); [assumption|]. apply H. now left.
Qed.

Lemma init_decls_own (slots : list slot) (s : slot) (rho : env) (w : Z)
      (r : radix) (p : nat) (v : Z) :
  NoDup (map slot_name slots) -> In s slots ->
  slot_init s = ELit w r p v ->
  let n := slot_name s in
  init_state (flat_map slot_decls slots) rho (sig_reg n)
  = (v mod 2 ^ w) mod 2 ^ 32
  /\ init_state (flat_map slot_decls slots) rho (sig_pending n) = 0
  /\ init_state (flat_map slot_decls slots) rho (sig_counter n) = 0.
Proof.
  intros ND I E n. revert rho.
  induction slots as [|s0 slots IH]; intros rho; [destruct I|].
  cbn [map] in ND. inversion ND as [|m ms Hm ND']; subst.
  cbn [flat_map]. rewrite init_state_app.
  destruct I as [->|I].
  - assert (Other : forall s', In s' slots -> slot_name s' <> n).
    { intros s' I' F. apply Hm. fold n. rewrite <- F. now apply in_map. }
    rewrite !(init_decls_other _ _ n) by (unfold owns; auto).
    now apply (init_slot_own s rho w r p v).
  - now apply IH.
Qed.

Lemma init_design_owned (slots : list slot) (d : option Z) (s : slot)
      (rho : env) (w : Z) (r : radix) (p : nat) (v : Z) :
  NoDup (map slot_name slots) -> In s slots ->
  slot_init s = ELit w r p v ->
  let n := slot_name s in
  init_state (design slots d) rho (sig_reg n) = (v mod 2 ^ w) mod 2 ^ 32
  /\ init_state (design slots d) rho (sig_pending n) = 0
  /\ init_state (design slots d) rho (sig_counter n) = 0.
Proof.
  intros ND I E n. unfold design.
  rewrite !init_state_app, init_state_writes.
  change (init_state global_timing_items ?r) with r.
  now apply (init_decls_own slots s _ w r p v).
Qed.

(** The values after an edge under reset, in the fragment of a register. *)
Lemma fragment_reset (n : string) (init : expr) (v o : Z) (d : option Z)
      (ins st : env) :
  truth (ins "reset_n") = false ->
  let st' := cycle (reg_fragment n init v o d) ins st in
  st' (sig_reg n) = v mod 2 ^ 32
  /\ st' (sig_pending n) = 0
  /\ st' (sig_counter n) = 0.
Proof.
  intros R. destruct d as [d|].
  - pose proof (write_cycle_variance n init v o d ins st) as H.
    cbv zeta in *. rewrite R in H. cbn [negb] in H.
    injection H as -> -> ->. auto.
  - pose proof (write_cycle_plain n init v o ins st) as H.
    cbv zeta in *. rewrite R in H. cbn [negb] in H.
    injection H as -> -> ->. auto.
Qed.

(** X4: in the generated register logic (descriptors with pairwise
    different names), an edge under reset gives every writable register
    its configured reset value (not negative: a negative one is printed
    with a sign inside the literal), reduced to 32 bits, and clears its
    pending flag and its counter, whatever the bus and the state.  That
    is the power-up value of the register when no variance model is
    given, except for the shadow-status register, which powers up with 1
    and is reset to its configured value. *)
Theorem X4_reset_versus_power_up (regs : list Reg)
        (vmo : option VarianceModel) (g g' : rng) (frag : string) :
  generate_register_logic regs vmo g = Ok (frag, g') ->
  distinct (map reg_name regs) = true ->
  exists slots d,
    frag = join nl (print_items (design slots d))
    /\ Forall2 (describes vmo) regs slots
    /\ forall s,
        In s slots -> slot_writable s = true -> 0 <= slot_reset s ->
        let n := slot_name s in
        (forall ins st,
            truth (ins "reset_n") = false ->
            let st' := cycle (design slots d) ins st in
            st' (sig_reg n) = slot_reset s mod 2 ^ 32
            /\ st' (sig_pending n) = 0
            /\ st' (sig_counter n) = 0)
        /\ (n = shadow_status ->
            forall rho, init_state (design slots d) rho (sig_reg n) = 1)
        /\ (n <> shadow_status -> vmo = None ->
            forall rho, init_state (design slots d) rho (sig_reg n)
                        = slot_reset s mod 2 ^ 32).
Proof.
  intros H D.
  destruct (register_logic_design _ _ _ _ _ H) as (slots & d & -> & F & _).
  exists slots, d. split; [reflexivity|]. split; [exact F|].
  pose proof (slots_distinct _ _ _ F D) as ND.
  intros s I Wr _ n. split; [|split].
  - intros ins st R. cbv zeta.
    rewrite !(design_cycle_owned _ _ s) by (unfold owns; auto).
    now apply fragment_reset.
  - intros Sh rho.
    destruct (Forall2_in_r _ _ _ _ F I) as (reg & _ & N & _ & _ & _ & Init).
    unfold n in Sh. rewrite <- N, Sh, String.eqb_refl in Init.
    now destruct (init_design_owned slots d s rho _ _ _ _ ND I Init).
  - intros Sh -> rho.
    destruct (Forall2_in_r _ _ _ _ F I) as (reg & _ & N & _ & _ & _ & Init).
    unfold n in Sh. rewrite <- N in Init.
    rewrite (proj2 (String.eqb_neq _ _) Sh) in Init.
    destruct (init_design_owned slots d s rho _ _ _ _ ND I Init) as (E & _).
    subst n. rewrite E. apply Z.mod_mod. lia.
Qed.

(** Without a delay, the pending flag and the counter of a register only
    ever take the value 0 or keep their value. *)
Lemma fragment_plain_flags (n : string) (init : expr) (v o : Z)
      (ins : nat -> env) (st : env) (k : nat) :
  st (sig_pending n) = 0 -> st (sig_counter n) = 0 ->
  run (reg_fragment n init v o None) ins k st (sig_pending n) = 0
  /\ run (reg_fragment n init v o None) ins k st (sig_counter n) = 0.
Proof.
  intros P C. induction k as [|k [IP IC]]; [auto|].
  cbn [run].
  pose proof (write_cycle_plain n init v o (ins k)
                (run (reg_fragment n init v o None) ins k st)) as H.
  cbv zeta in H.
  destruct (negb (truth (ins k "reset_n"))); [|destruct (strobe o (ins k))];
    injection H as _ -> ->; auto.
Qed.

(** X5: signals that are declared and never driven.  In the generated
    register logic (descriptors with pairwise different names), a register
    whose [rw] field is neither ["rw"] nor ["wo"] has no write block: its
    value, its pending flag and its counter keep the same value along
    every trace, reset included.  Without a variance model no register
    ever has its pending flag or its counter different from 0 after
    power-up. *)
Theorem X5_undriven_signals (regs : list Reg) (vmo : option VarianceModel)
        (g g' : rng) (frag : string) :
  generate_register_logic regs vmo g = Ok (frag, g') ->
  distinct (map reg_name regs) = true ->
  exists slots d,
    frag = join nl (print_items (design slots d))
    /\ Forall2 (describes vmo) regs slots
    /\ (forall reg, In reg regs -> writable reg = false ->
                    write_logic vmo reg = Ok [])
    /\ (forall s ins st k x,
           In s slots -> slot_writable s = false -> owns (slot_name s) x ->
           run (design slots d) ins k st x = st x)
    /\ (vmo = None ->
        forall s ins rho k,
          In s slots ->
          let st0 := init_state (design slots d) rho in
          run (design slots d) ins k st0 (sig_pending (slot_name s)) = 0
          /\ run (design slots d) ins k st0 (sig_counter (slot_name s)) = 0).
Proof.
  intros H D.
  destruct (register_logic_design _ _ _ _ _ H)
    as (slots & d & -> & F & Dn & _).
  exists slots, d. split; [reflexivity|]. split; [exact F|].
  pose proof (slots_distinct _ _ _ F D) as ND. split; [|split].
  - intros reg I Wr.
    destruct (Forall2_in_l _ _ _ _ F I) as (s & _ & _ & _ & O & _).
    now apply (write_logic_read_only vmo reg (slot_offset s)).
  - intros s ins st k x I Wr O. now apply (design_run_read_only _ _ s).
  - intros -> s ins rho k I. rewrite (Dn eq_refl) in *. clear Dn.
    intros st0.
    destruct (Forall2_in_r _ _ _ _ F I) as (reg & _ & N & _ & _ & _ & Init).
    assert (Lit : exists w r p v, slot_init s = ELit w r p v).
    { destruct (String.eqb (reg_name reg) shadow_status); eauto. }
    destruct Lit as (w & r & p & v & Lit).
    destruct (init_design_owned slots None s rho _ _ _ _ ND I Lit)
      as (_ & P0 & C0).
    destruct (slot_writable s) eqn:Wr.
    + rewrite !(design_run_owned _ _ s) by (unfold owns; auto).
      now apply fragment_plain_flags.
    + rewrite !(design_run_read_only _ _ s) by (unfold owns; auto).
      auto.
Qed.

(* ================================================================== *)
(** ** Writes on the whole register map, and the read logic          *)
(* ================================================================== *)

(** While every edge carries a write strobe to the register, the value
    stays what it was and the countdown is restarted. *)
Lemma fragment_held_strobe (n : string) (init : expr) (v o d : Z)
      (ins : nat -> env) (st : env) (m : nat) :
  (forall k, (k < m)%nat ->
             truth (ins k "reset_n") = true /\ strobe o (ins k) = true) ->
  forall k, (k <= m)%nat ->
    let s := run (reg_fragment n init v o (Some d)) ins k st in
    s (sig_reg n) = st (sig_reg n)
    /\ ((1 <= k)%nat ->
        s (sig_pending n) = 1 /\ s (sig_counter n) = d mod 2 ^ 8).
Proof.
  intros H. induction k as [|k IH]; intros L.
  - cbn. split; [reflexivity|lia].
  - destruct (IH ltac:(lia)) as [IR _]. cbv zeta in *. cbn [run].
    destruct (H k ltac:(lia)) as [Rs St].
    pose proof (write_cycle_variance n init v o d (ins k)
                  (run (reg_fragment n init v o (Some d)) ins k st)) as E.
    cbv zeta in E. rewrite Rs, St in E. cbn [negb] in E.
    injection E as -> -> ->. auto.
Qed.

(** X6: with a variance model, a write is only stored after a countdown
    that every further write strobe to the register restarts: in the
    generated register logic (descriptors with pairwise different names),
    as long as each edge carries a write strobe to the (non-negative)
    offset of a writable register, outside reset, the value of that
    register does not change, whatever data is on the bus; its pending
    flag is set and its counter holds the seed. *)
Theorem X6_held_strobe_starves_write (regs : list Reg) (vm : VarianceModel)
        (g g' : rng) (frag : string) :
  generate_register_logic regs (Some vm) g = Ok (frag, g') ->
  distinct (map reg_name regs) = true ->
  exists slots d,
    frag = join nl (print_items (design slots d))
    /\ Forall2 (describes (Some vm)) regs slots
    /\ forall s,
        In s slots -> slot_writable s = true -> 0 <= slot_offset s ->
        exists n,
          base_delay vm = Ok n /\ d = Some n
          /\ forall ins st m,
              (forall k, (k < m)%nat ->
                         truth (ins k "reset_n") = true
                         /\ strobe (slot_offset s) (ins k) = true) ->
              forall k, (k <= m)%nat ->
                let st' := run (design slots d) ins k st in
                st' (sig_reg (slot_name s)) = st (sig_reg (slot_name s))
                /\ ((1 <= k)%nat ->
                    st' (sig_pending (slot_name s)) = 1
                    /\ st' (sig_counter (slot_name s)) = n mod 2 ^ 8).
Proof.
  intros H D.
  destruct (register_logic_design _ _ _ _ _ H)
    as (slots & d & -> & F & _ & Dv).
  exists slots, d. split; [reflexivity|]. split; [exact F|].
  pose proof (slots_distinct _ _ _ F D) as ND.
  intros s I Wr _.
  destruct (Dv vm eq_refl) as (n & Bn & ->); [now exists s|].
  exists n. split; [exact Bn|]. split; [reflexivity|].
  intros ins st m Hm k L. cbv zeta.
  rewrite !(design_run_owned _ _ s) by (unfold owns; auto).
  now apply (fragment_held_strobe _ _ _ _ _ ins st m).
Qed.

(** Without a delay, a register keeps its value while there is neither a
    reset nor a write strobe to it. *)
Lemma fragment_plain_holds (n : string) (init : expr) (v o : Z)
      (ins : nat -> env) (st : env) (m : nat) :
  quiet o ins m ->
  forall k, (k <= S m)%nat ->
    run (reg_fragment n init v o None) ins k st (sig_reg n) = st (sig_reg n).
Proof.
  intros Q. induction k as [|k IH]; intros L; [reflexivity|].
  cbn [run]. destruct (Q k ltac:(lia)) as [Rs St].
  pose proof (write_cycle_plain n init v o (ins k)
                (run (reg_fragment n init v o None) ins k st)) as E.
  cbv zeta in E. rewrite Rs, St in E. cbn [negb] in E.
  injection E as -> _ _. apply IH. lia.
Qed.

Lemma fragment_plain_write (n : string) (init : expr) (v o : Z)
      (ins st : env) :
  truth (ins "reset_n") = true -> strobe o ins = true ->
  cycle (reg_fragment n init v o None) ins st (sig_reg n)
  = ins "bar_wr_data" mod 2 ^ 32.
Proof.
  intros Rs St.
  pose proof (write_cycle_plain n init v o ins st) as E.
  cbv zeta in E. rewrite Rs, St in E. cbn [negb] in E.
  now injection E as -> _ _.
Qed.

Lemma resolve_slots (vmo : option VarianceModel) (regs : list Reg)
      (slots : list slot) :
  Forall2 (describes vmo) regs slots ->
  resolve regs = Ok (map (fun s => (slot_name s, slot_offset s)) slots).
Proof.
  induction 1 as [|reg s regs slots (N & _ & O & _) F IH]; [reflexivity|].
  cbn [resolve map]. rewrite O, IH. cbn [Py.bind]. now rewrite N.
Qed.

Lemma read_logic_design (vmo : option VarianceModel) (regs : list Reg)
      (slots : list slot) :
  Forall2 (describes vmo) regs slots ->
  generate_read_logic regs
  = Ok (join nl (print_items (design_reads slots))).
Proof.
  intros F. unfold generate_read_logic.
  rewrite read_logic_tree, (resolve_slots _ _ _ F). reflexivity.
Qed.

(** X7: a write on a whole register map without a variance model.  In
    the generated register logic (descriptors with pairwise different
    names), after an edge outside reset that carries a write strobe to
    the (non-negative) offset of a writable register, and along any
    number of edges with neither reset nor a further strobe to it (writes
    to the other registers are allowed), that register holds the data
    that was on the bus at the strobe, reduced to 32 bits. *)
Theorem X7_write_is_stored_and_held (regs : list Reg) (g g' : rng)
        (frag : string) :
  generate_register_logic regs None g = Ok (frag, g') ->
  distinct (map reg_name regs) = true ->
  exists slots,
    frag = join nl (print_items (design slots None))
    /\ Forall2 (describes None) regs slots
    /\ forall s ins later n st,
        In s slots -> slot_writable s = true -> 0 <= slot_offset s ->
        truth (ins "reset_n") = true ->
        strobe (slot_offset s) ins = true ->
        quiet (slot_offset s) later n ->
        let st1 := cycle (design slots None) ins st in
        forall k, (k <= S n)%nat ->
          run (design slots None) later k st1 (sig_reg (slot_name s))
          = ins "bar_wr_data" mod 2 ^ 32.
Proof.
  intros H D.
  destruct (register_logic_design _ _ _ _ _ H)
    as (slots & d & -> & F & Dn & _).
  rewrite (Dn eq_refl) in *. clear Dn d.
  exists slots. split; [reflexivity|]. split; [exact F|].
  pose proof (slots_distinct _ _ _ F D) as ND.
  intros s ins later n st I Wr _ Rs St Q st1 k L.
  rewrite (design_run_owned _ _ s) by (unfold owns; auto).
  rewrite fragment_plain_holds with (m := n) by (assumption || lia).
  unfold st1. rewrite (design_cycle_owned _ _ s) by (unfold owns; auto).
  now apply fragment_plain_write.
Qed.

(** X8: the same with a variance model: the strobe only starts the
    countdown, and [b + 1] further edges without reset or strobe to the
    register are needed, [b] being the 8-bit seed
    [max(1, int(jitter / 10)) mod 256]; until the last of them the
    register keeps its old value, whatever the other registers do, and
    after it the register holds the data that is on the bus at that last
    edge, not the data of the strobe. *)
Theorem X8_delayed_write_on_the_map (regs : list Reg) (vm : VarianceModel)
        (g g' : rng) (frag : string) :
  generate_register_logic regs (Some vm) g = Ok (frag, g') ->
  distinct (map reg_name regs) = true ->
  exists slots d,
    frag = join nl (print_items (design slots d))
    /\ Forall2 (describes (Some vm)) regs slots
    /\ forall s ins st,
        In s slots -> slot_writable s = true -> 0 <= slot_offset s ->
        exists n,
          base_delay vm = Ok n /\ d = Some n
          /\ let b := Z.to_nat (n mod 2 ^ 8) in
             truth (ins O "reset_n") = true ->
             strobe (slot_offset s) (ins O) = true ->
             quiet (slot_offset s) (fun k => ins (S k)) b ->
             (forall k, (k <= S b)%nat ->
                run (design slots d) ins k st (sig_reg (slot_name s))
                = st (sig_reg (slot_name s)))
             /\ run (design slots d) ins (S (S b)) st
                    (sig_reg (slot_name s))
                = ins (S b) "bar_wr_data" mod 2 ^ 32.
Proof.
  intros H D.
  destruct (register_logic_design _ _ _ _ _ H)
    as (slots & d & -> & F & _ & Dv).
  exists slots, d. split; [reflexivity|]. split; [exact F|].
  pose proof (slots_distinct _ _ _ F D) as ND.
  intros s ins st I Wr _.
  destruct (Dv vm eq_refl) as (n & Bn & ->); [now exists s|].
  exists n. split; [exact Bn|]. split; [reflexivity|].
  intros b Rs St Q.
  destruct (strobe_then_commit (slot_name s) (slot_init s) (slot_reset s)
              (slot_offset s) n ins st Rs St Q) as [Keep Commit].
  fold b in Keep, Commit.
  split.
  - intros k L.
    rewrite (design_run_owned _ _ s) by (unfold owns; auto).
    now apply Keep.
  - rewrite (design_run_owned _ _ s) by (unfold owns; auto).
    exact Commit.
Qed.

(** The case of the read logic cannot be elaborated, whatever entries
    follow the fixed ones. *)
Lemma fixed_entries_do_not_elaborate (es : list case_entry) :
  elaborates (fixed_entries ++ es) = false.
Proof. reflexivity. Qed.

(** X9: the generated read logic is not SystemVerilog, whatever the
    descriptors.  Its case always carries the line
    [32'h00000020: bar_rd_data = 32'hADVANCED;], and [ADVANCED] is no
    hexadecimal number ([V] and [N] are no digits): the case cannot be
    elaborated, and no read returns a value, at a fixed address, at the
    offset of a register or anywhere else. *)
Theorem X9_read_logic_does_not_elaborate (regs : list Reg) (rl : string) :
  generate_read_logic regs = Ok rl ->
  exists rs,
    resolve regs = Ok rs
    /\ rl = join nl (print_items (read_items rs))
    /\ In ("            32'h00000020: bar_rd_data = 32'hADVANCED;"
             +s+ "  // Advanced controller signature")
          (print_items (read_items rs))
    /\ hex_number "ADVANCED" = false
    /\ forall rho, read_data (read_items rs) rho = None.
Proof.
  unfold generate_read_logic. rewrite read_logic_tree.
  destruct (resolve regs) as [rs|e]; cbn [Py.bind]; [|discriminate].
  intros H. injection H as <-. exists rs.
  split; [reflexivity|]. split; [reflexivity|].
  split.
  { unfold read_items, fixed_entries.
    cbn [print_items print_item map List.concat app print_entry].
    cbn [In]. repeat (first [left; reflexivity | right]). }
  split; [reflexivity|].
  intros rho. unfold read_items. cbn [read_data]. unfold read_case.
  now rewrite fixed_entries_do_not_elaborate.
Qed.

(* ================================================================== *)
(** ** Which descriptors are accepted                                  *)
(* ================================================================== *)

(** X2: a string offset is read in base 16 only when it starts with the
    two characters [0x]; a string that starts with [0X], or with a blank
    before [0x], is given to [int(_)] in base 10 and raises [ValueError],
    whatever follows, and so does the empty string.  The same texts are
    accepted as a reset value, which is always read in base 16, and give
    there what the text starting with [0x] gives. *)
Theorem X2_offset_prefix_is_case_sensitive (name value rw rest : string) :
  let reg := fun off => {| reg_name := name; reg_value := value;
                           reg_offset := PStr off; reg_rw := rw |} in
  parse_offset (reg ("0X" +s+ rest)) = Raise ValueError
  /\ parse_offset (reg (" 0x" +s+ rest)) = Raise ValueError
  /\ parse_offset (reg "") = Raise ValueError
  /\ int_of_str 16 ("0X" +s+ rest) = int_of_str 16 ("0x" +s+ rest)
  /\ int_of_str 16 (" 0x" +s+ rest) = int_of_str 16 ("0x" +s+ rest).
Proof. repeat split; reflexivity. Qed.

Lemma int_of_str_raises (base : Z) (s : string) (e : exn) :
  int_of_str base s = Raise e -> e = ValueError.
Proof.
  unfold int_of_str.
  destruct (strip_sign (lstrip s)) as [neg s1].
  destruct (if base =? 16 then strip_hex_prefix s1 else s1) as [|c s2];
    [congruence|].
  destruct (is_underscore c); [congruence|].
  destruct (scan_digits base (String c s2) false 0 0) as [[[v [|n]] rest]|];
    try congruence.
  destruct (negb (power_of_two base) && (max_str_digits <? Z.of_nat (S n)));
    [congruence|].
  destruct (lstrip rest); congruence.
Qed.

Lemma parse_offset_raises (reg : Reg) (e : exn) :
  parse_offset reg = Raise e -> e = ValueError.
Proof.
  unfold parse_offset. destruct (reg_offset reg) as [s|z]; [|discriminate].
  destruct (startswith s "0x"); apply int_of_str_raises.
Qed.

Lemma for_each_item_raises {A} (body : A -> M (list item)) (l : list A)
      (g : rng) (e : exn) :
  for_each_item body l g = Raise e ->
  exists a g0, In a l /\ body a g0 = Raise e.
Proof.
  revert g. induction l as [|a l IH]; intros g; [discriminate|].
  cbn [for_each_item]. unfold bindM at 1.
  destruct (body a g) as [[xs g1]|e'] eqn:B.
  - unfold bindM.
    destruct (for_each_item body l g1) as [[xs' g2]|e''] eqn:F;
      [discriminate|].
    intros H. injection H as ->.
    destruct (IH _ F) as (a' & g0 & I & Hb). exists a', g0.
    split; [now right|assumption].
  - intros H. injection H as ->. exists a, g. split; [now left|assumption].
Qed.

Lemma register_tree_none_raises (regs : list Reg) (g : rng) (e : exn) :
  register_tree regs None g = Raise e -> e = ValueError.
Proof.
  unfold register_tree. unfold bindM at 1.
  destruct (for_each_item (declare_tree None) regs g) as [[D g1]|e'] eqn:HD.
  - unfold bindM.
    destruct (for_each_item _ regs g1) as [[Wr g2]|e''] eqn:HW;
      [discriminate|].
    intros H. injection H as ->.
    destruct (for_each_item_raises _ _ _ _ HW) as (reg & g0 & _ & Hb).
    unfold lift, write_tree in Hb.
    destruct (parse_offset reg) as [o|e1] eqn:O; cbn [Py.bind] in Hb.
    + destruct (writable reg); [|discriminate].
      destruct (int_of_str 16 (reg_value reg)) as [v|e1] eqn:V;
        cbn [Py.bind delay_of] in Hb; [discriminate|].
      injection Hb as <-. now apply int_of_str_raises in V.
    + injection Hb as <-. now apply parse_offset_raises in O.
  - intros H. injection H as ->.
    destruct (for_each_item_raises _ _ _ _ HD) as (reg & g0 & _ & Hb).
    unfold declare_tree, init_of, bindM, lift, ret in Hb.
    destruct (int_of_str 16 (reg_value reg)) as [v|e1] eqn:V.
    + destruct (String.eqb (reg_name reg) shadow_status); discriminate.
    + injection Hb as <-. now apply int_of_str_raises in V.
Qed.

Lemma register_logic_is_tree (regs : list Reg) (vmo : option VarianceModel)
      (g : rng) :
  generate_register_logic regs vmo g
  = match register_tree regs vmo g with
    | Ok (items, g') => Ok (join nl (print_items items), g')
    | Raise e => Raise e
    end.
Proof.
  unfold generate_register_logic, bindM.
  rewrite register_logic_lines_tree.
  now destruct (register_tree regs vmo g) as [[items g1]|e].
Qed.

Lemma entry_point_unfold (self : AdvancedSVGenerator) (regs : list Reg)
      (vmo : option VarianceModel) (g : rng) :
  generate_advanced_systemverilog self regs vmo g
  = match generate_register_logic regs vmo g with
    | Ok (_, g1) =>
        match generate_read_logic regs with
        | Ok _ => Ok (module_content, g1)
        | Raise e => Raise e
        end
    | Raise e => Raise e
    end.
Proof.
  unfold generate_advanced_systemverilog, bindM, ret, lift.
  destruct (generate_register_logic regs vmo g) as [[frag g1]|e];
    [|reflexivity].
  now destruct (generate_read_logic regs).
Qed.

Lemma describes_well_formed (vmo : option VarianceModel) (regs : list Reg)
      (slots : list slot) :
  Forall2 (describes vmo) regs slots -> Forall well_formed regs.
Proof.
  induction 1 as [|reg s regs slots (_ & V & O & _) F IH]; constructor;
    [|assumption].
  split; eauto.
Qed.

(** X10: the descriptors are validated as a side effect of computing
    fragments that are then dropped.  For descriptors whose texts are
    ASCII: whenever the entry point returns, with or without a variance
    model, the value of every descriptor is a hexadecimal literal and its
    offset an integer or an integer literal; without a variance model
    that is also sufficient, and otherwise the entry point raises
    [ValueError]. *)
Theorem X10_validation_by_side_effect (self : AdvancedSVGenerator)
        (regs : list Reg) :
  Forall (fun reg => ascii_descriptor reg = true) regs ->
  (forall vmo g text g',
      generate_advanced_systemverilog self regs vmo g = Ok (text, g') ->
      Forall well_formed regs)
  /\ (forall g, Forall well_formed regs ->
                generate_advanced_systemverilog self regs None g
                = Ok (module_content, g))
  /\ (forall g, ~ Forall well_formed regs ->
                generate_advanced_systemverilog self regs None g
                = Raise ValueError).
Proof.
  intros _.
  assert (A : forall vmo g text g',
             generate_advanced_systemverilog self regs vmo g = Ok (text, g')
             -> Forall well_formed regs).
  { intros vmo g text g'. rewrite entry_point_unfold.
    destruct (generate_register_logic regs vmo g) as [[frag g1]|e] eqn:R;
      [|discriminate].
    intros _.
    destruct (register_logic_design _ _ _ _ _ R) as (slots & d & _ & F & _).
    now apply (describes_well_formed vmo regs slots). }
  assert (B : forall g, Forall well_formed regs ->
                generate_advanced_systemverilog self regs None g
                = Ok (module_content, g)).
  { intros g W.
    destruct (register_logic_none_total regs g W) as (frag & R).
    now apply (generate_returns_template self regs None g g frag). }
  split; [exact A|]. split; [exact B|].
  intros g N.
  destruct (generate_advanced_systemverilog self regs None g)
    as [[text g']|e] eqn:E.
  - elim N. now apply (A None g text g').
  - f_equal. rewrite entry_point_unfold in E.
    rewrite register_logic_is_tree in E.
    destruct (register_tree regs None g) as [[items g1]|e1] eqn:T.
    + destruct (generate_read_logic regs) as [rl|e2] eqn:L; [discriminate|].
      injection E as <-.
      destruct (register_tree_design _ _ _ _ _ T) as (slots & d & _ & F & _).
      rewrite (read_logic_design None regs slots F) in L. discriminate.
    + injection E as <-. now apply register_tree_none_raises in T.
Qed.

Lemma X10_validation_by_side_effect_witness :
  generate_advanced_systemverilog default_generator [ctrl; low_reg] None
    (const_rng 0) = Ok (module_content, const_rng 0)
  /\ generate_advanced_systemverilog default_generator
       [ctrl; {| reg_name := "bad"; reg_value := "0x10";
                 reg_offset := PStr "0X40"; reg_rw := "ro" |}] None
       (const_rng 0) = Raise ValueError.
Proof.
  split.
  - destruct (X10_validation_by_side_effect default_generator
                [ctrl; low_reg]) as (_ & B & _).
    + repeat constructor.
    + apply B. repeat constructor; eexists; reflexivity.
  - destruct (X10_validation_by_side_effect default_generator
                [ctrl; {| reg_name := "bad"; reg_value := "0x10";
                          reg_offset := PStr "0X40"; reg_rw := "ro" |}])
      as (_ & _ & C); [repeat constructor|].
    apply C. intros F. inversion F as [|r l _ F']; subst.
    inversion F' as [|r l (_ & o & O) _]; subst. discriminate O.
Defined.

(* ================================================================== *)
(** ** Draws of the random generator                                   *)
(* ================================================================== *)

Lemma declare_tree_draws (vmo : option VarianceModel) (reg : Reg)
      (g g' : rng) (xs : list item) :
  declare_tree vmo reg g = Ok (xs, g') ->
  forall k, g' k = g (draws (match vmo with
                             | Some _ => [reg]
                             | None => []
                             end) + k)%nat.
Proof.
  unfold declare_tree, init_of, bindM, lift, ret, random, draws.
  destruct (int_of_str 16 (reg_value reg)) as [v|e]; [|discriminate].
  destruct vmo as [vm|]; cbn [filter];
    destruct (String.eqb (reg_name reg) shadow_status); cbn [negb List.length].
  - intros H. now injection H as _ <-.
  - destruct (varied_value v (g O)) as [n|e]; [|discriminate].
    intros H. now injection H as _ <-.
  - intros H. now injection H as _ <-.
  - intros H. now injection H as _ <-.
Qed.

Lemma draws_cons (reg : Reg) (regs : list Reg) :
  draws (reg :: regs) = (draws [reg] + draws regs)%nat.
Proof.
  unfold draws. cbn [filter].
  now destruct (negb (String.eqb (reg_name reg) shadow_status)).
Qed.

Lemma declare_loop_draws (vm : VarianceModel) (regs : list Reg)
      (g g' : rng) (xs : list item) :
  for_each_item (declare_tree (Some vm)) regs g = Ok (xs, g') ->
  forall k, g' k = g (draws regs + k)%nat.
Proof.
  revert g g' xs. induction regs as [|reg regs IH]; intros g g' xs H k.
  - cbn in H. now injection H as _ <-.
  - apply for_each_item_cons in H.
    destruct H as (ys & g1 & ys' & H1 & H2 & _).
    rewrite (draws_cons reg regs), (IH _ _ _ H2),
      (declare_tree_draws _ _ _ _ _ H1).
    cbv iota. f_equal. lia.
Qed.

Lemma write_loop_state {A} (f : A -> result (list item)) (l : list A)
      (g g' : rng) (xs : list item) :
  for_each_item (fun a => lift (f a)) l g = Ok (xs, g') -> g' = g.
Proof.
  revert g g' xs. induction l as [|a l IH]; intros g g' xs H.
  - cbn in H. now injection H as _ <-.
  - apply for_each_item_cons in H.
    destruct H as (ys & g1 & ys' & H1 & H2 & _).
    unfold lift in H1. destruct (f a); [|discriminate].
    injection H1 as _ <-. now apply (IH _ _ _ H2).
Qed.

(** X11: with a variance model the register logic takes exactly one draw
    of [random.random()] for every descriptor that is not named
    [pcileech_tlps128_cfgspace_shadow_status], in the order of the list,
    and none for anything else: after it, and after the entry point, the
    generator is the initial one advanced by that number of draws. *)
Theorem X11_one_draw_per_register (self : AdvancedSVGenerator)
        (regs : list Reg) (vm : VarianceModel) (g g' : rng) (frag : string) :
  generate_register_logic regs (Some vm) g = Ok (frag, g') ->
  (forall k, g' k = g (draws regs + k)%nat)
  /\ generate_advanced_systemverilog self regs (Some vm) g
     = Ok (module_content, g').
Proof.
  intros H. split.
  - rewrite register_logic_is_tree in H.
    destruct (register_tree regs (Some vm) g) as [[items g1]|e] eqn:T;
      [|discriminate].
    injection H as _ <-.
    unfold register_tree in T. unfold bindM at 1 in T.
    destruct (for_each_item (declare_tree (Some vm)) regs g)
      as [[D g2]|e] eqn:HD; [|discriminate].
    unfold bindM in T.
    destruct (for_each_item _ regs g2) as [[Wr g3]|e] eqn:HW;
      [|discriminate].
    injection T as _ <-.
    rewrite (write_loop_state _ _ _ _ _ HW).
    now apply (declare_loop_draws vm regs g g2 D).
  - now apply (generate_returns_template self regs (Some vm) g g' frag).
Qed.

Lemma X11_one_draw_per_register_witness :
  draws [ctrl; shadow_reg; reg_max] = 2%nat
  /\ forall k, two_draws (S (S k)) = two_draws (2 + k)%nat.
Proof.
  split; [reflexivity|].
  destruct (X11_one_draw_per_register default_generator
              [ctrl; shadow_reg; reg_max] vm25
              two_draws (fun k => two_draws (S (S k)))
              (join nl (print_items
                 (design [ctrl_slot; shadow_slot; mask_slot 0x00A3D709]
                         (Some 2))))
              eq_refl) as (H & _).
  exact H.
Defined.

(* ================================================================== *)
(** ** The interrupt logic over time                                   *)
(* ================================================================== *)

(** X12: the interrupt logic arbitrates within one cycle only: it keeps no
    trace of the level of a pending interrupt.  At an edge with any event
    (reset, an error, a bus access, the acknowledgment) the next pending
    flag, vector and priority do not depend on the current ones; so a
    pending uncorrectable-error interrupt (vector 2, priority 15) becomes
    the lowest level (vector 0, priority 4) at the first bus access
    without error, before any acknowledgment.  Without any event the three
    values are kept. *)
Theorem X12_interrupt_level_is_not_remembered (ins st st' : env) :
  (irq_event ins = true ->
   irq_state (cycle interrupt_items ins st)
   = irq_state (cycle interrupt_items ins st'))
  /\ (irq_event ins = false ->
      irq_state (cycle interrupt_items ins st) = irq_state st)
  /\ (truth (ins "reset_n") = true ->
      truth (ins "uncorrectable_error") = false ->
      truth (ins "correctable_error") = false ->
      truth (ins "bar_wr_en") || truth (ins "bar_rd_en") = true ->
      irq_state st = (1, 2, 15) ->
      irq_state (cycle interrupt_items ins st) = (1, 0, 4)).
Proof.
  pose proof (interrupt_cycle ins st) as A.
  pose proof (interrupt_cycle ins st') as B.
  cbv zeta in A, B. unfold irq_state, irq_event.
  rewrite A, B. clear A B.
  destruct (truth (ins "reset_n")), (truth (ins "uncorrectable_error")),
    (truth (ins "correctable_error")), (truth (ins "bar_wr_en")),
    (truth (ins "bar_rd_en")), (truth (ins "msi_ack"));
    cbn [negb orb]; repeat split; intros; try reflexivity;
    try discriminate.
Qed.

Lemma X12_interrupt_level_is_not_remembered_witness :
  irq_state (cycle interrupt_items (irq_inputs 0 0 0 1 0)
               (upd "interrupt_pending" 1
                  (upd "interrupt_vector" 2
                     (upd "interrupt_priority" 15 all_zero))))
  = (1, 0, 4).
Proof.
  destruct (X12_interrupt_level_is_not_remembered (irq_inputs 0 0 0 1 0)
              (upd "interrupt_pending" 1
                 (upd "interrupt_vector" 2
                    (upd "interrupt_priority" 15 all_zero)))
              all_zero) as (_ & _ & H).
  apply H; reflexivity.
Defined.

(** X13: from power-up, along every trace of inputs (resets included), the
    interrupt logic is in one of four states: idle with vector and
    priority 0, or pending with vector 2 and priority 15, vector 1 and
    priority 8, or vector 0 and priority 4.  So the priority is non-zero
    exactly when an interrupt is pending, and the vector never exceeds
    2. *)
Theorem X13_interrupt_states (ins : nat -> env) (rho : env) (n : nat) :
  let st := run interrupt_items ins n (init_state interrupt_items rho) in
  In (irq_state st) irq_states
  /\ (st "interrupt_pending" = 1 <-> st "interrupt_priority" <> 0)
  /\ 0 <= st "interrupt_vector" <= 2.
Proof.
  cbv zeta.
  assert (I : In (irq_state (run interrupt_items ins n
                               (init_state interrupt_items rho)))
                 irq_states).
  { induction n as [|n IH].
    - left. reflexivity.
    - cbn [run]. unfold irq_state in *.
      rewrite (interrupt_cycle (ins n)).
      unfold irq_states in *. cbn [In] in *.
      destruct (negb (truth (ins n "reset_n"))); [auto|].
      destruct (truth (ins n "uncorrectable_error")); [auto|].
      destruct (truth (ins n "correctable_error")); [auto|].
      destruct (truth (ins n "bar_wr_en") || truth (ins n "bar_rd_en"));
        [auto 6|].
      destruct (truth (ins n "msi_ack")); [auto|].
      exact IH. }
  split; [exact I|].
  set (st := run interrupt_items ins n (init_state interrupt_items rho))
    in *.
  unfold irq_states, irq_state in I.
  destruct I as [E|[E|[E|[E|[]]]]]; injection E as E1 E2 E3;
    rewrite <- E1, <- E2, <- E3;
    (split; [split; [discriminate || reflexivity
                    | intros; reflexivity || congruence]
            | lia]).
Qed.

(** X14: the two interrupt requests are never raised together.  Under
    every valuation, the wires [msi_request] and [cfg_interrupt] driven by
    the interrupt fragment are 0 or 1 and not both 1; one of them is 1
    exactly when an interrupt is pending, [msi_request] when MSI is
    enabled and [cfg_interrupt] otherwise; [msi_vector] is the stored
    vector. *)
Theorem X14_interrupt_requests_exclusive (rho : env) :
  let p := truth (rho "interrupt_pending") in
  let m := truth (rho "cfg_interrupt_msi_enable") in
  wire interrupt_items rho "msi_request" = Some (of_bool (p && m))
  /\ wire interrupt_items rho "cfg_interrupt" = Some (of_bool (p && negb m))
  /\ wire interrupt_items rho "msi_vector" = Some (rho "interrupt_vector")
  /\ of_bool (p && m) + of_bool (p && negb m) = of_bool p.
Proof.
  cbv zeta. repeat split.
  - unfold wire. cbn [interrupt_items assign_of String.eqb Ascii.eqb
                      Bool.eqb eval]. now rewrite truth_of_bool.
  - now destruct (truth (rho "interrupt_pending")),
      (truth (rho "cfg_interrupt_msi_enable")).
Qed.

(* ================================================================== *)
(** ** Free-running counters                                           *)
(* ================================================================== *)

Lemma add_mod_succ (a n m : Z) :
  0 < m -> ((a + n) mod m + 1) mod m = (a + (n + 1)) mod m.
Proof.
  intros H. rewrite Z.add_mod_idemp_l by lia. f_equal. lia.
Qed.

(** X15: the access timer of the register logic counts clock edges, not
    accesses: outside reset it advances by one at every edge, modulo
    2^32, whatever the bus does, and an edge under reset puts it back to
    0. *)
Theorem X15_access_timer_free_running (ins : nat -> env) (st : env)
        (n : nat) :
  (forall k, (k < n)%nat -> truth (ins k "reset_n") = true) ->
  run timing_fragment ins (S n) st "register_access_timer"
  = (if truth (ins n "reset_n")
     then (st "register_access_timer" + Z.of_nat (S n)) mod 2 ^ 32
     else 0)
  /\ global_timing_lines = print_items global_timing_items.
Proof.
  intros H. split; [|apply global_timing_tree].
  assert (G : forall k, (1 <= k <= n)%nat ->
                run timing_fragment ins k st "register_access_timer"
                = (st "register_access_timer" + Z.of_nat k) mod 2 ^ 32).
  { induction k as [|k IH]; intros L; [lia|].
    cbn [run].
    pose proof (timing_cycle (ins k) (run timing_fragment ins k st)) as E.
    cbv zeta in E. rewrite (H k) in E by lia. cbn [negb] in E.
    injection E as -> _.
    destruct k as [|k].
    - cbn [run]. f_equal; lia.
    - rewrite IH by lia. rewrite add_mod_succ by lia. f_equal; lia. }
  cbn [run].
  pose proof (timing_cycle (ins n) (run timing_fragment ins n st)) as E.
  cbv zeta in E.
  destruct (truth (ins n "reset_n")); cbn [negb] in E; injection E as -> _;
    [|reflexivity].
  destruct n as [|n].
  - cbn [run]. f_equal; lia.
  - rewrite G by lia. rewrite add_mod_succ by lia. f_equal; lia.
Qed.

Lemma X15_access_timer_free_running_witness :
  run timing_fragment late_strobe 20 (init_state timing_fragment all_zero)
      "register_access_timer" = 20.
Proof.
  destruct (X15_access_timer_free_running late_strobe
              (init_state timing_fragment all_zero) 19) as (H & _).
  - intros k _. reflexivity.
  - exact H.
Defined.

Lemma clock_tree : clock_lines = print_items clock_items.
Proof. reflexivity. Qed.

(** The next value of the monitor counter. *)
Lemma clock_cycle (ins st : env) :
  cycle clock_items ins st "clk_monitor_counter"
  = if truth (ins "reset_n")
    then (st "clk_monitor_counter" + 1) mod 2 ^ 16
    else 0.
Proof.
  unfold cycle.
  assert (Srst : sample clock_items ins st "reset_n" = ins "reset_n")
    by reflexivity.
  assert (SC : sample clock_items ins st "clk_monitor_counter"
               = st "clk_monitor_counter") by reflexivity.
  assert (WC : width_of clock_items "clk_monitor_counter" = 16)
    by reflexivity.
  set (cur := sample clock_items ins st) in *.
  set (W := width_of clock_items) in *.
  change (ff_edge W clock_items cur cur) with (exec W clock_block cur cur).
  unfold clock_block. cbn [exec eval]. rewrite truth_of_bool, Srst.
  destruct (truth (ins "reset_n")); cbn [negb exec eval];
    rewrite upd_same, WC, ?SC; reflexivity.
Qed.

Lemma clock_cycle_frame (ins st : env) (x : string) :
  x <> "clk_monitor_counter" -> declared clock_items x = true ->
  cycle clock_items ins st x = st x.
Proof.
  intros N D. unfold cycle.
  change (ff_edge (width_of clock_items) clock_items
            (sample clock_items ins st) (sample clock_items ins st))
    with (exec (width_of clock_items) clock_block
            (sample clock_items ins st) (sample clock_items ins st)).
  rewrite exec_frame.
  - unfold sample. now rewrite D.
  - cbn [clock_block assigned app In]. intuition congruence.
Qed.

(** X16: the clock-domain fragment, which is the same text whatever the
    generator and the variance model.  Its monitor counter advances by one
    at every edge outside reset, modulo 2^16, and is put back to 0 by an
    edge under reset.  The other two counters and the two validity flags
    are declared and driven by nothing: along every trace they keep their
    value, which is 0 for the counters and 1 for the flags after
    power-up, so that no clock is ever reported invalid. *)
Theorem X16_clock_monitor (self : AdvancedSVGenerator)
        (vmo : option VarianceModel) (ins : nat -> env) (st rho : env)
        (n : nat) :
  (forall k, (k < n)%nat -> truth (ins k "reset_n") = true) ->
  generate_clock_domain_logic self vmo = join nl (print_items clock_items)
  /\ run clock_items ins (S n) st "clk_monitor_counter"
     = (if truth (ins n "reset_n")
        then (st "clk_monitor_counter" + Z.of_nat (S n)) mod 2 ^ 16
        else 0)
  /\ (forall (tr : nat -> env) (k : nat) (x : string),
         In x ["mem_clk_monitor_counter"; "aux_clk_monitor_counter";
               "mem_clk_valid"; "aux_clk_valid"] ->
         run clock_items tr k st x = st x)
  /\ (forall (tr : nat -> env) (k : nat),
         let s := run clock_items tr k (init_state clock_items rho) in
         s "mem_clk_valid" = 1 /\ s "aux_clk_valid" = 1
         /\ s "mem_clk_monitor_counter" = 0
         /\ s "aux_clk_monitor_counter" = 0).
Proof.
  intros H. split; [reflexivity|].
  assert (Fr : forall (s0 : env) (tr : nat -> env) (k : nat) (x : string),
             In x ["mem_clk_monitor_counter"; "aux_clk_monitor_counter";
                   "mem_clk_valid"; "aux_clk_valid"] ->
             run clock_items tr k s0 x = s0 x).
  { intros s0 tr k x I. induction k as [|k IH]; [reflexivity|].
    cbn [run]. rewrite clock_cycle_frame; [exact IH| |];
      cbn [In] in I;
      destruct I as [<- | [<- | [<- | [<- | [ ] ] ] ] ];
      reflexivity || discriminate. }
  split; [|split].
  - assert (G : forall k, (1 <= k <= n)%nat ->
                  run clock_items ins k st "clk_monitor_counter"
                  = (st "clk_monitor_counter" + Z.of_nat k) mod 2 ^ 16).
    { induction k as [|k IH]; intros L; [lia|].
      cbn [run]. rewrite clock_cycle, (H k) by lia.
      destruct k as [|k].
      - cbn [run]. f_equal; lia.
      - rewrite IH by lia. rewrite add_mod_succ by lia. f_equal; lia. }
    cbn [run]. rewrite clock_cycle.
    destruct (truth (ins n "reset_n")); [|reflexivity].
    destruct n as [|n].
    + cbn [run]. f_equal; lia.
    + rewrite G by lia. rewrite add_mod_succ by lia. f_equal; lia.
  - intros tr k x I. now apply Fr.
  - intros tr k. cbv zeta.
    rewrite !Fr by (cbn [In]; auto). repeat split; reflexivity.
Qed.

Lemma X16_clock_monitor_witness :
  run clock_items late_strobe 20 (init_state clock_items all_zero)
      "clk_monitor_counter" = 20.
Proof.
  destruct (X16_clock_monitor default_generator None late_strobe
              (init_state clock_items all_zero) all_zero 19)
    as (_ & H & _).
  - intros k _. reflexivity.
  - exact H.
Defined.

(* ================================================================== *)
(** ** The module header                                               *)
(* ================================================================== *)

(** X17: the header is a plain string too: whatever the generator, it is
    the same text, the place holders of the device type, of the payload
    size and of the device-specific ports are still in it, and the ports
    computed by [_generate_device_specific_ports], for any of the device
    types, do not occur in it. *)
Theorem X17_header_not_expanded (self : AdvancedSVGenerator) :
  generate_module_header self = generate_module_header default_generator
  /\ contains (generate_module_header self)
              "{self.device_config.device_type.value}" = true
  /\ contains (generate_module_header self)
              "{self.device_config.max_payload_size}" = true
  /\ contains (generate_module_header self)
              "{self._generate_device_specific_ports()}" = true
  /\ contains (generate_module_header self)
              (_generate_device_specific_ports self) = false.
Proof.
  repeat split.
  unfold _generate_device_specific_ports.
  destruct (device_type (device_config self)); vm_compute; reflexivity.
Qed.

(* ================================================================== *)
(** ** The width of the printed literals                                *)
(* ================================================================== *)








(** X18: the generator does not check the range of an offset.  For a
    descriptor whose offset is the integer [a], [b] or [c], the label of
    its read entry is [32'h] followed by exactly eight characters when
    [0 <= a < 2^32]; by more than eight characters (nothing is cut off:
    they read back as [b]) when [2^32 <= b]; and by a minus sign and at
    least seven characters when [c < 0]. *)
Theorem X18_offset_range_unchecked (name value rw : string) (a b c : Z) :
  0 <= a < 2 ^ 32 -> 2 ^ 32 <= b -> c < 0 ->
  let reg := fun off =>
    {| reg_name := name; reg_value := value; reg_offset := PInt off;
       reg_rw := rw |} in
  let line := fun d =>
    "            32'h" +s+ d +s+ ": bar_rd_data = " +s+ name +s+ "_reg;" in
  (exists d, read_entry (reg a) = Ok (line d) /\ String.length d = 8%nat)
  /\ (exists d, read_entry (reg b) = Ok (line d)
                /\ (8 < String.length d)%nat
                /\ int_of_str 16 ("0x" +s+ d) = Ok b)
  /\ (exists d, read_entry (reg c) = Ok (line ("-" +s+ d))
                /\ (7 <= String.length d)%nat).
Proof.
  intros Ha Hb Hc reg line. split; [|split].
  - exists (format_08X a). split; [reflexivity|].
    unfold format_08X, format_int.
    replace (a <? 0) with false by (symmetry; apply Z.ltb_ge; lia).
    rewrite length_zfill.
    pose proof (length_digits_le 16 a 7 ltac:(lia)) as L.
    change (16 ^ Z.of_nat 8) with (2 ^ 32) in L. specialize (L Ha). lia.
  - exists (format_08X b). split; [reflexivity|]. split.
    + unfold format_08X, format_int.
      replace (b <? 0) with false by (symmetry; apply Z.ltb_ge; lia).
      rewrite length_zfill.
      pose proof (length_digits_ge 16 b 8 ltac:(lia)) as L.
      change (16 ^ Z.of_nat 8) with (2 ^ 32) in L. specialize (L Hb). lia.
    + apply int_of_hex_literal. lia.
  - exists (zfill 7 (digits 16 (- c))). split.
    + unfold read_entry, parse_offset, reg. cbn [reg_offset reg_name Py.bind].
      unfold format_08X, format_int.
      replace (c <? 0) with true by (symmetry; apply Z.ltb_lt; lia).
      reflexivity.
    + rewrite length_zfill. lia.
Qed.

Lemma X18_offset_range_unchecked_witness :
  (exists d,
      read_entry {| reg_name := "ctrl"; reg_value := "0x00000000";
                    reg_offset := PInt 48; reg_rw := "rw" |}
      = Ok ("            32'h" +s+ d +s+ ": bar_rd_data = ctrl_reg;")
      /\ String.length d = 8%nat)
  /\ (exists d,
         read_entry {| reg_name := "ctrl"; reg_value := "0x00000000";
                       reg_offset := PInt (2 ^ 32 + 48); reg_rw := "rw" |}
         = Ok ("            32'h" +s+ d +s+ ": bar_rd_data = ctrl_reg;")
         /\ (8 < String.length d)%nat
         /\ int_of_str 16 ("0x" +s+ d) = Ok (2 ^ 32 + 48))
  /\ (exists d,
         read_entry {| reg_name := "ctrl"; reg_value := "0x00000000";
                       reg_offset := PInt (- 48); reg_rw := "rw" |}
         = Ok ("            32'h-" +s+ d +s+ ": bar_rd_data = ctrl_reg;")
         /\ (7 <= String.length d)%nat).
Proof.
  apply (X18_offset_range_unchecked "ctrl" "0x00000000" "rw"
           48 (2 ^ 32 + 48) (- 48)); lia.
Defined.

(* ================================================================== *)
(** ** The theorems on the example registers                           *)
(* ================================================================== *)

Lemma X3_registers_do_not_interfere_witness :
  exists slots d,
    Forall2 (describes None) [ctrl; low_reg] slots
    /\ forall ins st k,
        run (design slots d) ins k st "register_access_timer"
        = run timing_fragment ins k st "register_access_timer".
Proof.
  destruct (X3_registers_do_not_interfere [ctrl; low_reg] None
              (const_rng 0) (const_rng 0)
              (join nl (print_items (design [ctrl_slot; low_slot] None)))
              eq_refl eq_refl) as (slots & d & _ & F & _ & G).
  exists slots, d. split; [exact F|]. intros ins st k. now destruct (G ins st k).
Defined.

Lemma X4_reset_versus_power_up_witness :
  exists slots d,
    Forall2 (describes None) [ctrl; reg_max] slots
    /\ forall s, In s slots -> slot_writable s = true ->
                 0 <= slot_reset s ->
                 forall ins st,
                   truth (ins "reset_n") = false ->
                   cycle (design slots d) ins st (sig_reg (slot_name s))
                   = slot_reset s mod 2 ^ 32.
Proof.
  destruct (X4_reset_versus_power_up [ctrl; reg_max] None
              (const_rng 0) (const_rng 0)
              (join nl (print_items
                          (design [ctrl_slot; mask_slot 0xFFFFFFFF] None)))
              eq_refl eq_refl) as (slots & d & _ & F & G).
  exists slots, d. split; [exact F|].
  intros s I Wr P ins st R. destruct (G s I Wr P) as (H & _).
  now destruct (H ins st R).
Defined.

Lemma X5_undriven_signals_witness :
  write_logic None low_reg = Ok [].
Proof.
  destruct (X5_undriven_signals [ctrl; low_reg] None
              (const_rng 0) (const_rng 0)
              (join nl (print_items (design [ctrl_slot; low_slot] None)))
              eq_refl eq_refl) as (slots & d & _ & _ & W & _).
  apply W; [right; left; reflexivity | reflexivity].
Defined.

Lemma X6_held_strobe_starves_write_witness :
  exists slots d,
    Forall2 (describes (Some vm25)) [ctrl; reg_max] slots
    /\ forall s, In s slots -> slot_writable s = true ->
                 0 <= slot_offset s ->
                 exists n, base_delay vm25 = Ok n /\ d = Some n.
Proof.
  destruct (X6_held_strobe_starves_write [ctrl; reg_max] vm25
              two_draws (fun k => two_draws (S (S k)))
              (join nl (print_items
                          (design [ctrl_slot; mask_slot 0x00A3D709]
                                  (Some 2))))
              eq_refl eq_refl) as (slots & d & _ & F & G).
  exists slots, d. split; [exact F|].
  intros s I Wr P. destruct (G s I Wr P) as (n & B & E & _). now exists n.
Defined.

Lemma describes_ctrl_mask (vmo : option VarianceModel) (slots : list slot) :
  Forall2 (describes vmo) [ctrl; reg_max] slots ->
  exists i1 i2,
    slots = [ {| slot_name := "ctrl"; slot_init := i1; slot_reset := 0;
                 slot_offset := 0x30; slot_writable := true |};
              {| slot_name := "mask"; slot_init := i2;
                 slot_reset := 0xFFFFFFFF; slot_offset := 0x44;
                 slot_writable := true |} ].
Proof.
  intros F.
  inversion F as [|r1 s1 l1 l1' D1 F1]; subst.
  inversion F1 as [|r2 s2 l2 l2' D2 F2]; subst.
  inversion F2; subst.
  destruct s1 as [n1 i1 v1 o1 w1], s2 as [n2 i2 v2 o2 w2].
  destruct D1 as (N1 & V1 & O1 & W1 & _), D2 as (N2 & V2 & O2 & W2 & _).
  cbn in N1, V1, O1, W1, N2, V2, O2, W2.
  injection V1 as <-. injection O1 as <-. injection V2 as <-.
  injection O2 as <-. subst. now exists i1, i2.
Qed.

Lemma X7_write_is_stored_and_held_witness :
  exists slots,
    Forall2 (describes None) [ctrl; reg_max] slots
    /\ run (design slots None) (fun _ => bus 1 0x44 7) 3
           (cycle (design slots None) (bus 1 0x30 0xDEADBEEF) all_zero)
           "ctrl_reg"
       = 0xDEADBEEF.
Proof.
  destruct (X7_write_is_stored_and_held [ctrl; reg_max]
              (const_rng 0) (const_rng 0)
              (join nl (print_items
                          (design [ctrl_slot; mask_slot 0xFFFFFFFF] None)))
              eq_refl eq_refl) as (slots & _ & F & H).
  exists slots. split; [exact F|].
  destruct (describes_ctrl_mask None slots F) as (i1 & i2 & E).
  apply (H {| slot_name := "ctrl"; slot_init := i1; slot_reset := 0;
              slot_offset := 0x30; slot_writable := true |}
           (bus 1 0x30 0xDEADBEEF) (fun _ => bus 1 0x44 7) 2%nat all_zero).
  - rewrite E. left. reflexivity.
  - reflexivity.
  - discriminate.
  - reflexivity.
  - reflexivity.
  - intros k _. split; reflexivity.
  - apply le_n.
Defined.

Lemma X8_delayed_write_on_the_map_witness :
  exists slots d,
    Forall2 (describes (Some vm25)) [ctrl; reg_max] slots
    /\ run (design slots d) (changing_write 0x30 0x11111111 0x22222222)
           4 all_zero "ctrl_reg"
       = 0x22222222.
Proof.
  destruct (X8_delayed_write_on_the_map [ctrl; reg_max] vm25
              two_draws (fun k => two_draws (S (S k)))
              (join nl (print_items
                          (design [ctrl_slot; mask_slot 0x00A3D709]
                                  (Some 2))))
              eq_refl eq_refl) as (slots & d & _ & F & H).
  exists slots, d. split; [exact F|].
  destruct (describes_ctrl_mask (Some vm25) slots F) as (i1 & i2 & E).
  destruct (H {| slot_name := "ctrl"; slot_init := i1; slot_reset := 0;
                 slot_offset := 0x30; slot_writable := true |}
              (changing_write 0x30 0x11111111 0x22222222) all_zero)
    as (n & B & _ & G).
  - rewrite E. left. reflexivity.
  - reflexivity.
  - discriminate.
  - injection B as <-.
    destruct G as (_ & C); [reflexivity | reflexivity | |exact C].
    intros k _. split; reflexivity.
Defined.

Lemma X9_read_logic_does_not_elaborate_witness :
  read_data (read_items [("ctrl", 0x30)]) (bus 0 0x30 0) = None
  /\ read_data (read_items [("ctrl", 0x30)]) (bus 0 0x10 0) = None.
Proof.
  destruct (X9_read_logic_does_not_elaborate [ctrl]
              (join nl (print_items ctrl_read_items)) eq_refl)
    as (rs & R & _ & _ & _ & H).
  injection R as <-. split; apply H.
Defined.
